(** * Christmas-Scam-LeoClub: the ending timeline, the counter client and
      the gift box, embedded from the TypeScript sources.

    JavaScript numbers are IEEE 754 binary64 values.  They are modelled by
    the Standard Library's [spec_float] at precision 53 and maximal
    exponent 1024, so that [prev + 0.1] rounds the way the browser rounds
    it and every run of the timeline can be evaluated inside Rocq.

    A React component is modelled by a record of its [useState] cells and
    refs together with what React keeps for it: the dependency array and
    the cleanup closure of the last run of each effect.  An event (a click,
    a timer firing, a render requested by the parent) updates the cells and
    is followed by a render, after which an effect runs exactly when an
    entry of its dependency array has changed.  Calls that leave the
    component (playing a sound, calling a prop) are recorded in a log.  An
    [async] function is a computation in a state-and-exception monad, given
    how each promise it awaits settles. *)

From Stdlib Require Import ZArith List Bool Lia String.
From Stdlib Require Import SpecFloat.
Import ListNotations.
Local Open Scope Z_scope.

(* ------------------------------------------------------------------ *)
(** ** JavaScript numbers *)

Module Num.

Definition number := spec_float.

Definition prec : Z := 53.
Definition emax : Z := 1024.

Definition add : number -> number -> number := SFadd prec emax.
Definition sub : number -> number -> number := SFsub prec emax.
Definition div : number -> number -> number := SFdiv prec emax.
Definition abs : number -> number := SFabs.
(** [x < y], [x <= y] and [x >= y] of JavaScript; all are false on NaN. *)
Definition ltb : number -> number -> bool := SFltb.
Definition leb : number -> number -> bool := SFleb.
Definition geb (x y : number) : bool := SFleb y x.

(** An integer literal (all the ones used are far below 2^53). *)
Definition ofZ (z : Z) : number := binary_normalize prec emax z 0 false.

(** The decimal literal [n / 10^k], rounded to the nearest binary64 value
    as a JavaScript parser does: both operands are exact and IEEE division
    is correctly rounded. *)
Definition dec (n : Z) (k : nat) : number :=
  match k with
  | O => ofZ n
  | _ => div (ofZ n) (ofZ (10 ^ Z.of_nat k))
  end.

Definition eq_dec (x y : number) : {x = y} + {x <> y}.
Proof. repeat decide equality. Defined.

Definition eqb (x y : number) : bool := if eq_dec x y then true else false.

Definition isNaN (x : number) : bool :=
  match x with S754_nan => true | _ => false end.

End Num.

(* ------------------------------------------------------------------ *)
(** ** src/components/EndingScene.tsx *)

Module EndingScene.

(** [useState<'idle' | 'playing' | 'finished' | 'sendoff' | 'sendoff2'>] *)
Inductive Status := idle | playing | finished | sendoff | sendoff2.

Definition Status_eq_dec (a b : Status) : {a = b} + {a <> b}.
Proof. decide equality. Defined.

(** The three audio elements held in refs. *)
Inductive Audio := glitchAudio | errorGlitch | endingBg.

Definition Audio_eq_dec (a b : Audio) : {a = b} + {a <> b}.
Proof. decide equality. Defined.

(** Observable side effects.  [Play a c] is a call of [a.play()] made while
    the component's clock reads [c]. *)
Inductive Action :=
| StopBgMusic
| Play (a : Audio) (c : Num.number)
| SetStatus (st : Status).

(** Component state: the two [useState] cells, whether each audio ref is
    non-null, the timers created by [setInterval] that are still live, the
    cleanup closure returned by the last run of the timeline effect (the id
    it clears), the dependency array [status, currentTime] of that run, and
    the trace of side effects, newest first. *)
Record State := mkState {
  status : Status;
  currentTime : Num.number;
  glitchAudioRef : bool;
  errorGlitchRef : bool;
  endingBgRef : bool;
  intervals : list nat;
  nextTimer : nat;
  cleanup : option nat;
  deps : option (Status * Num.number);
  log : list Action
}.

Definition setStatus (st : Status) (s : State) : State :=
  mkState st (currentTime s) (glitchAudioRef s) (errorGlitchRef s)
    (endingBgRef s) (intervals s) (nextTimer s) (cleanup s) (deps s)
    (SetStatus st :: log s).

Definition setCurrentTime (f : Num.number -> Num.number) (s : State) : State :=
  mkState (status s) (f (currentTime s)) (glitchAudioRef s) (errorGlitchRef s)
    (endingBgRef s) (intervals s) (nextTimer s) (cleanup s) (deps s) (log s).

Definition emit (a : Action) (s : State) : State :=
  mkState (status s) (currentTime s) (glitchAudioRef s) (errorGlitchRef s)
    (endingBgRef s) (intervals s) (nextTimer s) (cleanup s) (deps s)
    (a :: log s).

Definition initAudio (s : State) : State :=
  mkState (status s) (currentTime s) true true true
    (intervals s) (nextTimer s) (cleanup s) (deps s) (log s).

(** [setInterval(cb, 100)]: a fresh timer becomes live. *)
Definition setInterval (s : State) : nat * State :=
  (nextTimer s,
   mkState (status s) (currentTime s) (glitchAudioRef s) (errorGlitchRef s)
     (endingBgRef s) (nextTimer s :: intervals s) (S (nextTimer s))
     (cleanup s) (deps s) (log s)).

Definition clearInterval (id : nat) (s : State) : State :=
  mkState (status s) (currentTime s) (glitchAudioRef s) (errorGlitchRef s)
    (endingBgRef s) (filter (fun j => negb (Nat.eqb j id)) (intervals s))
    (nextTimer s) (cleanup s) (deps s) (log s).

Definition setCleanup (c : option nat) (s : State) : State :=
  mkState (status s) (currentTime s) (glitchAudioRef s) (errorGlitchRef s)
    (endingBgRef s) (intervals s) (nextTimer s) c (deps s) (log s).

Definition setDeps (d : option (Status * Num.number)) (s : State) : State :=
  mkState (status s) (currentTime s) (glitchAudioRef s) (errorGlitchRef s)
    (endingBgRef s) (intervals s) (nextTimer s) (cleanup s) d (log s).

(** Lines 21-38. *)
Definition startEnding (s : State) : State :=
  let s := emit StopBgMusic s in
  let s := setStatus playing s in
  let s := setCurrentTime (fun _ => Num.ofZ 0) s in
  let s := initAudio s in
  emit (Play endingBg (currentTime s)) s.

(** The clock advances by [0.1] every [100] ms. *)
Definition tickStep : Num.number := Num.dec 1 1.
Definition tolerance : Num.number := Num.dec 5 2.
Definition totalDuration : Num.number := Num.ofZ 92.

(** [Math.abs(currentTime - t) < 0.05] *)
Definition near (currentTime t : Num.number) : bool :=
  Num.ltb (Num.abs (Num.sub currentTime t)) tolerance.

(** Offsets of the two glitch cues (lines 48-53). *)
Definition glitchTimes : list Num.number := [Num.dec 5 1; Num.dec 40 1].

(** Lines 57-81. *)
Definition textRevealTimes : list Num.number :=
  [ Num.dec 1 1;
    Num.dec 50 1;
    Num.dec 100 1; Num.dec 105 1;
    Num.dec 150 1; Num.dec 155 1;
    Num.dec 200 1; Num.dec 215 1;
    Num.dec 260 1; Num.dec 275 1;
    Num.dec 322 1; Num.dec 335 1; Num.dec 348 1; Num.dec 360 1;
    Num.dec 382 1; Num.dec 395 1; Num.dec 408 1; Num.dec 420 1;
    Num.dec 440 1; Num.dec 450 1;
    Num.dec 500 1; Num.dec 510 1;
    Num.dec 560 1; Num.dec 575 1; Num.dec 585 1;
    Num.dec 610 1; Num.dec 625 1; Num.dec 635 1;
    Num.dec 660 1; Num.dec 675 1;
    Num.dec 710 1; Num.dec 725 1;
    Num.dec 765 1; Num.dec 785 1;
    Num.dec 835 1; Num.dec 855 1 ].

(** [ref.current?.play()] *)
Definition playIfSet (present : bool) (a : Audio) (s : State) : State :=
  if present then emit (Play a (currentTime s)) s else s.

(** Lines 48-53, one [if] per offset. *)
Definition glitchCue (c t : Num.number) (s : State) : State :=
  if near c t then playIfSet (glitchAudioRef s) glitchAudio s else s.

(** Lines 83-88. *)
Definition textRevealCue (c : Num.number) (s : State) : State :=
  if existsb (fun t => near c t) textRevealTimes
  then playIfSet (errorGlitchRef s) errorGlitch s
  else s.

(** Lines 91-94. *)
Definition endCheck (c : Num.number) (interval : nat) (s : State) : State :=
  if Num.geb c totalDuration
  then clearInterval interval (setStatus finished s)
  else s.

(** Body of the timeline effect, lines 40-97, run for the render whose
    [status] and [currentTime] are those of [s].  The closure it returns is
    kept in [cleanup]. *)
Definition timelineEffect (s : State) : State :=
  match status s with
  | playing =>
      let c := currentTime s in
      let (interval, s) := setInterval s in
      let s := glitchCue c (Num.dec 5 1) s in
      let s := glitchCue c (Num.dec 40 1) s in
      let s := textRevealCue c s in
      let s := endCheck c interval s in
      setCleanup (Some interval) s
  | _ => setCleanup None s
  end.

(** Whether React has to run the effect again: it compares the dependency
    array of the last run with the current [status, currentTime]
    ([Object.is] on each entry). *)
Definition depsChanged (s : State) : bool :=
  match deps s with
  | None => true
  | Some (st, c) =>
      negb (if Status_eq_dec st (status s) then Num.eqb c (currentTime s)
            else false)
  end.

Definition runCleanup (s : State) : State :=
  match cleanup s with
  | Some id => clearInterval id s
  | None => s
  end.

(** One render followed by its effect phase. *)
Definition renderOnce (s : State) : State :=
  if depsChanged s
  then
    let d := Some (status s, currentTime s) in
    setDeps d (timelineEffect (runCleanup s))
  else s.

(** Rendering until no state update is pending.  The effect writes state
    only when it moves [playing] to [finished], so a second pass settles
    (see [commit_settled]). *)
Definition commit (s : State) : State := renderOnce (renderOnce s).

(** The component right after mounting. *)
Definition mount : State :=
  commit (mkState idle (Num.ofZ 0) false false false [] O None None []).

(** [setCurrentTime(prev => prev + 0.1)] *)
Definition intervalCallback (s : State) : State :=
  setCurrentTime (fun prev => Num.add prev tickStep) s.

(** What can happen to the mounted component during the timed sequence: a
    click on the place of the start button, [100] ms passing, and a
    re-render requested from outside (the parent rendering again).  The
    buttons of the final card lead on to the send-off screens and are not
    part of the sequence. *)
Inductive Event := ClickStart | Tick | Rerender.

(** The start button exists only while [status === 'idle'] (lines
    142-154); in any other status the click reaches nothing.  On a tick
    every live interval fires its callback once, and the render that follows
    clears it and sets the next one (the effect depends on [currentTime]). *)
Definition step (s : State) (e : Event) : State :=
  match e with
  | ClickStart =>
      match status s with
      | idle => commit (startEnding s)
      | _ => s
      end
  | Tick =>
      match intervals s with
      | [] => s
      | ids => commit (fold_left (fun s' _ => intervalCallback s') ids s)
      end
  | Rerender => commit s
  end.

Definition run (s : State) (tr : list Event) : State := fold_left step tr s.

(** Line 137. *)
Definition isTime (currentTime start end_ : Num.number) : bool :=
  Num.geb currentTime start && Num.ltb currentTime end_.

(** The [isTime(a, b)] guards inside the [playing] container, in source
    order (lines 172-561). *)
Definition sceneWindows : list (Z * Z) :=
  [ (0, 5); (5, 10); (10, 15); (15, 20); (20, 26); (26, 32); (32, 38);
    (38, 44); (44, 50); (50, 56); (56, 61); (61, 66); (66, 71); (71, 76);
    (76, 83); (83, 90) ].

Definition inWindow (c : Num.number) (w : Z * Z) : bool :=
  isTime c (Num.ofZ (fst w)) (Num.ofZ (snd w)).

(** The timed scenes the render shows. *)
Definition visibleScenes (s : State) : list (Z * Z) :=
  match status s with
  | playing => filter (inWindow (currentTime s)) sceneWindows
  | _ => []
  end.

(** How often the cue at offset [t] of audio [a] has sounded. *)
Definition isCue (a : Audio) (t : Num.number) (x : Action) : bool :=
  match x with
  | Play b c => (if Audio_eq_dec a b then true else false) && near c t
  | _ => false
  end.

Definition fired (a : Audio) (t : Num.number) (l : list Action) : nat :=
  List.length (filter (isCue a t) l).

Definition isSetStatus (st : Status) (x : Action) : bool :=
  match x with
  | SetStatus st' => if Status_eq_dec st st' then true else false
  | _ => false
  end.

Definition isPlay (a : Audio) (x : Action) : bool :=
  match x with
  | Play b _ => if Audio_eq_dec a b then true else false
  | _ => false
  end.

(** The windows of [ws] follow one another without gap or overlap,
    starting at [from]; [endFrom] is where the last one ends. *)
Fixpoint contiguousFrom (from : Z) (ws : list (Z * Z)) : bool :=
  match ws with
  | [] => true
  | (a, b) :: rest =>
      Z.eqb a from && Num.leb (Num.ofZ a) (Num.ofZ b) && contiguousFrom b rest
  end.

Fixpoint endFrom (from : Z) (ws : list (Z * Z)) : Z :=
  match ws with
  | [] => from
  | (_, b) :: rest => endFrom b rest
  end.

(** The run: the start button clicked on the mounted component, then [n]
    periods of 100 ms. *)
Definition started : State := step mount ClickStart.
Definition tickState (n : nat) : State := run started (repeat Tick n).

(** [P] holds of [s] and of the [n] states that follow it tick by tick. *)
Fixpoint allAlong (P : State -> bool) (n : nat) (s : State) : bool :=
  P s && match n with
         | O => true
         | S k => allAlong P k (step s Tick)
         end.

Definition isPlaying (s : State) : bool :=
  if Status_eq_dec (status s) playing then true else false.

(** Ticks needed to finish: [920] additions of [0.1] give
    [91.999999999999048], still below [92]. *)
Definition ticksToFinish : nat := 921.

(** The states a mounted component can be in. *)
Definition Reach (s : State) : Prop :=
  s = mount \/ exists n, (n <= ticksToFinish)%nat /\ s = tickState n.

Definition countTicks (tr : list Event) : nat :=
  List.length (filter (fun e => match e with Tick => true | _ => false end) tr).

(** How often the sequence has been declared finished. *)
Definition finishes (s : State) : nat :=
  List.length (filter (isSetStatus finished) (log s)).

(** A state in the middle of the sequence: playing, no render pending,
    exactly one live interval, which the pending cleanup clears, the clock
    below the total duration, and the end not yet declared. *)
Definition running (s : State) : bool :=
  isPlaying s && negb (depsChanged s) &&
  match intervals s, cleanup s with
  | [i], Some j => Nat.eqb i j
  | _, _ => false
  end &&
  negb (Num.geb (currentTime s) totalDuration) &&
  Nat.eqb (finishes s) 0.

(** A state after the sequence: finished, declared so once, no render
    pending, no live interval. *)
Definition stopped (s : State) : bool :=
  (if Status_eq_dec (status s) finished then true else false) &&
  match intervals s with [] => true | _ => false end &&
  negb (depsChanged s) &&
  Nat.eqb (finishes s) 1.

(** The events of [tr] other than the clicks on the place of the start
    button. *)
Definition withoutStartClicks (tr : list Event) : list Event :=
  filter (fun e => match e with ClickStart => false | _ => true end) tr.

(** How often audio [a] has been played. *)
Definition played (a : Audio) (s : State) : nat :=
  List.length (filter (isPlay a) (log s)).

(** Every cue of the two tables has sounded exactly once, and the two
    sounds were played as often as there are cues. *)
Definition eachCueOnce (s : State) : bool :=
  forallb (fun t => Nat.eqb (fired glitchAudio t (log s)) 1) glitchTimes &&
  forallb (fun t => Nat.eqb (fired errorGlitch t (log s)) 1) textRevealTimes &&
  Nat.eqb (played glitchAudio s) (List.length glitchTimes) &&
  Nat.eqb (played errorGlitch s) (List.length textRevealTimes).

End EndingScene.

(* ------------------------------------------------------------------ *)
(** ** hooks/useScamStats (src/unnamed/part_000) *)

Module ScamStats.

Local Open Scope string_scope.

(** What [res.json()] can produce, plus [undefined] for an absent
    property. *)
#[local] Set Warnings "-register-all".
Inductive Value :=
| VUndefined
| VNull
| VBool (b : bool)
| VNumber (n : Num.number)
| VString (s : string)
| VArray (items : list Value)
| VObject (fields : list (string * Value)).

(** ToBoolean, as applied by [if (data.count)]. *)
Definition truthy (v : Value) : bool :=
  match v with
  | VUndefined | VNull => false
  | VBool b => b
  | VNumber n =>
      match n with
      | S754_zero _ | S754_nan => false
      | _ => true
      end
  | VString s => negb (String.eqb s "")
  | VArray _ | VObject _ => true
  end.

Fixpoint lookup (k : string) (fs : list (string * Value)) : option Value :=
  match fs with
  | [] => None
  | (k', v) :: rest => if String.eqb k k' then Some v else lookup k rest
  end.

Definition Error := string.

(** How a promise settles; inside an [async] body a rejection awaited is an
    exception thrown, so the same type serves for both. *)
Inductive Settled (A : Type) :=
| Fulfilled (a : A)
| Rejected (e : Error).
Arguments Fulfilled {A} a.
Arguments Rejected {A} e.

(** A response as far as the hook looks at it: the settlement of
    [res.json()]. *)
Record Response := mkResponse {
  httpStatus : Z;
  json : Settled Value
}.

(** The network: how [fetch(url)] settles. *)
Definition Net := string -> Settled Response.

(** The two [useState] cells and the lines written by [console.error]. *)
Record Stats := mkStats {
  visits : Value;
  victims : Value;
  console : list string
}.

Definition initial : Stats := mkStats (VNumber (Num.ofZ 0)) (VNumber (Num.ofZ 0)) [].

(** State and exceptions of an [async] function body. *)
Definition M (A : Type) : Type := Stats -> Settled A * Stats.

Definition ret {A} (a : A) : M A := fun s => (Fulfilled a, s).
Definition throw {A} (e : Error) : M A := fun s => (Rejected e, s).
Definition bind {A B} (m : M A) (k : A -> M B) : M B :=
  fun s =>
    match m s with
    | (Fulfilled a, s') => k a s'
    | (Rejected e, s') => (Rejected e, s')
    end.
Definition await {A} (p : Settled A) : M A := fun s => (p, s).
Definition tryCatch {A} (body : M A) (handler : Error -> M A) : M A :=
  fun s =>
    match body s with
    | (Fulfilled a, s') => (Fulfilled a, s')
    | (Rejected e, s') => handler e s'
    end.

Notation "x <- m ;; k" := (bind m (fun x => k))
  (at level 61, m at next level, right associativity).
Notation "m ;;; k" := (bind m (fun _ => k))
  (at level 61, right associativity).

Definition setVisits (v : Value) : M unit :=
  fun s => (Fulfilled tt, mkStats v (victims s) (console s)).
Definition setVictims (v : Value) : M unit :=
  fun s => (Fulfilled tt, mkStats (visits s) v (console s)).
Definition consoleError (msg : string) : M unit :=
  fun s => (Fulfilled tt, mkStats (visits s) (victims s) (msg :: console s)).

(** [data.count]: a TypeError on [null] and [undefined], the property of an
    object, and [undefined] on anything else. *)
Definition getCount (data : Value) : M Value :=
  match data with
  | VUndefined | VNull => throw "TypeError"
  | VObject fs =>
      ret (match lookup "count" fs with Some v => v | None => VUndefined end)
  | _ => ret VUndefined
  end.

Definition API_BASE : string :=
  "https://api.counterapi.dev/v1/christmas-scam-leoclub".

Definition when (b : bool) (m : M unit) : M unit := if b then m else ret tt.

Definition incrementVisit (fetch : Net) : M unit :=
  tryCatch
    (res <- await (fetch (API_BASE ++ "/visits/up")) ;;
     data <- await (json res) ;;
     count <- getCount data ;;
     when (truthy count) (setVisits count))
    (fun e => consoleError "Failed to track visit").

Definition incrementVictim (fetch : Net) : M unit :=
  tryCatch
    (res <- await (fetch (API_BASE ++ "/victims/up")) ;;
     data <- await (json res) ;;
     count <- getCount data ;;
     when (truthy count) (setVictims count))
    (fun e => consoleError "Failed to track victim").

(** [Promise.all([p1, p2])]: both requests are already issued; the result
    rejects as soon as one of them does (which reason it carries does not
    matter, the handler ignores it). *)
Definition promiseAll2 {A} (p1 p2 : Settled A) : Settled (A * A) :=
  match p1, p2 with
  | Fulfilled a, Fulfilled b => Fulfilled (a, b)
  | Rejected e, _ => Rejected e
  | _, Rejected e => Rejected e
  end.

Definition fetchStats (fetch : Net) : M unit :=
  tryCatch
    (rs <- await (promiseAll2 (fetch (API_BASE ++ "/visits"))
                              (fetch (API_BASE ++ "/victims"))) ;;
     visitData <- await (json (fst rs)) ;;
     victimData <- await (json (snd rs)) ;;
     visitCount <- getCount visitData ;;
     when (truthy visitCount) (setVisits visitCount) ;;;
     victimCount <- getCount victimData ;;
     when (truthy victimCount) (setVictims victimCount))
    (fun e => consoleError "Failed to fetch stats").

(** The three operations the hook returns. *)
Inductive Call := IncrementVisit | IncrementVictim | FetchStats.

Definition call (c : Call) : Net -> M unit :=
  match c with
  | IncrementVisit => incrementVisit
  | IncrementVictim => incrementVictim
  | FetchStats => fetchStats
  end.

(** The requests a call sends. *)
Definition requests (c : Call) : list string :=
  match c with
  | IncrementVisit => [API_BASE ++ "/visits/up"]
  | IncrementVictim => [API_BASE ++ "/victims/up"]
  | FetchStats => [API_BASE ++ "/visits"; API_BASE ++ "/victims"]
  end.

(** The request whose answer a call may store in [visits], and the one
    whose answer it may store in [victims]. *)
Definition visitsRequest (c : Call) : option string :=
  match c with
  | IncrementVisit => Some (API_BASE ++ "/visits/up")
  | IncrementVictim => None
  | FetchStats => Some (API_BASE ++ "/visits")
  end.

Definition victimsRequest (c : Call) : option string :=
  match c with
  | IncrementVisit => None
  | IncrementVictim => Some (API_BASE ++ "/victims/up")
  | FetchStats => Some (API_BASE ++ "/victims")
  end.

(** The request fails: [fetch] rejects, or the body does not parse. *)
Definition rejects (fetch : Net) (url : string) : bool :=
  match fetch url with
  | Rejected _ => true
  | Fulfilled r => match json r with Rejected _ => true | Fulfilled _ => false end
  end.

(** The parsed body of the answer to a request, when there is one. *)
Definition bodyOf (fetch : Net) (url : string) : option Value :=
  match fetch url with
  | Fulfilled r => match json r with Fulfilled d => Some d | Rejected _ => None end
  | Rejected _ => None
  end.

(** The value of [data.count] when reading it does not throw. *)
Definition readCount (data : Value) : option Value :=
  match data with
  | VUndefined | VNull => None
  | VObject fs =>
      Some (match lookup "count" fs with Some v => v | None => VUndefined end)
  | _ => Some VUndefined
  end.

Definition hasNumericCount (data : Value) : bool :=
  match readCount data with
  | Some (VNumber _) => true
  | _ => false
  end.

(** The count the guard [if (data.count)] lets through, if any. *)
Definition usableCount (fetch : Net) (url : string) : option Value :=
  match bodyOf fetch url with
  | Some d =>
      match readCount d with
      | Some v => if truthy v then Some v else None
      | None => None
      end
  | None => None
  end.

(** [data.count] cannot be read or is falsy: absent, [null], [false], a
    zero, NaN or the empty string. *)
Definition countIsFalsy (data : Value) : bool :=
  match readCount data with
  | Some v => negb (truthy v)
  | None => true
  end.

Definition isNumber (v : Value) : bool :=
  match v with VNumber _ => true | _ => false end.

(** A network that answers every request with status 200 and body [d]. *)
Definition replyWith (d : Value) : Net :=
  fun _ => Fulfilled (mkResponse 200 (Fulfilled d)).

(** A network on which every request fails. *)
Definition offline : Net := fun _ => Rejected "TypeError: Failed to fetch".

End ScamStats.

(* ------------------------------------------------------------------ *)
(** ** src/components/GiftBox.tsx *)

Module GiftBox.

Local Open Scope string_scope.

Inductive Variant := open | shake.

Definition Variant_eq_dec (a b : Variant) : {a = b} + {a <> b}.
Proof. decide equality. Defined.

(** The props the logic reads.  [onOpen] is the identity of the callback
    passed by the parent ([None] when it is not passed): the parent builds a
    new closure on each of its renders. *)
Record Props := mkProps {
  isDropped : bool;
  isMain : bool;
  onOpen : option nat;
  soundUrl : string;
  variant : Variant
}.

Inductive Action :=
| PlayAudio (url : string)
| CallOnOpen (callback : nat)
| SetTimeout (ms : nat).

Definition OpenDeps : Type := bool * option nat * Variant.

Definition OpenDeps_eq_dec (a b : OpenDeps) : {a = b} + {a <> b}.
Proof. repeat decide equality. Defined.

(** The [useState] cells, the two refs, the shake timers not yet fired, the
    dependency arrays of the last run of the two effects, and the trace of
    side effects, newest first. *)
Record State := mkState {
  isOpen : bool;
  isShaking : bool;
  hovered : bool;
  audioRef : option string;
  hasPlayedRef : bool;
  shakeTimers : nat;
  audioDeps : option string;
  openDeps : option OpenDeps;
  log : list Action
}.

Definition setIsOpen (b : bool) (s : State) : State :=
  mkState b (isShaking s) (hovered s) (audioRef s) (hasPlayedRef s)
    (shakeTimers s) (audioDeps s) (openDeps s) (log s).

Definition setIsShaking (b : bool) (s : State) : State :=
  mkState (isOpen s) b (hovered s) (audioRef s) (hasPlayedRef s)
    (shakeTimers s) (audioDeps s) (openDeps s) (log s).

Definition setHover (b : bool) (s : State) : State :=
  mkState (isOpen s) (isShaking s) b (audioRef s) (hasPlayedRef s)
    (shakeTimers s) (audioDeps s) (openDeps s) (log s).

Definition setAudioRef (a : option string) (s : State) : State :=
  mkState (isOpen s) (isShaking s) (hovered s) a (hasPlayedRef s)
    (shakeTimers s) (audioDeps s) (openDeps s) (log s).

Definition setHasPlayedRef (b : bool) (s : State) : State :=
  mkState (isOpen s) (isShaking s) (hovered s) (audioRef s) b
    (shakeTimers s) (audioDeps s) (openDeps s) (log s).

Definition setShakeTimers (n : nat) (s : State) : State :=
  mkState (isOpen s) (isShaking s) (hovered s) (audioRef s) (hasPlayedRef s)
    n (audioDeps s) (openDeps s) (log s).

Definition setAudioDeps (d : option string) (s : State) : State :=
  mkState (isOpen s) (isShaking s) (hovered s) (audioRef s) (hasPlayedRef s)
    (shakeTimers s) d (openDeps s) (log s).

Definition setOpenDeps (d : option OpenDeps) (s : State) : State :=
  mkState (isOpen s) (isShaking s) (hovered s) (audioRef s) (hasPlayedRef s)
    (shakeTimers s) (audioDeps s) d (log s).

Definition emit (a : Action) (s : State) : State :=
  mkState (isOpen s) (isShaking s) (hovered s) (audioRef s) (hasPlayedRef s)
    (shakeTimers s) (audioDeps s) (openDeps s) (a :: log s).

(** [audioRef.current.play()] *)
Definition play (s : State) : State :=
  match audioRef s with
  | Some url => emit (PlayAudio url) s
  | None => s
  end.

(** Lines 55-62. *)
Definition triggerShake (s : State) : State :=
  let s := setIsShaking true s in
  let s := match audioRef s with Some _ => play s | None => s end in
  setShakeTimers (S (shakeTimers s)) (emit (SetTimeout 500) s).

(** Lines 45-53. *)
Definition handleClick (p : Props) (s : State) : State :=
  if negb (isDropped p) then s
  else
    match variant p with
    | open => setIsOpen true s
    | shake => triggerShake s
    end.

(** Lines 40-43. *)
Definition audioEffect (p : Props) (s : State) : State :=
  setAudioRef (Some (soundUrl p)) s.

(** Lines 68-75. *)
Definition openEffect (p : Props) (s : State) : State :=
  match variant p, isOpen s, audioRef s, hasPlayedRef s with
  | open, true, Some _, false =>
      let s := setHasPlayedRef true s in
      let s := play s in
      match onOpen p with
      | Some cb => emit (CallOnOpen cb) s
      | None => s
      end
  | _, _, _, _ => s
  end.

(** A render with props [p] followed by its effect phase: each effect runs
    when an entry of its dependency array differs from the last run. *)
Definition commit (p : Props) (s : State) : State :=
  let s :=
    match audioDeps s with
    | Some u => if String.eqb u (soundUrl p) then s
                else setAudioDeps (Some (soundUrl p)) (audioEffect p s)
    | None => setAudioDeps (Some (soundUrl p)) (audioEffect p s)
    end in
  let d : OpenDeps := (isOpen s, onOpen p, variant p) in
  match openDeps s with
  | Some d' => if OpenDeps_eq_dec d' d then s
               else setOpenDeps (Some d) (openEffect p s)
  | None => setOpenDeps (Some d) (openEffect p s)
  end.

Definition mount (p : Props) : State :=
  commit p (mkState false false false None false O None None []).

(** Line 131: nothing is rendered, so nothing can be clicked or hovered,
    until the box has dropped. *)
Definition rendersNull (p : Props) : bool := negb (isDropped p).

(** The parent rendering the box with (possibly new) props, a click that
    reaches [handleClick], the pointer entering and leaving, and the
    500 ms timer of [triggerShake] firing. *)
Inductive Event :=
| Render (p : Props)
| Click
| PointerOver
| PointerOut
| ShakeTimeout.

(** The component together with the props of its last render. *)
Definition Mounted : Type := Props * State.

Definition step (m : Mounted) (e : Event) : Mounted :=
  let (p, s) := m in
  match e with
  | Render p' => (p', commit p' s)
  | Click => (p, commit p (handleClick p s))
  | PointerOver =>
      if rendersNull p then m
      else (p, commit p (if negb (isOpen s) then setHover true s else s))
  | PointerOut =>
      if rendersNull p then m else (p, commit p (setHover false s))
  | ShakeTimeout =>
      match shakeTimers s with
      | O => m
      | S n => (p, commit p (setIsShaking false (setShakeTimers n s)))
      end
  end.

Definition run (m : Mounted) (evs : list Event) : Mounted :=
  fold_left step evs m.

Definition isPlay (a : Action) : bool :=
  match a with PlayAudio _ => true | _ => false end.

Definition isCallOnOpen (a : Action) : bool :=
  match a with CallOnOpen _ => true | _ => false end.

Definition plays (s : State) : nat := List.length (filter isPlay (log s)).
Definition onOpenCalls (s : State) : nat :=
  List.length (filter isCallOnOpen (log s)).

(** Every render of the box keeps [variant] at ['open']. *)
Definition staysOpenVariant (evs : list Event) : bool :=
  forallb (fun e => match e with
                    | Render p => if Variant_eq_dec (variant p) open
                                  then true else false
                    | _ => true
                    end) evs.

(** The main box as [App] renders it (MagicalSurprise.tsx lines 365-372):
    [onOpen] is the inline closure of the [n]-th render of [App], which
    calls [setExtraGifts(true)] and [incrementVictim()]. *)
Definition mainBox (boxDropped : bool) (n : nat) : Props :=
  mkProps boxDropped true (Some n) "/message.mp3" open.

(** Calls of [incrementVictim] caused by the main box: one per call of its
    [onOpen]. *)
Definition victimIncrements (s : State) : nat := onOpenCalls s.

(** What a step can do to the trace and to [hasPlayedRef]: nothing, or the
    one opening (the ref goes from unset to set, the sound is played once,
    [onOpen] is called at most once). *)
Definition quiet (s s' : State) : Prop :=
  log s' = log s /\ hasPlayedRef s' = hasPlayedRef s.

Definition opening (s s' : State) : Prop :=
  hasPlayedRef s = false /\ hasPlayedRef s' = true /\
  (plays s' = S (plays s) /\ onOpenCalls s' <= S (onOpenCalls s) /\
   onOpenCalls s <= onOpenCalls s')%nat.

(** The invariant behind the guard: as long as [hasPlayedRef] is unset
    nothing has been played or called, and once it is set the counts are at
    most one. *)
Definition guarded (s : State) : Prop :=
  ((hasPlayedRef s = false -> plays s = 0 /\ onOpenCalls s = 0) /\
   plays s <= 1 /\ onOpenCalls s <= 1)%nat.

Definition callGuarded (s : State) : Prop :=
  ((hasPlayedRef s = false -> onOpenCalls s = 0) /\ onOpenCalls s <= 1)%nat.

End GiftBox.

(* ------------------------------------------------------------------ *)
(** ** The counter client in use: sequences of calls, and
       src/components/Overlay.tsx *)

Module StatsUse.

Import ScamStats.
Local Open Scope string_scope.

(** The line a call writes with [console.error] when it fails. *)
Definition errorMessage (c : Call) : string :=
  match c with
  | IncrementVisit => "Failed to track visit"
  | IncrementVictim => "Failed to track victim"
  | FetchStats => "Failed to fetch stats"
  end.

(** Calls completing one after the other, each against the network as it
    was for that call.  A call writes its counters in one synchronous
    stretch after its last [await], so completion order is all that
    matters. *)
Definition runCalls (l : list (Call * Net)) (s : Stats) : Stats :=
  fold_left (fun s' cn => snd (call (fst cn) (snd cn) s')) l s.

(** No request of the call brings a count that passes the guard. *)
Definition bringsNothing (cn : Call * Net) : bool :=
  forallb (fun url => match usableCount (snd cn) url with
                      | Some _ => false
                      | None => true
                      end)
          (requests (fst cn)).

(** What the overlay puts in a counter's place. *)
Inductive Shown :=
| Placeholder
| Localized (v : Value).

Section Display.

(** ToNumber on strings, arrays and objects, which the sources do not
    contain: it belongs to the language. *)
Variable coerce : Value -> Num.number.

Definition toNumber (v : Value) : Num.number :=
  match v with
  | VUndefined => S754_nan
  | VNull => Num.ofZ 0
  | VBool b => if b then Num.ofZ 1 else Num.ofZ 0
  | VNumber n => n
  | _ => coerce v
  end.

(** Overlay.tsx lines 15 and 22:
    [visits > 0 ? visits.toLocaleString() : '...']. *)
Definition display (v : Value) : Shown :=
  if Num.ltb (Num.ofZ 0) (toNumber v) then Localized v else Placeholder.

End Display.

End StatsUse.

(* ------------------------------------------------------------------ *)
(** ** The gift box in use *)

Module GiftBoxUse.

Import GiftBox.

(** What [n] clicks on a shaking box leave in the trace, newest first:
    per click the timer set after the sound played. *)
Definition shakeTrace (url : string) (n : nat) : list Action :=
  List.concat (repeat [SetTimeout 500; PlayAudio url] n).

(** The state of an open-variant box between events: the audio element
    exists, the opening effect has seen the current [isOpen], and an open
    box has had its opening. *)
Definition settledOpen (m : Mounted) : Prop :=
  variant (fst m) = open /\
  (exists u, audioRef (snd m) = Some u) /\
  openDeps (snd m) = Some (isOpen (snd m), onOpen (fst m), variant (fst m)) /\
  (isOpen (snd m) = true -> hasPlayedRef (snd m) = true) /\
  plays (snd m) = (if hasPlayedRef (snd m) then 1 else 0)%nat.

(** The state of a shaking box between events. *)
Definition settledShake (m : Mounted) : Prop :=
  audioRef (snd m) = Some (soundUrl (fst m)) /\
  audioDeps (snd m) = Some (soundUrl (fst m)) /\
  openDeps (snd m) = Some (false, onOpen (fst m), variant (fst m)) /\
  isOpen (snd m) = false.

End GiftBoxUse.

(* ------------------------------------------------------------------ *)
(** ** More of src/components/EndingScene.tsx: the progress bar, the
       unmount cleanups, and the schedule of the run *)

Module EndingSceneUse.

Import EndingScene.

Definition mul : Num.number -> Num.number -> Num.number :=
  SFmul Num.prec Num.emax.

(** [Math.min] on two numbers: NaN if either is, and [-0] below [+0]. *)
Definition jsMin (x y : Num.number) : Num.number :=
  if Num.isNaN x || Num.isNaN y then S754_nan
  else if Num.ltb x y then x
  else if Num.ltb y x then y
  else match x, y with
       | S754_zero sx, S754_zero sy => S754_zero (sx || sy)
       | _, _ => x
       end.

(** Line 595: the width of the progress bar in percent,
    [(Math.min(currentTime, 92) / 92) * 100]. *)
Definition progressWidth (currentTime : Num.number) : Num.number :=
  mul (Num.div (jsMin currentTime (Num.ofZ 92)) (Num.ofZ 92)) (Num.ofZ 100).

(** Unmounting the component: the cleanup of the timeline effect (line
    96) runs, and the cleanup of lines 113-118 pauses the background music
    and the text reveal sound if their elements exist.  The result is the
    state left behind and the elements paused. *)
Definition unmount (s : State) : State * list Audio :=
  (runCleanup s,
   (if endingBgRef s then [endingBg] else []) ++
   (if errorGlitchRef s then [errorGlitch] else [])).

(** The offsets of the cues in tenths of a second. *)
Definition glitchTenths : list Z := [5; 40].

Definition textRevealTenths : list Z :=
  [ 1; 50; 100; 105; 150; 155; 200; 215; 260; 275;
    322; 335; 348; 360; 382; 395; 408; 420; 440; 450; 500; 510;
    560; 575; 585; 610; 625; 635; 660; 675; 710; 725;
    765; 785; 835; 855 ].

(** [P i] holds of [s], [P (i+1)] of the next state, and so on for [n]
    ticks. *)
Fixpoint allAlongFrom (P : nat -> State -> bool) (i n : nat) (s : State)
  : bool :=
  P i s && match n with
           | O => true
           | S k => allAlongFrom P (S i) k (step s Tick)
           end.

(** Every cue with its offset as a number. *)
Definition cueTable : list (Z * Num.number) :=
  map (fun k => (k, Num.dec k 1)) (glitchTenths ++ textRevealTenths).

(** Tick [n] of the run is on schedule: a cue is within tolerance exactly
    when [n] is its offset in tenths. *)
Definition cuesOnSchedule (n : nat) (s : State) : bool :=
  forallb (fun kt => Bool.eqb (near (currentTime s) (snd kt))
                              (Z.eqb (Z.of_nat n) (fst kt)))
          cueTable.

(** The scene shown on tick [n] is one whose window, in tenths, contains
    [n] or ends at [n]; from tick 901 on none is shown. *)
Definition sceneOnSchedule (n : nat) (s : State) : bool :=
  match visibleScenes s with
  | [w] => Z.leb (10 * fst w) (Z.of_nat n) && Z.leb (Z.of_nat n) (10 * snd w)
  | [] => Z.ltb 900 (Z.of_nat n)
  | _ => false
  end.

(** The bar is between 0 and 100, short of 100, and wider after the next
    step of the clock. *)
Definition progressOnSchedule (s : State) : bool :=
  let w := progressWidth (currentTime s) in
  Num.leb (Num.ofZ 0) w && Num.ltb w (Num.ofZ 100) &&
  Num.ltb w (progressWidth (Num.add (currentTime s) tickStep)).

Definition audioReady (s : State) : bool :=
  glitchAudioRef s && errorGlitchRef s && endingBgRef s.

Definition onSchedule (n : nat) (s : State) : bool :=
  cuesOnSchedule n s && sceneOnSchedule n s && progressOnSchedule s &&
  audioReady s.

End EndingSceneUse.

(* ------------------------------------------------------------------ *)
(** ** src/components/EndingScene.tsx, after the sequence: the final
       card, its two buttons and the send-off screens *)

Module SendOff.

Import EndingScene.

(** What a pending [setTimeout] of the send-off effect does when it fires
    (lines 104 and 106). *)
Inductive TimerAction :=
| ToSendoff2
| CallRestart (onRestart : nat).

Definition TimerAction_eq_dec (a b : TimerAction) : {a = b} + {a <> b}.
Proof. repeat decide equality. Defined.

(** The whole component: the state of the timeline, the identity of the
    [onRestart] prop of the last render, the live timeouts, what React keeps
    for the send-off effect, the [html2canvas] promises still pending, and
    the calls of [onRestart] made so far. *)
Record State := mkState {
  timeline : EndingScene.State;
  onRestartProp : nat;
  timeouts : list (nat * TimerAction);
  nextTimeout : nat;
  sendCleanup : option nat;
  sendDeps : option (Status * nat);
  downloads : nat;
  restartCalls : list nat
}.

Definition withTimeline (t : EndingScene.State) (s : State) : State :=
  mkState t (onRestartProp s) (timeouts s) (nextTimeout s) (sendCleanup s)
    (sendDeps s) (downloads s) (restartCalls s).

Definition clearTimeout (id : option nat) (s : State) : State :=
  mkState (timeline s) (onRestartProp s)
    (match id with
     | Some i => filter (fun t => negb (Nat.eqb (fst t) i)) (timeouts s)
     | None => timeouts s
     end)
    (nextTimeout s) (sendCleanup s) (sendDeps s) (downloads s)
    (restartCalls s).

Definition setTimeout (a : TimerAction) (s : State) : State :=
  mkState (timeline s) (onRestartProp s)
    ((nextTimeout s, a) :: timeouts s) (S (nextTimeout s))
    (Some (nextTimeout s)) (sendDeps s) (downloads s) (restartCalls s).

Definition noTimeout (s : State) : State :=
  mkState (timeline s) (onRestartProp s) (timeouts s) (nextTimeout s)
    None (sendDeps s) (downloads s) (restartCalls s).

Definition setSendDeps (d : option (Status * nat)) (s : State) : State :=
  mkState (timeline s) (onRestartProp s) (timeouts s) (nextTimeout s)
    (sendCleanup s) d (downloads s) (restartCalls s).

(** Lines 100-110, for a render with status [st].  The cleanup clears the
    timeout the run has set; when it has set none it clears [undefined]. *)
Definition sendOffEffect (st : Status) (s : State) : State :=
  match st with
  | sendoff => setTimeout ToSendoff2 s
  | sendoff2 => setTimeout (CallRestart (onRestartProp s)) s
  | _ => noTimeout s
  end.

Definition sendDepsChanged (st : Status) (s : State) : bool :=
  match sendDeps s with
  | None => true
  | Some (st', k) =>
      negb (if Status_eq_dec st' st then Nat.eqb k (onRestartProp s)
            else false)
  end.

(** The send-off effect in the effect phase of a render with status [st]:
    it runs, after the cleanup of its last run, when [status] or [onRestart]
    has changed. *)
Definition sendOffPass (st : Status) (s : State) : State :=
  if sendDepsChanged st s
  then setSendDeps (Some (st, onRestartProp s))
         (sendOffEffect st (clearTimeout (sendCleanup s) s))
  else s.

(** One render and its effect phase: the timeline effect, then the
    send-off effect.  Both see the status of the render. *)
Definition renderOnce (s : State) : State :=
  sendOffPass (status (timeline s))
    (withTimeline (EndingScene.renderOnce (timeline s)) s).

Definition commit (s : State) : State := renderOnce (renderOnce s).

Definition mount (onRestart : nat) : State :=
  commit (mkState (EndingScene.mkState idle (Num.ofZ 0) false false false
                     [] O None None [])
            onRestart [] O None None O []).

(** [setStatus(st)] from a handler or a timer. *)
Definition setStatusTo (st : Status) (s : State) : State :=
  withTimeline (setStatus st (timeline s)) s.

Inductive Event :=
| ClickStart
| Tick
| ParentRerender
| ClickRestartButton
| ClickDownload
| DownloadSettled (ok : bool)
| TimeoutFire.

Definition dropTimeout (s : State) : State :=
  mkState (timeline s) (onRestartProp s) (tl (timeouts s)) (nextTimeout s)
    (sendCleanup s) (sendDeps s) (downloads s) (restartCalls s).

Definition fire (a : TimerAction) (s : State) : State :=
  match a with
  | ToSendoff2 => commit (setStatusTo sendoff2 s)
  | CallRestart k =>
      mkState (timeline s) (onRestartProp s) (timeouts s) (nextTimeout s)
        (sendCleanup s) (sendDeps s) (downloads s) (k :: restartCalls s)
  end.

(** The parent passes [onRestart={() => window.location.reload()}]: once it
    has been called the page is on its way out and nothing more happens.
    Until then: the start button and the ticks are those of the timeline;
    the two buttons of the card exist only while the status is
    ['finished'] (lines 600-645); the download handler waits for
    [html2canvas] and only then sets the status (lines 120-134); a parent
    render brings a new [onRestart] closure. *)
Definition step (s : State) (e : Event) : State :=
  match restartCalls s with
  | _ :: _ => s
  | [] =>
      match e with
      | ClickStart =>
          match status (timeline s) with
          | idle => commit (withTimeline (startEnding (timeline s)) s)
          | _ => s
          end
      | Tick =>
          match intervals (timeline s) with
          | [] => s
          | ids =>
              commit (withTimeline
                        (fold_left (fun t _ => intervalCallback t) ids
                           (timeline s)) s)
          end
      | ParentRerender =>
          commit (mkState (timeline s) (S (onRestartProp s)) (timeouts s)
                    (nextTimeout s) (sendCleanup s) (sendDeps s)
                    (downloads s) (restartCalls s))
      | ClickRestartButton =>
          match status (timeline s) with
          | finished => commit (setStatusTo sendoff s)
          | _ => s
          end
      | ClickDownload =>
          match status (timeline s) with
          | finished =>
              mkState (timeline s) (onRestartProp s) (timeouts s)
                (nextTimeout s) (sendCleanup s) (sendDeps s)
                (S (downloads s)) (restartCalls s)
          | _ => s
          end
      | DownloadSettled ok =>
          match downloads s with
          | O => s
          | S n =>
              let s' := mkState (timeline s) (onRestartProp s) (timeouts s)
                          (nextTimeout s) (sendCleanup s) (sendDeps s) n
                          (restartCalls s) in
              if ok then commit (setStatusTo sendoff s') else s'
          end
      | TimeoutFire =>
          match timeouts s with
          | [] => s
          | (_, a) :: _ => fire a (dropTimeout s)
          end
      end
  end.

Definition run (s : State) (evs : list Event) : State := fold_left step evs s.

(** The events that bring a freshly mounted component to the final card. *)
Definition toTheCard : list Event := ClickStart :: repeat Tick ticksToFinish.

(** The timeout a status calls for. *)
Definition timerFor (st : Status) (onRestart : nat) : option TimerAction :=
  match st with
  | sendoff => Some ToSendoff2
  | sendoff2 => Some (CallRestart onRestart)
  | _ => None
  end.

(** What the effect left behind the last time it ran: the one timeout of
    its status, which its cleanup will clear, or none. *)
Definition pending (s : State) : Prop :=
  match sendDeps s with
  | None => timeouts s = []
  | Some (st, k) =>
      match timerFor st k with
      | Some a => exists i, timeouts s = [(i, a)] /\ sendCleanup s = Some i /\
                            (i < nextTimeout s)%nat
      | None => timeouts s = []
      end
  end.

(** What a run of the send-off effect for a render with status [st]
    leaves: it has seen [st] and the current [onRestart], and the timeout of
    [st] is the only one pending. *)
Definition sendOK (st : Status) (s : State) : Prop :=
  sendDeps s = Some (st, onRestartProp s) /\
  match timerFor st (onRestartProp s) with
  | Some a => exists i, timeouts s = [(i, a)] /\ sendCleanup s = Some i /\
                        (i < nextTimeout s)%nat
  | None => timeouts s = []
  end.

(** What holds between events: both effects have seen the current render;
    until [onRestart] is called the pending timeouts are exactly the one the
    status calls for, no interval of the timeline is live beside it, and a
    download is only ever pending once the card has been shown; after the
    call the status is ['sendoff2'] and nothing is pending. *)
Definition wellFormed (s : State) : Prop :=
  let st := status (timeline s) in
  sendDeps s = Some (st, onRestartProp s) /\
  depsChanged (timeline s) = false /\
  match restartCalls s with
  | [] =>
      match timerFor st (onRestartProp s) with
      | Some a =>
          intervals (timeline s) = [] /\
          exists i, timeouts s = [(i, a)] /\ sendCleanup s = Some i /\
                    (i < nextTimeout s)%nat
      | None =>
          timeouts s = [] /\ Reach (timeline s) /\
          (downloads s <> O -> st = finished)
      end
  | k :: rest =>
      rest = [] /\ k = onRestartProp s /\ st = sendoff2 /\ timeouts s = []
  end.

End SendOff.

(* ------------------------------------------------------------------ *)
(** ** src/components/SplashScreen.tsx (lines 27-402 of
       src/components/StatItem.tsx here): the scenes of the splash screen *)

Module SplashScreen.

Local Open Scope string_scope.
Local Open Scope nat_scope.

(** What a pending [setTimeout] of the main effect does (lines 46-73). *)
Inductive TimerAction :=
| SpinDone
| ToScene (n : nat)
| Complete (onComplete : nat).

Inductive Action :=
| PlayAudio (url : string)
| CallOnComplete (onComplete : nat).

(** A pending timeout: its id, its delay in ms and what it does. *)
Definition Timer : Type := nat * (Z * TimerAction).

(** The [useState] cells, the identity of the [onComplete] prop of the last
    render, whether the parent has unmounted the component, the pending
    timeouts in the order of their creation, the live intervals, the [win]
    sounds still playing, what React keeps for the three effects (cleanup
    and dependency array), and the trace of side effects, newest first. *)
Record State := mkState {
  scene : nat;
  countdown : nat;
  spinFinished : bool;
  started : bool;
  onCompleteProp : nat;
  unmounted : bool;
  timers : list Timer;
  intervals : list nat;
  nextId : nat;
  winPlaying : nat;
  mainCleanup : list nat;
  mainDeps : option (nat * bool);
  sceneCleanup : option nat;
  sceneDeps : option nat;
  winDeps : option bool;
  log : list Action
}.

Definition setScene (n : nat) (s : State) : State :=
  mkState n (countdown s) (spinFinished s) (started s) (onCompleteProp s)
    (unmounted s) (timers s) (intervals s) (nextId s) (winPlaying s)
    (mainCleanup s) (mainDeps s) (sceneCleanup s) (sceneDeps s) (winDeps s)
    (log s).

Definition setCountdown (f : nat -> nat) (s : State) : State :=
  mkState (scene s) (f (countdown s)) (spinFinished s) (started s)
    (onCompleteProp s) (unmounted s) (timers s) (intervals s) (nextId s)
    (winPlaying s) (mainCleanup s) (mainDeps s) (sceneCleanup s) (sceneDeps s)
    (winDeps s) (log s).

Definition setSpinFinished (b : bool) (s : State) : State :=
  mkState (scene s) (countdown s) b (started s) (onCompleteProp s)
    (unmounted s) (timers s) (intervals s) (nextId s) (winPlaying s)
    (mainCleanup s) (mainDeps s) (sceneCleanup s) (sceneDeps s) (winDeps s)
    (log s).

Definition setStarted (b : bool) (s : State) : State :=
  mkState (scene s) (countdown s) (spinFinished s) b (onCompleteProp s)
    (unmounted s) (timers s) (intervals s) (nextId s) (winPlaying s)
    (mainCleanup s) (mainDeps s) (sceneCleanup s) (sceneDeps s) (winDeps s)
    (log s).

Definition setOnComplete (k : nat) (s : State) : State :=
  mkState (scene s) (countdown s) (spinFinished s) (started s) k
    (unmounted s) (timers s) (intervals s) (nextId s) (winPlaying s)
    (mainCleanup s) (mainDeps s) (sceneCleanup s) (sceneDeps s) (winDeps s)
    (log s).

Definition setUnmounted (s : State) : State :=
  mkState (scene s) (countdown s) (spinFinished s) (started s)
    (onCompleteProp s) true (timers s) (intervals s) (nextId s)
    (winPlaying s) (mainCleanup s) (mainDeps s) (sceneCleanup s) (sceneDeps s)
    (winDeps s) (log s).

Definition setTimers (l : list Timer) (s : State) : State :=
  mkState (scene s) (countdown s) (spinFinished s) (started s)
    (onCompleteProp s) (unmounted s) l (intervals s) (nextId s)
    (winPlaying s) (mainCleanup s) (mainDeps s) (sceneCleanup s) (sceneDeps s)
    (winDeps s) (log s).

Definition setIntervals (l : list nat) (s : State) : State :=
  mkState (scene s) (countdown s) (spinFinished s) (started s)
    (onCompleteProp s) (unmounted s) (timers s) l (nextId s)
    (winPlaying s) (mainCleanup s) (mainDeps s) (sceneCleanup s) (sceneDeps s)
    (winDeps s) (log s).

Definition setWinPlaying (n : nat) (s : State) : State :=
  mkState (scene s) (countdown s) (spinFinished s) (started s)
    (onCompleteProp s) (unmounted s) (timers s) (intervals s) (nextId s)
    n (mainCleanup s) (mainDeps s) (sceneCleanup s) (sceneDeps s)
    (winDeps s) (log s).

Definition setMainCleanup (c : list nat) (s : State) : State :=
  mkState (scene s) (countdown s) (spinFinished s) (started s)
    (onCompleteProp s) (unmounted s) (timers s) (intervals s) (nextId s)
    (winPlaying s) c (mainDeps s) (sceneCleanup s) (sceneDeps s)
    (winDeps s) (log s).

Definition setMainDeps (d : option (nat * bool)) (s : State) : State :=
  mkState (scene s) (countdown s) (spinFinished s) (started s)
    (onCompleteProp s) (unmounted s) (timers s) (intervals s) (nextId s)
    (winPlaying s) (mainCleanup s) d (sceneCleanup s) (sceneDeps s)
    (winDeps s) (log s).

Definition setSceneCleanup (c : option nat) (s : State) : State :=
  mkState (scene s) (countdown s) (spinFinished s) (started s)
    (onCompleteProp s) (unmounted s) (timers s) (intervals s) (nextId s)
    (winPlaying s) (mainCleanup s) (mainDeps s) c (sceneDeps s)
    (winDeps s) (log s).

Definition setSceneDeps (d : option nat) (s : State) : State :=
  mkState (scene s) (countdown s) (spinFinished s) (started s)
    (onCompleteProp s) (unmounted s) (timers s) (intervals s) (nextId s)
    (winPlaying s) (mainCleanup s) (mainDeps s) (sceneCleanup s) d
    (winDeps s) (log s).

Definition setWinDeps (d : option bool) (s : State) : State :=
  mkState (scene s) (countdown s) (spinFinished s) (started s)
    (onCompleteProp s) (unmounted s) (timers s) (intervals s) (nextId s)
    (winPlaying s) (mainCleanup s) (mainDeps s) (sceneCleanup s) (sceneDeps s)
    d (log s).

Definition emit (a : Action) (s : State) : State :=
  mkState (scene s) (countdown s) (spinFinished s) (started s)
    (onCompleteProp s) (unmounted s) (timers s) (intervals s) (nextId s)
    (winPlaying s) (mainCleanup s) (mainDeps s) (sceneCleanup s) (sceneDeps s)
    (winDeps s) (a :: log s).

(** [new Audio(url)] followed by [play()]. *)
Definition playAudio (url : string) (s : State) : State := emit (PlayAudio url) s.

(** [setTimeout(cb, ms)]: a fresh timer, pending after those set before. *)
Definition setTimeout (ms : Z) (a : TimerAction) (s : State) : nat * State :=
  (nextId s,
   mkState (scene s) (countdown s) (spinFinished s) (started s)
     (onCompleteProp s) (unmounted s) (timers s ++ [(nextId s, (ms, a))])
     (intervals s) (S (nextId s)) (winPlaying s) (mainCleanup s) (mainDeps s)
     (sceneCleanup s) (sceneDeps s) (winDeps s) (log s)).

Definition setInterval (s : State) : nat * State :=
  (nextId s,
   mkState (scene s) (countdown s) (spinFinished s) (started s)
     (onCompleteProp s) (unmounted s) (timers s) (nextId s :: intervals s)
     (S (nextId s)) (winPlaying s) (mainCleanup s) (mainDeps s)
     (sceneCleanup s) (sceneDeps s) (winDeps s) (log s)).

Definition clearTimeouts (ids : list nat) (s : State) : State :=
  setTimers
    (filter (fun t : Timer => negb (existsb (Nat.eqb (fst t)) ids)) (timers s))
    s.

Definition clearInterval (id : nat) (s : State) : State :=
  setIntervals (filter (fun j => negb (Nat.eqb j id)) (intervals s)) s.

(** The main effect, lines 37-83.  Before the start it returns without a
    cleanup. *)
Definition mainEffect (s : State) : State :=
  if negb (started s) then setMainCleanup [] s
  else
    let (timer1, s) := setTimeout 5000%Z SpinDone s in
    let (timerGlitch, s) := setTimeout 8000%Z (ToScene 2) s in
    let (timer2, s) := setTimeout 11000%Z (ToScene 3) s in
    let (timer3, s) := setTimeout 15000%Z (ToScene 4) s in
    let (timer4, s) := setTimeout 20000%Z (ToScene 5) s in
    let (timer5, s) := setTimeout 20000%Z (Complete (onCompleteProp s)) s in
    setMainCleanup [timer1; timerGlitch; timer2; timer3; timer4; timer5] s.

(** The scene effect, lines 86-110. *)
Definition sceneEffect (s : State) : State :=
  match scene s with
  | 2 => setSceneCleanup None (playAudio "/glitch.mp3" s)
  | 3 => setSceneCleanup None (playAudio "/cat.mp3" s)
  | 4 =>
      let s := playAudio "/countdown.mp3" s in
      let (interval, s) := setInterval s in
      setSceneCleanup (Some interval) s
  | _ => setSceneCleanup None s
  end.

(** The win sound effect, lines 113-125; [onended] of the sound is the
    event [WinEnded] below. *)
Definition winEffect (s : State) : State :=
  if spinFinished s
  then setWinPlaying (S (winPlaying s)) (playAudio "/win.mp3" s)
  else s.

Definition mainDepsChanged (s : State) : bool :=
  match mainDeps s with
  | None => true
  | Some (k, b) =>
      negb (Nat.eqb k (onCompleteProp s) && Bool.eqb b (started s))
  end.

Definition sceneDepsChanged (s : State) : bool :=
  match sceneDeps s with
  | None => true
  | Some n => negb (Nat.eqb n (scene s))
  end.

Definition winDepsChanged (s : State) : bool :=
  match winDeps s with
  | None => true
  | Some b => negb (Bool.eqb b (spinFinished s))
  end.

Definition runSceneCleanup (s : State) : State :=
  match sceneCleanup s with
  | Some id => clearInterval id s
  | None => s
  end.

(** The effect phase of a render, effect by effect: each one runs, after
    the cleanup of its last run, when its dependency array has changed. *)
Definition mainPass (s : State) : State :=
  if mainDepsChanged s
  then setMainDeps (Some (onCompleteProp s, started s))
         (mainEffect (clearTimeouts (mainCleanup s) s))
  else s.

Definition scenePass (s : State) : State :=
  if sceneDepsChanged s
  then setSceneDeps (Some (scene s)) (sceneEffect (runSceneCleanup s))
  else s.

Definition winPass (s : State) : State :=
  if winDepsChanged s
  then setWinDeps (Some (spinFinished s)) (winEffect s)
  else s.

(** A render followed by its effect phase.  No effect sets state, so one
    pass settles. *)
Definition commit (s : State) : State := winPass (scenePass (mainPass s)).

Definition mount (onComplete : nat) : State :=
  commit (mkState 1 5 false false onComplete false [] [] O O
            [] None None None None []).

(** Unmounting runs the cleanups of the effects. *)
Definition unmount (s : State) : State :=
  setUnmounted (runSceneCleanup (clearTimeouts (mainCleanup s) s)).

(** The timeout that is due first: the least delay, and among equal delays
    the one set first.  All pending timeouts have been set by one run of the
    main effect (its cleanup clears the ones before), so their delays count
    from the same moment.  The result is the timer and the ones left. *)
Fixpoint earliest (l : list Timer) : option (Timer * list Timer) :=
  match l with
  | [] => None
  | t :: l' =>
      match earliest l' with
      | Some (u, rest) =>
          if Z.ltb (fst (snd u)) (fst (snd t)) then Some (u, t :: rest)
          else Some (t, l')
      | None => Some (t, l')
      end
  end.

(** The callback of a timeout.  [onComplete] is the parent's
    [() => setShowSplash(false)] (App, line 313): the parent renders without
    the splash screen, which unmounts it. *)
Definition fire (a : TimerAction) (s : State) : State :=
  match a with
  | SpinDone => commit (setSpinFinished true s)
  | ToScene n => commit (setScene n s)
  | Complete k => unmount (emit (CallOnComplete k) s)
  end.

Inductive Event :=
| ClickStart
| TimeoutFire
| IntervalTick
| ParentRerender
| WinEnded.

(** The start overlay exists only until the start (lines 136-141); each
    live interval counts down on its tick (lines 102-107); a parent render
    brings a new [onComplete] closure; a win sound that ends plays the
    error sound, mounted or not (lines 119-123). *)
Definition step (s : State) (e : Event) : State :=
  match e with
  | WinEnded =>
      match winPlaying s with
      | O => s
      | S n => playAudio "/error.mp3" (setWinPlaying n s)
      end
  | _ =>
      if unmounted s then s
      else
        match e with
        | ClickStart =>
            if started s then s
            else commit (setStarted true (playAudio "/spin.mp3" s))
        | TimeoutFire =>
            match earliest (timers s) with
            | Some (t, rest) => fire (snd (snd t)) (setTimers rest s)
            | None => s
            end
        | IntervalTick =>
            match intervals s with
            | [] => s
            | ids =>
                commit
                  (fold_left
                     (fun s' _ =>
                        setCountdown
                          (fun prev => if Nat.leb prev 1 then O else prev - 1)
                          s')
                     ids s)
            end
        | ParentRerender => commit (setOnComplete (S (onCompleteProp s)) s)
        | WinEnded => s
        end
  end.

Definition run (s : State) (evs : list Event) : State := fold_left step evs s.

(** The schedule one run of the main effect sets for [onComplete]. *)
Definition schedule (onComplete : nat) : list (Z * TimerAction) :=
  [(5000%Z, SpinDone); (8000%Z, ToScene 2); (11000%Z, ToScene 3);
   (15000%Z, ToScene 4); (20000%Z, ToScene 5); (20000%Z, Complete onComplete)].

Definition isComplete (a : Action) : bool :=
  match a with CallOnComplete _ => true | _ => false end.

(** The calls of [onComplete] made so far. *)
Definition completions (s : State) : list Action := filter isComplete (log s).

(** The sounds of the scenes in the order they were started, the error
    sound apart. *)
Definition sounds (s : State) : list string :=
  rev (flat_map (fun a => match a with
                          | PlayAudio url =>
                              if String.eqb url "/error.mp3" then [] else [url]
                          | _ => []
                          end) (log s)).

(** The sound the scene effect starts in a scene. *)
Definition sceneSound (n : nat) : list string :=
  match n with
  | 2 => ["/glitch.mp3"]
  | 3 => ["/cat.mp3"]
  | 4 => ["/countdown.mp3"]
  | _ => []
  end.

Definition soundtrack : list string :=
  ["/spin.mp3"; "/win.mp3"; "/glitch.mp3"; "/cat.mp3"; "/countdown.mp3"].

(** The timeouts of the schedule that have fired since the start, and the
    scene they lead to. *)
Definition fired (s : State) : nat :=
  if started s then 6 - List.length (timers s) else 0.

Definition sceneAt (n : nat) : nat :=
  match n with
  | 0 | 1 => 1
  | 2 => 2
  | 3 => 3
  | 4 => 4
  | _ => 5
  end.

(** The run keeps to the schedule: the scene, the result of the spin and
    the sounds started are those of the number of timeouts fired. *)
Definition onTrack (s : State) : Prop :=
  scene s = sceneAt (fired s) /\
  spinFinished s = Nat.ltb 0 (fired s) /\
  sounds s = if started s then firstn (S (Nat.min (fired s) 4)) soundtrack
             else [].

Definition noParentRender (evs : list Event) : bool :=
  forallb (fun e => match e with ParentRerender => false | _ => true end) evs.

(** What the main effect keeps: it has seen the current render; the
    pending timeouts are the rest of the schedule of the latest
    [onComplete], all of them known to the cleanup, and there is none before
    the start. *)
Definition mainOK (s : State) : Prop :=
  mainDeps s = Some (onCompleteProp s, started s) /\
  (forall t, In t (timers s) -> In (fst t) (mainCleanup s)) /\
  (exists n, map snd (timers s) = skipn n (schedule (onCompleteProp s))) /\
  (started s = false -> timers s = []).

(** What the scene effect keeps: it has seen the current scene, and an
    interval is live exactly in scene 4, the one the cleanup clears. *)
Definition sceneOK (s : State) : Prop :=
  sceneDeps s = Some (scene s) /\
  (scene s = 4 -> exists i, intervals s = [i] /\ sceneCleanup s = Some i) /\
  (scene s <> 4 -> intervals s = []).

(** Once only the call of [onComplete] is pending the scene is 5. *)
Definition lastCall (s : State) : Prop :=
  forall d k, map snd (timers s) = [(d, Complete k)] -> scene s = 5.

(** What holds between events while the component is mounted. *)
Definition steady (s : State) : Prop :=
  mainOK s /\ sceneOK s /\ winDeps s = Some (spinFinished s) /\
  lastCall s /\ countdown s <= 5 /\ completions s = [].

(** And after the call of [onComplete]. *)
Definition completed (s : State) : Prop :=
  timers s = [] /\ intervals s = [] /\ scene s = 5 /\ countdown s <= 5 /\
  completions s = [CallOnComplete (onCompleteProp s)].

Definition wellFormed (s : State) : Prop :=
  if unmounted s then completed s else steady s.

End SplashScreen.

(* ------------------------------------------------------------------ *)
(** ** src/App.tsx with src/components/SantaSleigh.tsx (lines 203-428 and
       430-535 of src/components/MagicalSurprise.tsx here): the flow from
       the splash screen to the ending scene *)

Module App.

Local Open Scope string_scope.
Local Open Scope nat_scope.

Inductive Action :=
| IncrementVisit
| IncrementVictim
| PlayBgMusic
| ConsoleLog (msg : string).

(** The [useState] cells of [App] (lines 217-222 and 261). *)
Record Flags := mkFlags {
  showSplash : bool;
  musicStarted : bool;
  deliveryStarted : bool;
  boxDropped : bool;
  extraGifts : bool;
  isMobile : bool
}.

Definition Flags_eq_dec (a b : Flags) : {a = b} + {a <> b}.
Proof. repeat decide equality. Defined.

(** Where a [play()] of the music was called. *)
Inductive Origin := FromEffect | FromClick.

(** The state of [App], the number of its renders (the identity of the
    closures the last one built), the [play()] promises of the music still
    pending, oldest first, the click listener of the fallback if it is
    installed (with the [showSplash] and [musicStarted] its closure has
    captured), what React keeps for the start effect and the fallback effect (their
    dependency arrays), the sleigh (its pending timeouts with the [onDrop]
    they call, and what React keeps for its effect), the main gift box with
    the props of its last render, and the trace, newest first. *)
Record State := mkState {
  flags : Flags;
  renders : nat;
  pendingPlays : list Origin;
  listener : option (bool * bool);
  startDeps : option bool;
  listenDeps : option (bool * bool);
  sleighTimers : list (nat * nat);
  nextTimer : nat;
  sleighCleanup : option nat;
  sleighDeps : option (bool * nat);
  box : GiftBox.Mounted;
  log : list Action
}.

Definition setFlags (f : Flags) (s : State) : State :=
  mkState f (renders s) (pendingPlays s) (listener s) (startDeps s)
    (listenDeps s) (sleighTimers s) (nextTimer s) (sleighCleanup s)
    (sleighDeps s) (box s) (log s).

Definition setRenders (n : nat) (s : State) : State :=
  mkState (flags s) n (pendingPlays s) (listener s) (startDeps s)
    (listenDeps s) (sleighTimers s) (nextTimer s) (sleighCleanup s)
    (sleighDeps s) (box s) (log s).

Definition setPendingPlays (n : list Origin) (s : State) : State :=
  mkState (flags s) (renders s) n (listener s) (startDeps s)
    (listenDeps s) (sleighTimers s) (nextTimer s) (sleighCleanup s)
    (sleighDeps s) (box s) (log s).

Definition setListener (b : option (bool * bool)) (s : State) : State :=
  mkState (flags s) (renders s) (pendingPlays s) b (startDeps s)
    (listenDeps s) (sleighTimers s) (nextTimer s) (sleighCleanup s)
    (sleighDeps s) (box s) (log s).

Definition setStartDeps (d : option bool) (s : State) : State :=
  mkState (flags s) (renders s) (pendingPlays s) (listener s) d
    (listenDeps s) (sleighTimers s) (nextTimer s) (sleighCleanup s)
    (sleighDeps s) (box s) (log s).

Definition setListenDeps (d : option (bool * bool)) (s : State) : State :=
  mkState (flags s) (renders s) (pendingPlays s) (listener s) (startDeps s)
    d (sleighTimers s) (nextTimer s) (sleighCleanup s)
    (sleighDeps s) (box s) (log s).

Definition setSleighTimers (l : list (nat * nat)) (s : State) : State :=
  mkState (flags s) (renders s) (pendingPlays s) (listener s) (startDeps s)
    (listenDeps s) l (nextTimer s) (sleighCleanup s)
    (sleighDeps s) (box s) (log s).

Definition setSleighCleanup (c : option nat) (s : State) : State :=
  mkState (flags s) (renders s) (pendingPlays s) (listener s) (startDeps s)
    (listenDeps s) (sleighTimers s) (nextTimer s) c
    (sleighDeps s) (box s) (log s).

Definition setSleighDeps (d : option (bool * nat)) (s : State) : State :=
  mkState (flags s) (renders s) (pendingPlays s) (listener s) (startDeps s)
    (listenDeps s) (sleighTimers s) (nextTimer s) (sleighCleanup s)
    d (box s) (log s).

Definition setBox (b : GiftBox.Mounted) (s : State) : State :=
  mkState (flags s) (renders s) (pendingPlays s) (listener s) (startDeps s)
    (listenDeps s) (sleighTimers s) (nextTimer s) (sleighCleanup s)
    (sleighDeps s) b (log s).

Definition emit (a : Action) (s : State) : State :=
  mkState (flags s) (renders s) (pendingPlays s) (listener s) (startDeps s)
    (listenDeps s) (sleighTimers s) (nextTimer s) (sleighCleanup s)
    (sleighDeps s) (box s) (a :: log s).

(** The state setters. *)
Definition setShowSplash (b : bool) (f : Flags) : Flags :=
  mkFlags b (musicStarted f) (deliveryStarted f) (boxDropped f)
    (extraGifts f) (isMobile f).

Definition setMusicStarted (b : bool) (f : Flags) : Flags :=
  mkFlags (showSplash f) b (deliveryStarted f) (boxDropped f)
    (extraGifts f) (isMobile f).

Definition setDeliveryStarted (b : bool) (f : Flags) : Flags :=
  mkFlags (showSplash f) (musicStarted f) b (boxDropped f)
    (extraGifts f) (isMobile f).

Definition setBoxDropped (b : bool) (f : Flags) : Flags :=
  mkFlags (showSplash f) (musicStarted f) (deliveryStarted f) b
    (extraGifts f) (isMobile f).

Definition setExtraGifts (b : bool) (f : Flags) : Flags :=
  mkFlags (showSplash f) (musicStarted f) (deliveryStarted f) (boxDropped f)
    b (isMobile f).

Definition setIsMobile (b : bool) (f : Flags) : Flags :=
  mkFlags (showSplash f) (musicStarted f) (deliveryStarted f) (boxDropped f)
    (extraGifts f) b.

(** [bgMusicRef.current.play()]: the promise settles later. *)
Definition playMusic (o : Origin) (s : State) : State :=
  setPendingPlays (pendingPlays s ++ [o]) (emit PlayBgMusic s).

(** The effect of SantaSleigh.tsx (lines 450-457) for a render with
    [start = deliveryStarted] and the [onDrop] of this render of [App], after
    the cleanup of its last run. *)
Definition sleighPass (s : State) : State :=
  let d := (deliveryStarted (flags s), renders s) in
  let changed :=
    match sleighDeps s with
    | None => true
    | Some (b, k) => negb (Bool.eqb b (fst d) && Nat.eqb k (snd d))
    end in
  if changed
  then
    let s :=
      match sleighCleanup s with
      | Some i =>
          setSleighTimers
            (filter (fun t => negb (Nat.eqb (fst t) i)) (sleighTimers s)) s
      | None => s
      end in
    let s :=
      if deliveryStarted (flags s)
      then mkState (flags s) (renders s) (pendingPlays s) (listener s)
             (startDeps s) (listenDeps s)
             ((nextTimer s, renders s) :: sleighTimers s) (S (nextTimer s))
             (Some (nextTimer s)) (sleighDeps s) (box s) (log s)
      else setSleighCleanup None s in
    setSleighDeps (Some d) s
  else s.

(** The main gift box rendered with the props of this render (lines
    365-372). *)
Definition boxPass (s : State) : State :=
  setBox
    (GiftBox.step (box s)
       (GiftBox.Render (GiftBox.mainBox (boxDropped (flags s)) (renders s))))
    s.

(** Lines 273-289: once the splash screen is gone, try to start the
    music. *)
Definition startPass (s : State) : State :=
  let changed :=
    match startDeps s with
    | None => true
    | Some b => negb (Bool.eqb b (showSplash (flags s)))
    end in
  if changed
  then
    setStartDeps (Some (showSplash (flags s)))
      (if negb (showSplash (flags s)) then playMusic FromEffect s else s)
  else s.

(** Lines 291-308: the click listener of the fallback is installed while
    the splash screen is gone and the music has not started. *)
Definition listenPass (s : State) : State :=
  let d := (showSplash (flags s), musicStarted (flags s)) in
  let changed :=
    match listenDeps s with
    | None => true
    | Some (a, b) => negb (Bool.eqb a (fst d) && Bool.eqb b (snd d))
    end in
  if changed
  then
    setListenDeps (Some d)
      (setListener (if negb (showSplash (flags s)) &&
                       negb (musicStarted (flags s))
                    then Some d else None) s)
  else s.

(** The [onOpen] of the main box (lines 368-371), once per call. *)
Definition onOpenCalled (n : nat) (s : State) : State :=
  fold_left
    (fun s' _ => emit IncrementVictim (setFlags (setExtraGifts true (flags s')) s'))
    (repeat tt n) s.

(** One render of [App] with its effect phase: the effects of the children,
    then its own.  The main box may call [onOpen] in its effect; the state
    update this makes is applied at the end. *)
Definition renderOnce (s : State) : State :=
  let before := GiftBox.onOpenCalls (snd (box s)) in
  let s := setRenders (S (renders s)) s in
  let s := sleighPass s in
  let s := boxPass s in
  let s := startPass s in
  let s := listenPass s in
  onOpenCalled (GiftBox.onOpenCalls (snd (box s)) - before) s.

Definition flagsChanged (a b : Flags) : bool :=
  if Flags_eq_dec a b then false else true.

(** Rendering until no state update is pending: the effects write state
    only through the one [onOpen] of the main box, so a second render
    settles. *)
Definition commit (s : State) : State :=
  let s1 := renderOnce s in
  if flagsChanged (flags s1) (flags s) then renderOnce s1 else s1.

(** A state update from a handler: React renders only when the state has
    changed. *)
Definition update (f : Flags -> Flags) (s : State) : State :=
  if flagsChanged (f (flags s)) (flags s)
  then commit (setFlags (f (flags s)) s)
  else s.

(** The first render and its effects (lines 225-230 and 264-270): the
    screen is measured, the music element is made and the visit counted.
    Effects run once per mount, as in a production build. *)
Definition mount (narrow : bool) : State :=
  let p := GiftBox.mainBox false 1 in
  let s := mkState (mkFlags true false false false false false) 1 [] None
             None None [] 0 None None (p, GiftBox.mount p) [] in
  let s := sleighPass s in
  let s := emit IncrementVisit s in
  let s := startPass s in
  let s := listenPass s in
  update (setIsMobile narrow) s.

Inductive BoxEvent := BoxClick | BoxPointerOver | BoxPointerOut | BoxShakeTimeout.

Definition toGiftBox (e : BoxEvent) : GiftBox.Event :=
  match e with
  | BoxClick => GiftBox.Click
  | BoxPointerOver => GiftBox.PointerOver
  | BoxPointerOut => GiftBox.PointerOut
  | BoxShakeTimeout => GiftBox.ShakeTimeout
  end.

(** The splash screen calling [onComplete]; the oldest pending [play()]
    promise settling;
    a click on the window; a timeout of the sleigh firing; something
    happening to the main box; the window being resized; the counters of
    [useScamStats] changing. *)
Inductive Event :=
| SplashComplete
| PlaySettled (ok : bool)
| WindowClick
| SleighTimeout
| Box (e : BoxEvent)
| Resize (narrow : bool)
| StatsChange.

Definition step (s : State) (e : Event) : State :=
  match e with
  | SplashComplete => update (setShowSplash false) s
  | PlaySettled ok =>
      match pendingPlays s with
      | [] => s
      | o :: rest =>
          let s := setPendingPlays rest s in
          if ok
          then update (fun f => setDeliveryStarted true (setMusicStarted true f)) s
          else emit (ConsoleLog (match o with
                                 | FromEffect =>
                                     "Autoplay blocked, waiting for interaction"
                                 | FromClick => "Playback failed:"
                                 end)) s
      end
  | WindowClick =>
      match listener s with
      | Some (splash, music) =>
          if negb splash && negb music then playMusic FromClick s else s
      | None => s
      end
  | SleighTimeout =>
      match sleighTimers s with
      | [] => s
      | _ :: rest => update (setBoxDropped true) (setSleighTimers rest s)
      end
  | Box e =>
      let before := GiftBox.onOpenCalls (snd (box s)) in
      let s := setBox (GiftBox.step (box s) (toGiftBox e)) s in
      let n := GiftBox.onOpenCalls (snd (box s)) - before in
      let s' := onOpenCalled n s in
      if flagsChanged (flags s') (flags s) then commit s' else s'
  | Resize narrow => update (setIsMobile narrow) s
  | StatsChange => commit s
  end.

Definition run (s : State) (evs : list Event) : State := fold_left step evs s.

Definition isVictim (a : Action) : bool :=
  match a with IncrementVictim => true | _ => false end.

Definition isVisit (a : Action) : bool :=
  match a with IncrementVisit => true | _ => false end.

Definition isPlay (a : Action) : bool :=
  match a with PlayBgMusic => true | _ => false end.

Definition victimCalls (s : State) : nat := List.length (filter isVictim (log s)).
Definition visitCalls (s : State) : nat := List.length (filter isVisit (log s)).
Definition playCalls (s : State) : nat := List.length (filter isPlay (log s)).

(** The ending scene is rendered exactly when [extraGifts] is set (lines
    414-426), the overlay when the splash screen is gone (line 398). *)
Definition endingMounted (s : State) : bool := extraGifts (flags s).
Definition overlayShown (s : State) : bool := negb (showSplash (flags s)).

(** The events that ask for the music: the splash screen going, and a
    click while the splash screen is gone and the music has not started. *)
Definition requestsMusic (s : State) (e : Event) : bool :=
  match e with
  | SplashComplete => showSplash (flags s)
  | WindowClick =>
      negb (showSplash (flags s)) && negb (musicStarted (flags s))
  | _ => false
  end.

(** What the flow keeps at every moment, also between a state update and
    the render that follows it: the music and the delivery start together
    and only after the splash screen, a [play()] is only ever pending and
    the listener only ever installed after it, a timeout of the sleigh is
    pending only during the delivery and the box drops only then; the main
    box is the open variant with an [onOpen], is rendered as dropped only
    once it has dropped and opens only then; its [onOpen] has been called at
    most once and only if it is open; the visit has been counted once. *)
Definition core (s : State) : Prop :=
  let f := flags s in
  deliveryStarted f = musicStarted f /\
  (musicStarted f = true -> showSplash f = false) /\
  (boxDropped f = true -> deliveryStarted f = true) /\
  (pendingPlays s <> [] -> showSplash f = false) /\
  (sleighTimers s <> [] -> deliveryStarted f = true) /\
  match listenDeps s with
  | Some (a, b) =>
      listener s = (if negb a && negb b then Some (a, b) else None) /\
      (a = false -> showSplash f = false)
  | None => listener s = None
  end /\
  GiftBox.variant (fst (box s)) = GiftBox.open /\
  GiftBox.onOpen (fst (box s)) <> None /\
  (GiftBox.isDropped (fst (box s)) = true -> boxDropped f = true) /\
  (GiftBox.isOpen (snd (box s)) = true -> boxDropped f = true) /\
  GiftBox.callGuarded (snd (box s)) /\
  (GiftBox.hasPlayedRef (snd (box s)) = true ->
   GiftBox.isOpen (snd (box s)) = true) /\
  visitCalls s = 1.

(** Between events the victims counted are the calls of [onOpen], and the
    extra gifts are there exactly when there has been one. *)
Definition counted (s : State) : Prop :=
  victimCalls s = GiftBox.onOpenCalls (snd (box s)) /\
  extraGifts (flags s) = Nat.ltb 0 (GiftBox.onOpenCalls (snd (box s))).

(** Between events the effects of [App] have seen the current state. *)
Definition settled (s : State) : Prop :=
  startDeps s = Some (showSplash (flags s)) /\
  listenDeps s = Some (showSplash (flags s), musicStarted (flags s)).

End App.

(* ================================================================== *)
(** * Properties *)

(** ** The order on binary64 values *)

Module NumFacts.

(** The literals used by the timeline, as binary64 values:
    0.1 = 0x1.999999999999ap-4, 0.05 = 0x1.999999999999ap-5 and
    32.2 = 0x1.019999999999ap+5 are rounded, 0.5 and 92 are exact. *)
Example literals :
  Num.dec 1 1 = S754_finite false 7205759403792794 (-56) /\
  Num.dec 5 2 = S754_finite false 7205759403792794 (-57) /\
  Num.dec 322 1 = S754_finite false 4531747125041562 (-47) /\
  Num.dec 5 1 = S754_finite false 4503599627370496 (-53) /\
  Num.ofZ 92 = S754_finite false 6473924464345088 (-46) /\
  Num.ofZ 0 = S754_zero false.
Proof. vm_compute. repeat split; reflexivity. Qed.

(** Addition rounds: three steps of 0.1 give 0.30000000000000004
    (0x1.3333333333334p-2), not the literal 0.3 (0x1.3333333333333p-2). *)
Example addition_rounds :
  Num.add (Num.add (Num.dec 1 1) (Num.dec 1 1)) (Num.dec 1 1) =
    S754_finite false 5404319552844596 (-54) /\
  Num.dec 3 1 = S754_finite false 5404319552844595 (-54).
Proof. vm_compute. split; reflexivity. Qed.

Lemma pos_cmp_spec (p q : positive) :
  CompareSpec (p = q) (Pos.lt p q) (Pos.lt q p) (Pos.compare_cont Eq p q).
Proof. exact (Pos.compare_spec p q). Qed.

(** Splits every comparison of exponents and mantissas in the goal and
    closes the arithmetic. *)
Ltac order_cases :=
  repeat match goal with
         | H : context [Z.compare ?a ?b] |- _ =>
             destruct (Z.compare_spec a b); simpl in H
         | H : context [Pos.compare_cont Eq ?a ?b] |- _ =>
             destruct (pos_cmp_spec a b); simpl in H
         | |- context [Z.compare ?a ?b] =>
             destruct (Z.compare_spec a b); simpl
         | |- context [Pos.compare_cont Eq ?a ?b] =>
             destruct (pos_cmp_spec a b); simpl
         end;
  subst; try discriminate; try reflexivity; try lia.

Lemma leb_not_nan (x y : Num.number) :
  Num.leb x y = true -> Num.isNaN x = false /\ Num.isNaN y = false.
Proof.
  unfold Num.leb, SFleb. destruct x, y; simpl; intros H;
    try discriminate; split; reflexivity.
Qed.

Lemma ltb_not_nan (x y : Num.number) :
  Num.ltb x y = true -> Num.isNaN x = false /\ Num.isNaN y = false.
Proof.
  unfold Num.ltb, SFltb. destruct x, y; simpl; intros H;
    try discriminate; split; reflexivity.
Qed.

(** On numbers other than NaN, [x < y] is the negation of [y <= x]. *)
Lemma ltb_negb_leb (x y : Num.number) :
  Num.isNaN x = false -> Num.isNaN y = false ->
  Num.ltb x y = negb (Num.leb y x).
Proof.
  unfold Num.ltb, Num.leb, SFltb, SFleb, SFcompare.
  destruct x as [sx|sx| |sx mx ex], y as [sy|sy| |sy my ey]; simpl;
    intros Hx Hy; try discriminate;
    try destruct sx; try destruct sy; try reflexivity; order_cases.
Qed.

Lemma leb_trans (x y z : Num.number) :
  Num.leb x y = true -> Num.leb y z = true -> Num.leb x z = true.
Proof.
  unfold Num.leb, SFleb, SFcompare.
  destruct x as [sx|sx| |sx mx ex], y as [sy|sy| |sy my ey],
           z as [sz|sz| |sz mz ez]; simpl; intros Hxy Hyz;
    try discriminate;
    try destruct sx; try destruct sy; try destruct sz;
    try discriminate; try reflexivity; order_cases.
Qed.

End NumFacts.

(* ------------------------------------------------------------------ *)
(** ** The ending timeline *)

Module EndingSceneFacts.

Import EndingScene.

(** *** Scene windows *)

Lemma ltb_leb_trans (x y z : Num.number) :
  Num.ltb x y = true -> Num.leb y z = true -> Num.ltb x z = true.
Proof.
  intros Hxy Hyz.
  destruct (NumFacts.ltb_not_nan _ _ Hxy) as [Hx Hy].
  destruct (NumFacts.leb_not_nan _ _ Hyz) as [_ Hz].
  rewrite (NumFacts.ltb_negb_leb x z Hx Hz).
  rewrite (NumFacts.ltb_negb_leb x y Hx Hy) in Hxy.
  destruct (Num.leb z x) eqn:Hzx; [|reflexivity].
  rewrite (NumFacts.leb_trans y z x Hyz Hzx) in Hxy. discriminate.
Qed.

Lemma inWindow_unfold (c : Num.number) (a b : Z) :
  inWindow c (a, b) = Num.leb (Num.ofZ a) c && Num.ltb c (Num.ofZ b).
Proof. reflexivity. Qed.

(** A clock before the first window is in none of them. *)
Lemma before_all (c : Num.number) (ws : list (Z * Z)) :
  forall from, contiguousFrom from ws = true ->
  Num.ltb c (Num.ofZ from) = true ->
  filter (inWindow c) ws = [].
Proof.
  induction ws as [|[a b] rest IH]; intros from Hc Hlt; [reflexivity|].
  cbn [contiguousFrom] in Hc.
  apply andb_prop in Hc as [Hc Hrest]. apply andb_prop in Hc as [Ha Hab].
  apply Z.eqb_eq in Ha. subst a.
  cbn [filter]. rewrite inWindow_unfold.
  destruct (NumFacts.ltb_not_nan _ _ Hlt) as [Hn1 Hn2].
  rewrite (NumFacts.ltb_negb_leb _ _ Hn1 Hn2) in Hlt.
  apply negb_true_iff in Hlt. rewrite Hlt. cbn [andb].
  apply (IH b Hrest).
  apply ltb_leb_trans with (y := Num.ofZ from); [|exact Hab].
  rewrite (NumFacts.ltb_negb_leb _ _ Hn1 Hn2), Hlt. reflexivity.
Qed.

Lemma end_le (c : Num.number) (ws : list (Z * Z)) :
  forall from, contiguousFrom from ws = true ->
  Num.leb (Num.ofZ (endFrom from ws)) c = true ->
  Num.leb (Num.ofZ from) c = true.
Proof.
  induction ws as [|[a b] rest IH]; intros from Hc Hle; [exact Hle|].
  cbn [contiguousFrom] in Hc.
  apply andb_prop in Hc as [Hc Hrest]. apply andb_prop in Hc as [Ha Hab].
  apply Z.eqb_eq in Ha. subst a.
  apply NumFacts.leb_trans with (y := Num.ofZ b); [exact Hab|].
  apply (IH b Hrest Hle).
Qed.

(** A clock at or after the end of the last window is in none of them. *)
Lemma after_all (c : Num.number) (ws : list (Z * Z)) :
  forall from, contiguousFrom from ws = true ->
  Num.leb (Num.ofZ (endFrom from ws)) c = true ->
  filter (inWindow c) ws = [].
Proof.
  induction ws as [|[a b] rest IH]; intros from Hc Hle; [reflexivity|].
  pose proof Hc as Hc'. cbn [contiguousFrom] in Hc'.
  apply andb_prop in Hc' as [Hc' Hrest]. apply andb_prop in Hc' as [Ha Hab].
  cbn [endFrom] in Hle.
  pose proof (end_le c rest b Hrest Hle) as Hbc.
  cbn [filter]. rewrite inWindow_unfold.
  destruct (NumFacts.leb_not_nan _ _ Hbc) as [Hn1 Hn2].
  rewrite (NumFacts.ltb_negb_leb _ _ Hn2 Hn1), Hbc, andb_false_r.
  apply (IH b Hrest Hle).
Qed.

(** A clock between the start of the first window and the end of the last
    is in exactly one. *)
Lemma exactly_one (c : Num.number) (ws : list (Z * Z)) :
  forall from, contiguousFrom from ws = true ->
  Num.leb (Num.ofZ from) c = true ->
  Num.ltb c (Num.ofZ (endFrom from ws)) = true ->
  exists w, In w ws /\ filter (inWindow c) ws = [w].
Proof.
  induction ws as [|[a b] rest IH]; intros from Hc Hle Hlt.
  - cbn [endFrom] in Hlt.
    destruct (NumFacts.ltb_not_nan _ _ Hlt) as [Hn1 Hn2].
    rewrite (NumFacts.ltb_negb_leb _ _ Hn1 Hn2), Hle in Hlt. discriminate.
  - pose proof Hc as Hc'. cbn [contiguousFrom] in Hc'.
    apply andb_prop in Hc' as [Hc' Hrest].
    apply andb_prop in Hc' as [Ha Hab].
    apply Z.eqb_eq in Ha. subst a.
    cbn [endFrom] in Hlt. cbn [filter]. rewrite inWindow_unfold, Hle.
    cbn [andb].
    destruct (Num.ltb c (Num.ofZ b)) eqn:Hcb.
    + exists (from, b). split; [left; reflexivity|].
      rewrite (before_all c rest b Hrest Hcb). reflexivity.
    + destruct (NumFacts.leb_not_nan _ _ Hle) as [_ Hn1].
      destruct (NumFacts.leb_not_nan _ _ Hab) as [_ Hn2].
      rewrite (NumFacts.ltb_negb_leb _ _ Hn1 Hn2) in Hcb.
      apply negb_false_iff in Hcb.
      destruct (IH b Hrest Hcb Hlt) as [w [Hin Hw]].
      exists w. split; [right; exact Hin|exact Hw].
Qed.

Lemma sceneWindows_contiguous :
  contiguousFrom 0 sceneWindows = true /\ endFrom 0 sceneWindows = 90.
Proof. split; vm_compute; reflexivity. Qed.

(** *** One evaluation of the timeline effect *)

(** Unfolds the blocks of the effect and splits their conditions. *)
Ltac effect_cases :=
  unfold timelineEffect, setInterval, endCheck, textRevealCue, glitchCue,
    playIfSet;
  cbv zeta;
  repeat match goal with
         | |- context [if ?b then _ else _] => destruct b
         end.

Lemma currentTime_timelineEffect (s : State) :
  currentTime (timelineEffect s) = currentTime s.
Proof.
  unfold timelineEffect. destruct (status s); try reflexivity.
  effect_cases; reflexivity.
Qed.

(** It changes the status only at the end of the sequence. *)
Lemma status_timelineEffect (s : State) :
  status (timelineEffect s) =
  match status s with
  | playing =>
      if Num.geb (currentTime s) totalDuration then finished else playing
  | st => st
  end.
Proof.
  unfold timelineEffect. destruct (status s) eqn:Hst; try exact Hst.
  destruct (Num.geb (currentTime s) totalDuration) eqn:Hge;
    unfold endCheck; rewrite Hge; effect_cases; first [reflexivity | exact Hst].
Qed.

Lemma status_runCleanup (s : State) : status (runCleanup s) = status s.
Proof. unfold runCleanup. destruct (cleanup s); reflexivity. Qed.

Lemma currentTime_runCleanup (s : State) :
  currentTime (runCleanup s) = currentTime s.
Proof. unfold runCleanup. destruct (cleanup s); reflexivity. Qed.

Lemma eqb_refl (c : Num.number) : Num.eqb c c = true.
Proof. unfold Num.eqb. destruct (Num.eq_dec c c); congruence. Qed.

Lemma settled_setDeps (s : State) :
  depsChanged (setDeps (Some (status s, currentTime s)) s) = false.
Proof.
  unfold depsChanged, setDeps. cbn [deps status currentTime].
  destruct (Status_eq_dec (status s) (status s)) as [_|n]; [|congruence].
  rewrite eqb_refl. reflexivity.
Qed.

Lemma status_renderOnce (s : State) :
  status (renderOnce s) =
  if depsChanged s then status (timelineEffect (runCleanup s)) else status s.
Proof. unfold renderOnce. destruct (depsChanged s); reflexivity. Qed.

Lemma currentTime_renderOnce (s : State) :
  currentTime (renderOnce s) = currentTime s.
Proof.
  unfold renderOnce. destruct (depsChanged s); [|reflexivity].
  cbv zeta. unfold setDeps. cbn [currentTime].
  rewrite currentTime_timelineEffect, currentTime_runCleanup. reflexivity.
Qed.

(** A render whose effect did not touch the status leaves nothing
    pending. *)
Lemma renderOnce_settled (s : State) :
  status (renderOnce s) = status s -> depsChanged (renderOnce s) = false.
Proof.
  unfold renderOnce. destruct (depsChanged s) eqn:Hs; [|intros _; exact Hs].
  cbv zeta. set (s' := timelineEffect (runCleanup s)).
  unfold setDeps at 1. cbn [status]. intros Hst.
  assert (Hc : currentTime s' = currentTime s).
  { subst s'. rewrite currentTime_timelineEffect, currentTime_runCleanup.
    reflexivity. }
  rewrite <- Hst, <- Hc. apply settled_setDeps.
Qed.

(** Two passes are enough: after [commit] the dependency array is that of
    the state, so a further render runs no effect. *)
Lemma commit_settled (s : State) : depsChanged (commit s) = false.
Proof.
  unfold commit. apply renderOnce_settled.
  rewrite (status_renderOnce (renderOnce s)).
  destruct (depsChanged (renderOnce s)) eqn:Hs1; [|reflexivity].
  rewrite status_timelineEffect, status_runCleanup.
  destruct (status (renderOnce s)) eqn:Hst; try reflexivity.
  (* still [playing] after the first pass: that pass was settled *)
  exfalso.
  assert (Hsame : status (renderOnce s) = status s).
  { rewrite status_renderOnce in Hst |- *.
    destruct (depsChanged s); [|reflexivity].
    rewrite status_timelineEffect, status_runCleanup in Hst |- *.
    destruct (status s); try discriminate.
    destruct (Num.geb (currentTime (runCleanup s)) totalDuration);
      [discriminate|reflexivity]. }
  rewrite (renderOnce_settled s Hsame) in Hs1. discriminate.
Qed.

Lemma commit_of_settled (s : State) : depsChanged s = false -> commit s = s.
Proof.
  intros H. unfold commit, renderOnce. rewrite H, H. reflexivity.
Qed.

(** [commit] keeps the status or finishes the sequence. *)
Lemma status_commit (s : State) :
  status (commit s) = status s \/ status (commit s) = finished.
Proof.
  assert (H1 : forall s', status (renderOnce s') = status s' \/
                          status (renderOnce s') = finished).
  { intros s'. rewrite status_renderOnce. destruct (depsChanged s'); [|left; auto].
    rewrite status_timelineEffect, status_runCleanup.
    destruct (status s'); auto.
    destruct (Num.geb (currentTime (runCleanup s')) totalDuration); auto. }
  unfold commit.
  destruct (H1 s) as [Ha|Ha]; destruct (H1 (renderOnce s)) as [Hb|Hb];
    rewrite ?Hb, ?Ha; auto.
Qed.

(** *** The states of a run *)

Lemma run_app (s : State) (a b : list Event) :
  run s (a ++ b) = run (run s a) b.
Proof. apply fold_left_app. Qed.

Lemma tickState_S (n : nat) : tickState (S n) = step (tickState n) Tick.
Proof.
  unfold tickState. change (repeat Tick (S n)) with (Tick :: repeat Tick n).
  rewrite repeat_cons, run_app. reflexivity.
Qed.

Lemma allAlong_spec (P : State -> bool) (n : nat) :
  forall s, allAlong P n s = true ->
  forall k, (k <= n)%nat -> P (run s (repeat Tick k)) = true.
Proof.
  induction n as [|n IH]; intros s H k Hk; cbn [allAlong] in H;
    apply andb_prop in H as [H0 H1].
  - assert (k = O) by lia. subst k. exact H0.
  - destruct k as [|k]; [exact H0|].
    cbn [repeat]. apply (IH (step s Tick) H1 k). lia.
Qed.

Lemma running_spec (s : State) :
  running s = true ->
  status s = playing /\ depsChanged s = false /\
  (exists i, intervals s = [i] /\ cleanup s = Some i) /\
  Num.geb (currentTime s) totalDuration = false.
Proof.
  unfold running, isPlaying. intros H.
  apply andb_prop in H as [H _].
  apply andb_prop in H as [H H4]. apply andb_prop in H as [H H3].
  apply andb_prop in H as [H1 H2].
  destruct (Status_eq_dec (status s) playing) as [Hp|]; [|discriminate].
  apply negb_true_iff in H2, H4.
  repeat split; try assumption.
  destruct (intervals s) as [|i [|? ?]]; try discriminate.
  destruct (cleanup s) as [j|]; try discriminate.
  apply Nat.eqb_eq in H3. subst j. exists i. split; reflexivity.
Qed.

Lemma stopped_spec (s : State) :
  stopped s = true ->
  status s = finished /\ intervals s = [] /\ depsChanged s = false.
Proof.
  unfold stopped. intros H.
  apply andb_prop in H as [H _].
  apply andb_prop in H as [H H3]. apply andb_prop in H as [H1 H2].
  destruct (Status_eq_dec (status s) finished); [|discriminate].
  destruct (intervals s); [|discriminate].
  apply negb_true_iff in H3. auto.
Qed.

(** Every state before the last tick is in the middle of the sequence. *)
Lemma along_the_run : allAlong running 920 started = true.
Proof. vm_compute. reflexivity. Qed.

Lemma playing_before (n : nat) :
  (n < ticksToFinish)%nat ->
  status (tickState n) = playing /\ depsChanged (tickState n) = false /\
  (exists i, intervals (tickState n) = [i] /\ cleanup (tickState n) = Some i) /\
  Num.geb (currentTime (tickState n)) totalDuration = false.
Proof.
  intros Hn. unfold ticksToFinish in Hn. apply running_spec.
  apply (allAlong_spec running 920 started along_the_run n). lia.
Qed.

(** The state in which every run ends. *)
Lemma final_stopped : stopped (tickState ticksToFinish) = true.
Proof. vm_compute. reflexivity. Qed.

Lemma final_state :
  status (tickState ticksToFinish) = finished /\
  intervals (tickState ticksToFinish) = [] /\
  depsChanged (tickState ticksToFinish) = false.
Proof. apply stopped_spec, final_stopped. Qed.

Lemma tickState_0 : tickState 0 = step mount ClickStart.
Proof. unfold tickState, run. cbn [repeat fold_left]. reflexivity. Qed.

Lemma mount_state :
  status mount = idle /\ intervals mount = [] /\ depsChanged mount = false.
Proof. vm_compute. repeat split; reflexivity. Qed.

Lemma step_final (e : Event) :
  step (tickState ticksToFinish) e = tickState ticksToFinish.
Proof.
  destruct final_state as [Hst [Hi Hd]].
  destruct e; unfold step.
  - rewrite Hst. reflexivity.
  - rewrite Hi. reflexivity.
  - apply commit_of_settled, Hd.
Qed.

Lemma reach_step (s : State) (e : Event) : Reach s -> Reach (step s e).
Proof.
  intros [Hm | [n [Hn Hs]]]; subst s.
  - destruct mount_state as [Hst [Hi Hd]]. destruct e.
    + right. exists O. split; [unfold ticksToFinish; lia|].
      symmetry. apply tickState_0.
    + left. unfold step. rewrite Hi. reflexivity.
    + left. apply commit_of_settled, Hd.
  - right. destruct (Nat.eq_dec n ticksToFinish) as [->|Hne].
    + exists ticksToFinish. split; [lia|apply step_final].
    + assert (Hlt : (n < ticksToFinish)%nat) by lia.
      destruct (playing_before n Hlt) as [Hst [Hd _]].
      destruct e.
      * exists n. split; [lia|]. unfold step. rewrite Hst. reflexivity.
      * exists (S n). split; [lia|]. symmetry. apply tickState_S.
      * exists n. split; [lia|]. apply commit_of_settled, Hd.
Qed.

Lemma reach_run (tr : list Event) : forall s, Reach s -> Reach (run s tr).
Proof.
  induction tr as [|e tr IH]; intros s Hs; [exact Hs|].
  cbn [run fold_left]. apply (IH (step s e)), reach_step, Hs.
Qed.

Lemma reach_mount : Reach mount.
Proof. left. reflexivity. Qed.

(** A finished state can only be the final one. *)
Lemma reach_finished (s : State) :
  Reach s -> status s = finished -> s = tickState ticksToFinish.
Proof.
  intros [Hm | [n [Hn Hs]]] Hst; subst s.
  - destruct mount_state as [Hm _]. congruence.
  - destruct (Nat.eq_dec n ticksToFinish) as [->|Hne]; [reflexivity|].
    assert (Hlt : (n < ticksToFinish)%nat) by lia.
    destruct (playing_before n Hlt) as [Hp _]. congruence.
Qed.

Lemma reach_playing (s : State) :
  Reach s -> status s = playing ->
  exists n, (n < ticksToFinish)%nat /\ s = tickState n.
Proof.
  intros [Hm | [n [Hn Hs]]] Hst; subst s.
  - destruct mount_state as [Hm _]. congruence.
  - destruct (Nat.eq_dec n ticksToFinish) as [->|Hne].
    + destruct final_state as [Hf _]. congruence.
    + exists n. split; [lia|reflexivity].
Qed.

(** *** C1: scene windows *)

(** C1, as stated, fails: 910 ticks after the start the sequence is still
    playing, its clock (90.999999999999105) lies in [0, 92), and no scene
    window contains it. *)
Lemma C1_counterexample :
  let s := tickState 910 in
  status s = playing /\
  Num.leb (Num.ofZ 0) (currentTime s) = true /\
  Num.ltb (currentTime s) totalDuration = true /\
  filter (inWindow (currentTime s)) sceneWindows = [] /\
  visibleScenes s = [].
Proof. vm_compute. repeat split; reflexivity. Qed.

(** C1 (amended).  The sixteen scene windows are contiguous and cover
    [0, 90): while the sequence plays, a clock in [0, 90) lies in exactly
    one window and a clock from 90 on lies in none.  The total duration is
    92: an evaluation of the timeline effect keeps the sequence playing at
    any clock below 92 and moves it to the terminal state [finished], in
    which no scene is shown, at any clock of 92 or more. *)
Theorem C1_scene_windows (s : State) :
  status s = playing ->
  contiguousFrom 0 sceneWindows = true /\
  endFrom 0 sceneWindows = 90 /\
  (Num.leb (Num.ofZ 0) (currentTime s) = true ->
   Num.ltb (currentTime s) (Num.ofZ 90) = true ->
   exists w, In w sceneWindows /\ visibleScenes s = [w]) /\
  (Num.leb (Num.ofZ 90) (currentTime s) = true -> visibleScenes s = []) /\
  (Num.ltb (currentTime s) totalDuration = true ->
   status (timelineEffect s) = playing) /\
  (Num.geb (currentTime s) totalDuration = true ->
   status (timelineEffect s) = finished /\
   visibleScenes (timelineEffect s) = []).
Proof.
  intros Hst. destruct sceneWindows_contiguous as [Hc He].
  split; [exact Hc|]. split; [exact He|].
  unfold visibleScenes. rewrite Hst, status_timelineEffect, Hst.
  split; [|split; [|split]].
  - intros H0 H90. apply (exactly_one _ _ 0 Hc H0). rewrite He. exact H90.
  - intros H90. apply (after_all _ _ 0 Hc). rewrite He. exact H90.
  - intros Hlt. destruct (NumFacts.ltb_not_nan _ _ Hlt) as [Hn1 Hn2].
    rewrite (NumFacts.ltb_negb_leb _ _ Hn1 Hn2) in Hlt.
    apply negb_true_iff in Hlt. unfold Num.geb. fold Num.leb. rewrite Hlt.
    reflexivity.
  - intros Hge. rewrite Hge. split; reflexivity.
Qed.

Lemma C1_scene_windows_witness :
  status (tickState 30) = playing /\
  exists w, In w sceneWindows /\ visibleScenes (tickState 30) = [w].
Proof.
  assert (H : status (tickState 30) = playing) by (vm_compute; reflexivity).
  split; [exact H|].
  destruct (C1_scene_windows (tickState 30) H) as [_ [_ [Hone _]]].
  apply Hone; vm_compute; reflexivity.
Defined.

(** *** C2: every cue sounds once *)

(** What each event does to a state of the run: only a tick moves it. *)
Lemma step_tickState (n : nat) (e : Event) :
  (n <= ticksToFinish)%nat ->
  step (tickState n) e =
  match e with
  | Tick => tickState (Nat.min (S n) ticksToFinish)
  | _ => tickState n
  end.
Proof.
  intros Hn. destruct (Nat.eq_dec n ticksToFinish) as [->|Hne].
  - rewrite step_final. rewrite Nat.min_r by lia. destruct e; reflexivity.
  - assert (Hlt : (n < ticksToFinish)%nat) by lia.
    destruct (playing_before n Hlt) as [Hst [Hd _]].
    destruct e.
    + unfold step. rewrite Hst. reflexivity.
    + rewrite Nat.min_l by lia. symmetry. apply tickState_S.
    + apply commit_of_settled, Hd.
Qed.

Lemma countTicks_cons (e : Event) (tr : list Event) :
  countTicks (e :: tr) =
  match e with Tick => S (countTicks tr) | _ => countTicks tr end.
Proof. destruct e; reflexivity. Qed.

(** A run is determined by the number of its ticks. *)
Lemma run_tickState (tr : list Event) :
  forall n, (n <= ticksToFinish)%nat ->
  run (tickState n) tr = tickState (Nat.min (n + countTicks tr) ticksToFinish).
Proof.
  induction tr as [|e tr IH]; intros n Hn.
  - cbn [run fold_left]. unfold countTicks. cbn [filter List.length].
    rewrite Nat.add_0_r, Nat.min_l by lia. reflexivity.
  - change (run (tickState n) (e :: tr)) with (run (step (tickState n) e) tr).
    rewrite (step_tickState n e Hn), countTicks_cons.
    destruct e.
    + apply (IH n Hn).
    + rewrite IH by apply Nat.le_min_r. f_equal.
      destruct (Nat.eq_dec n ticksToFinish) as [->|Hne].
      * rewrite (Nat.min_r (S ticksToFinish)) by lia. lia.
      * rewrite (Nat.min_l (S n)) by lia. f_equal. lia.
    + apply (IH n Hn).
Qed.

Lemma final_cues : eachCueOnce (tickState ticksToFinish) = true.
Proof. vm_compute. reflexivity. Qed.

Lemma eachCueOnce_spec (s : State) :
  eachCueOnce s = true ->
  (forall t,
     (In t glitchTimes -> fired glitchAudio t (log s) = 1%nat) /\
     (In t textRevealTimes -> fired errorGlitch t (log s) = 1%nat)) /\
  played glitchAudio s = List.length glitchTimes /\
  played errorGlitch s = List.length textRevealTimes.
Proof.
  unfold eachCueOnce. intros H.
  apply andb_prop in H as [H Hpe]. apply andb_prop in H as [H Hpg].
  apply andb_prop in H as [Hg Ht].
  rewrite forallb_forall in Hg, Ht. apply Nat.eqb_eq in Hpg, Hpe.
  split; [|split; assumption].
  intros t. split; intros Hin; apply Nat.eqb_eq; auto.
Qed.

(** C2.  After a click on the start button, any sequence of events with
    at least 921 ticks completes the run, however many renders or further
    clicks are interleaved; and in every completed run each cue of the
    trigger table (the glitch offsets 0.5 and 4.0 and the 36 text reveal
    times) has had its sound played exactly once, with no other play of the
    two sounds.  Renders between ticks do not fire a cue again: the effect
    is skipped while [status] and [currentTime] are unchanged. *)
Theorem C2_each_cue_once (tr : list Event) :
  ((ticksToFinish <= countTicks tr)%nat ->
   status (run mount (ClickStart :: tr)) = finished) /\
  (status (run mount tr) = finished ->
   (forall t,
      (In t glitchTimes ->
       fired glitchAudio t (log (run mount tr)) = 1%nat) /\
      (In t textRevealTimes ->
       fired errorGlitch t (log (run mount tr)) = 1%nat)) /\
   played glitchAudio (run mount tr) = List.length glitchTimes /\
   played errorGlitch (run mount tr) = List.length textRevealTimes).
Proof.
  split.
  - intros Hk.
    change (run mount (ClickStart :: tr)) with (run (step mount ClickStart) tr).
    rewrite <- tickState_0, run_tickState by (unfold ticksToFinish; lia).
    rewrite Nat.min_r by lia. apply final_state.
  - intros Hfin.
    rewrite (reach_finished _ (reach_run tr mount reach_mount) Hfin).
    apply eachCueOnce_spec, final_cues.
Qed.

Lemma C2_each_cue_once_witness :
  let tr := ClickStart :: Rerender :: repeat Tick 500 ++
            [Rerender; ClickStart; Rerender] ++ repeat Tick 421 in
  status (run mount tr) = finished /\
  fired glitchAudio (Num.dec 5 1) (log (run mount tr)) = 1%nat /\
  fired errorGlitch (Num.dec 322 1) (log (run mount tr)) = 1%nat.
Proof.
  intros tr.
  assert (Hfin : status (run mount tr) = finished) by (vm_compute; reflexivity).
  split; [exact Hfin|].
  destruct (C2_each_cue_once tr) as [_ Hcue].
  destruct (Hcue Hfin) as [Hone _].
  split.
  - destruct (Hone (Num.dec 5 1)) as [Hg _]. apply Hg.
    left. reflexivity.
  - destruct (Hone (Num.dec 322 1)) as [_ Ht]. apply Ht.
    do 10 right. left. reflexivity.
Defined.

(** *** C3: the firing condition *)

(** The actions of one evaluation of the effect, newest first. *)
Lemma log_timelineEffect (s : State) :
  status s = playing -> glitchAudioRef s = true -> errorGlitchRef s = true ->
  let c := currentTime s in
  log (timelineEffect s) =
  (if Num.geb c totalDuration then [SetStatus finished] else []) ++
  (if existsb (fun t => near c t) textRevealTimes
   then [Play errorGlitch c] else []) ++
  (if near c (Num.dec 40 1) then [Play glitchAudio c] else []) ++
  (if near c (Num.dec 5 1) then [Play glitchAudio c] else []) ++
  log s.
Proof.
  intros Hst Hg He c. subst c. unfold timelineEffect. rewrite Hst.
  unfold setInterval, endCheck, textRevealCue, glitchCue. cbv zeta.
  destruct (near (currentTime s) (Num.dec 5 1));
    destruct (near (currentTime s) (Num.dec 40 1));
    destruct (existsb (fun t => near (currentTime s) t) textRevealTimes);
    destruct (Num.geb (currentTime s) totalDuration);
    cbn [glitchAudioRef errorGlitchRef playIfSet emit setStatus clearInterval
         setCleanup log currentTime app];
    rewrite ?Hg, ?He; reflexivity.
Qed.

(** The clock drifts: after 100 ticks it reads 9.9999999999999805, which
    is not the offset 10.0, and the cue at 10.0 fires all the same. *)
Lemma drifted_clock_fires :
  let c := currentTime (tickState 100) in
  c <> Num.dec 100 1 /\ near c (Num.dec 100 1) = true /\
  In (Play errorGlitch c) (log (tickState 100)) /\
  In (Num.dec 100 1) textRevealTimes.
Proof.
  vm_compute. split; [discriminate|]. split; [reflexivity|].
  split; [left; reflexivity|]. do 2 right. left. reflexivity.
Qed.

(** C3.  The tolerance 0.05 is half of the tick period 0.1, and one
    evaluation of the timeline effect, at clock [c] with the sequence
    playing, plays the glitch sound exactly when [|c - t| < 0.05] for one of
    the glitch offsets [t], and the text reveal sound exactly when
    [|c - t| < 0.05] for one of the text reveal times [t]; nothing else is
    played.  Equality of clock and offset is not required: the clock of the
    run after 100 ticks differs from the offset 10.0 and is within the
    tolerance of it. *)
Theorem C3_cue_within_tolerance (s : State) :
  status s = playing -> glitchAudioRef s = true -> errorGlitchRef s = true ->
  Num.add tolerance tolerance = tickStep /\
  (forall c t, near c t = Num.ltb (Num.abs (Num.sub c t)) (Num.dec 5 2)) /\
  (exists new,
    log (timelineEffect s) = new ++ log s /\
    forall a c,
      In (Play a c) new <->
      c = currentTime s /\
      ((a = glitchAudio /\ exists t, In t glitchTimes /\ near c t = true) \/
       (a = errorGlitch /\ exists t, In t textRevealTimes /\ near c t = true))) /\
  (exists n t, In t textRevealTimes /\ currentTime (tickState n) <> t /\
               near (currentTime (tickState n)) t = true).
Proof.
  intros Hst Hg He.
  split; [vm_compute; reflexivity|]. split; [reflexivity|].
  split;
    [|exists 100%nat, (Num.dec 100 1);
      destruct drifted_clock_fires as [Hne [Hnear [_ Hin]]]; auto].
  pose proof (log_timelineEffect s Hst Hg He) as Hlog. cbv zeta in Hlog.
  rewrite !app_assoc in Hlog.
  eexists. split; [exact Hlog|]. clear Hlog.
  intros a c.
  assert (He1 : existsb (fun t => near (currentTime s) t) textRevealTimes = true
                <-> exists t, In t textRevealTimes /\ near (currentTime s) t = true)
    by apply existsb_exists.
  assert (Hg1 : (exists t, In t glitchTimes /\ near (currentTime s) t = true)
                <-> near (currentTime s) (Num.dec 5 1) = true \/
                    near (currentTime s) (Num.dec 40 1) = true).
  { unfold glitchTimes. split.
    - intros [t [[<-|[<-|[]]] Ht]]; auto.
    - intros [H|H]; [exists (Num.dec 5 1)|exists (Num.dec 40 1)];
        (split; [|exact H]); [left|right; left]; reflexivity. }
  rewrite !in_app_iff.
  split.
  - intros [[[Hin|Hin]|Hin]|Hin].
    + destruct (Num.geb (currentTime s) totalDuration);
        [destruct Hin as [Hin|[]]; discriminate|destruct Hin].
    + destruct (existsb _ textRevealTimes) eqn:Hex; [|destruct Hin].
      destruct Hin as [Hin|[]]. injection Hin as <- <-.
      split; [reflexivity|]. right. split; [reflexivity|].
      apply He1. reflexivity.
    + destruct (near (currentTime s) (Num.dec 40 1)) eqn:Hn; [|destruct Hin].
      destruct Hin as [Hin|[]]. injection Hin as <- <-.
      split; [reflexivity|]. left. split; [reflexivity|].
      apply Hg1. right. reflexivity.
    + destruct (near (currentTime s) (Num.dec 5 1)) eqn:Hn; [|destruct Hin].
      destruct Hin as [Hin|[]]. injection Hin as <- <-.
      split; [reflexivity|]. left. split; [reflexivity|].
      apply Hg1. left. reflexivity.
  - intros [-> [[-> Hex]|[-> Hex]]].
    + apply Hg1 in Hex. destruct Hex as [H|H]; rewrite H.
      * right. left. reflexivity.
      * left. right. left. reflexivity.
    + apply He1 in Hex. rewrite Hex. left. left. right. left. reflexivity.
Qed.

Lemma C3_cue_within_tolerance_witness :
  status (tickState 100) = playing /\
  glitchAudioRef (tickState 100) = true /\
  errorGlitchRef (tickState 100) = true /\
  Num.add tolerance tolerance = tickStep.
Proof.
  assert (H : status (tickState 100) = playing /\
              glitchAudioRef (tickState 100) = true /\
              errorGlitchRef (tickState 100) = true)
    by (vm_compute; repeat split; reflexivity).
  destruct H as [H1 [H2 H3]].
  split; [exact H1|]. split; [exact H2|]. split; [exact H3|].
  exact (proj1 (C3_cue_within_tolerance (tickState 100) H1 H2 H3)).
Defined.

(** *** C4: the end of the sequence *)

Lemma currentTime_commit (s : State) : currentTime (commit s) = currentTime s.
Proof. unfold commit. rewrite !currentTime_renderOnce. reflexivity. Qed.

(** With one live interval a tick adds [0.1] to the clock once. *)
Lemma tick_one_interval (s : State) (i : nat) :
  intervals s = [i] ->
  currentTime (step s Tick) = Num.add (currentTime s) tickStep.
Proof.
  intros Hi. unfold step. rewrite Hi. cbn [fold_left].
  rewrite currentTime_commit. reflexivity.
Qed.

Lemma running_finishes (s : State) : running s = true -> finishes s = 0%nat.
Proof.
  unfold running. intros H. apply andb_prop in H as [_ H].
  apply Nat.eqb_eq, H.
Qed.

Lemma stopped_finishes (s : State) : stopped s = true -> finishes s = 1%nat.
Proof.
  unfold stopped. intros H. apply andb_prop in H as [_ H].
  apply Nat.eqb_eq, H.
Qed.

Lemma final_finishes : finishes (tickState ticksToFinish) = 1%nat.
Proof. apply stopped_finishes, final_stopped. Qed.

Lemma run_final (tr : list Event) :
  run (tickState ticksToFinish) tr = tickState ticksToFinish.
Proof.
  induction tr as [|e tr IH]; [reflexivity|].
  change (run (tickState ticksToFinish) (e :: tr))
    with (run (step (tickState ticksToFinish) e) tr).
  rewrite step_final. exact IH.
Qed.

Lemma running_tickState (n : nat) :
  (n < ticksToFinish)%nat -> running (tickState n) = true.
Proof.
  intros Hn. unfold ticksToFinish in Hn.
  apply (allAlong_spec running 920 started along_the_run n). lia.
Qed.

(** C4.  In every state the mounted component can reach: while the
    sequence plays its clock is below 92; the tick that takes the clock to
    92 or more moves the status to [finished], with [setStatus('finished')]
    called once and no interval left live; [finished] is never declared more
    than once; and from a finished state no event (tick, render or click on
    the place of the start button) changes anything, so the clock stays and
    no further cue sounds. *)
Theorem C4_finish_once_then_frozen (tr : list Event) :
  let s := run mount tr in
  (status s = playing -> Num.geb (currentTime s) totalDuration = false) /\
  (status s = playing ->
   Num.geb (Num.add (currentTime s) tickStep) totalDuration = true ->
   status (step s Tick) = finished /\ intervals (step s Tick) = [] /\
   finishes (step s Tick) = 1%nat) /\
  (finishes s <= 1)%nat /\
  (status s = finished ->
   finishes s = 1%nat /\ intervals s = [] /\ forall tr', run s tr' = s).
Proof.
  intros s. pose proof (reach_run tr mount reach_mount) as Hreach.
  fold s in Hreach. clearbody s.
  split; [|split; [|split]].
  - intros Hst. destruct (reach_playing s Hreach Hst) as [n [Hn ->]].
    apply (playing_before n Hn).
  - intros Hst Hge. destruct (reach_playing s Hreach Hst) as [n [Hn ->]].
    destruct (playing_before n Hn) as [_ [_ [[i [Hi _]] _]]].
    assert (Hlast : S n = ticksToFinish).
    { destruct (Nat.eq_dec (S n) ticksToFinish) as [E|Hne]; [exact E|].
      assert (Hlt : (S n < ticksToFinish)%nat) by lia.
      destruct (playing_before (S n) Hlt) as [_ [_ [_ Hbelow]]].
      rewrite tickState_S, (tick_one_interval _ i Hi), Hge in Hbelow.
      discriminate. }
    rewrite <- tickState_S, Hlast.
    destruct final_state as [Hf [Hno _]].
    split; [exact Hf|]. split; [exact Hno|]. apply final_finishes.
  - destruct Hreach as [-> | [n [Hn ->]]].
    + vm_compute. lia.
    + destruct (Nat.eq_dec n ticksToFinish) as [->|Hne].
      * rewrite final_finishes. lia.
      * rewrite (running_finishes _ (running_tickState n ltac:(lia))). lia.
  - intros Hst. rewrite (reach_finished s Hreach Hst).
    destruct final_state as [_ [Hno _]].
    split; [apply final_finishes|]. split; [exact Hno|]. apply run_final.
Qed.

Lemma C4_finish_once_then_frozen_witness :
  let s := run mount (ClickStart :: repeat Tick 920) in
  status s = playing /\
  Num.geb (Num.add (currentTime s) tickStep) totalDuration = true /\
  status (step s Tick) = finished.
Proof.
  intros s.
  assert (H : status s = playing /\
              Num.geb (Num.add (currentTime s) tickStep) totalDuration = true)
    by (vm_compute; split; reflexivity).
  destruct H as [H1 H2]. split; [exact H1|]. split; [exact H2|].
  destruct (C4_finish_once_then_frozen (ClickStart :: repeat Tick 920))
    as [_ [Hfin _]].
  exact (proj1 (Hfin H1 H2)).
Defined.

(** *** C5: starting while the sequence plays *)

Lemma countTicks_withoutStartClicks (tr : list Event) :
  countTicks (withoutStartClicks tr) = countTicks tr.
Proof.
  induction tr as [|e tr IH]; [reflexivity|].
  destruct e; unfold withoutStartClicks; cbn [filter];
    fold (withoutStartClicks tr); rewrite ?countTicks_cons, IH; reflexivity.
Qed.

(** C5.  In every state the mounted component can reach while the
    sequence plays, starting again is a silent no-op: the start button is
    rendered only while the status is [idle] (lines 142-154), so the click
    leaves the whole state as it is, the clock and the cues played so far
    included; exactly one 0.1-second interval is live after it; the next
    tick adds a single 0.1 to the clock; and whatever follows, the
    component ends in the same state, with the same cues played, as if no
    start click had been made after the first. *)
Theorem C5_start_while_playing_is_noop (tr after : list Event) :
  let s := run mount tr in
  status s = playing ->
  step s ClickStart = s /\
  (exists i, intervals (step s ClickStart) = [i]) /\
  currentTime (step (step s ClickStart) Tick) =
    Num.add (currentTime s) tickStep /\
  run s after = run s (withoutStartClicks after).
Proof.
  intros s Hst. pose proof (reach_run tr mount reach_mount) as Hreach.
  fold s in Hreach. clearbody s.
  assert (Hc : step s ClickStart = s)
    by (unfold step; rewrite Hst; reflexivity).
  destruct (reach_playing s Hreach Hst) as [n [Hn ->]].
  destruct (playing_before n Hn) as [_ [_ [[i [Hi _]] _]]].
  rewrite Hc. split; [reflexivity|]. split; [exists i; exact Hi|].
  split; [apply (tick_one_interval _ i Hi)|].
  rewrite !run_tickState by lia.
  rewrite countTicks_withoutStartClicks. reflexivity.
Qed.

Lemma C5_start_while_playing_is_noop_witness :
  let s := run mount (ClickStart :: repeat Tick 50) in
  status s = playing /\ step s ClickStart = s /\
  run s [ClickStart; Tick; ClickStart] = run s [Tick].
Proof.
  intros s.
  assert (H : status s = playing) by (vm_compute; reflexivity).
  split; [exact H|].
  destruct (C5_start_while_playing_is_noop (ClickStart :: repeat Tick 50)
              [ClickStart; Tick; ClickStart] H) as [H1 [_ [_ H4]]].
  split; [exact H1|exact H4].
Defined.

End EndingSceneFacts.

(* ------------------------------------------------------------------ *)
(** ** The counter client *)

Module ScamStatsFacts.

Import ScamStats.
Local Open Scope string_scope.

Lemma getCount_readCount (data : Value) (s : Stats) :
  getCount data s =
  match readCount data with
  | Some v => (Fulfilled v, s)
  | None => (Rejected "TypeError", s)
  end.
Proof. destruct data; reflexivity. Qed.

(** Runs the body of a call symbolically, splitting on how each request
    settles, on what [data.count] yields and on its truthiness. *)
Ltac run_call :=
  unfold usableCount, bodyOf, rejects;
  repeat (cbv beta iota
            delta [call incrementVisit incrementVictim fetchStats tryCatch
                   bind await promiseAll2 when setVisits setVictims
                   consoleError ret throw];
          cbn [fst snd visits victims console];
          rewrite ?getCount_readCount;
          match goal with
          | |- context [match ?x with _ => _ end] =>
              lazymatch x with
              | context [match _ with _ => _ end] => fail
              | _ => destruct x eqn:?
              end
          end);
  cbn [fst snd visits victims console].

(** No call ever rejects: whatever the network does, the promise returned
    to the caller is fulfilled. *)
Lemma call_resolves (c : Call) (fetch : Net) (s : Stats) :
  fst (call c fetch s) = Fulfilled tt.
Proof. destruct c; run_call; reflexivity. Qed.

(** What a call leaves in [visits]: the usable count of its request for
    that counter, or else the previous value. *)
Lemma visits_after (c : Call) (fetch : Net) (s : Stats) :
  visits (snd (call c fetch s)) = visits s \/
  exists url, visitsRequest c = Some url /\
    usableCount fetch url = Some (visits (snd (call c fetch s))).
Proof.
  destruct c.
  - assert (H : visits (snd (call IncrementVisit fetch s)) = visits s \/
      usableCount fetch (API_BASE ++ "/visits/up") = Some (visits (snd (call IncrementVisit fetch s)))).
    { run_call; auto. }
    destruct H as [H|H];
      [left; exact H|right; eexists; split; [reflexivity|exact H]].
  - left. run_call; reflexivity.
  - assert (H : visits (snd (call FetchStats fetch s)) = visits s \/
      usableCount fetch (API_BASE ++ "/visits") = Some (visits (snd (call FetchStats fetch s)))).
    { run_call; auto. }
    destruct H as [H|H];
      [left; exact H|right; eexists; split; [reflexivity|exact H]].
Qed.

Lemma victims_after (c : Call) (fetch : Net) (s : Stats) :
  victims (snd (call c fetch s)) = victims s \/
  exists url, victimsRequest c = Some url /\
    usableCount fetch url = Some (victims (snd (call c fetch s))).
Proof.
  destruct c.
  - left. run_call; reflexivity.
  - assert (H : victims (snd (call IncrementVictim fetch s)) = victims s \/
              usableCount fetch (API_BASE ++ "/victims/up") =
              Some (victims (snd (call IncrementVictim fetch s)))).
    { run_call; auto. }
    destruct H as [H|H];
      [left; exact H|right; eexists; split; [reflexivity|exact H]].
  - assert (H : victims (snd (call FetchStats fetch s)) = victims s \/
              usableCount fetch (API_BASE ++ "/victims") =
              Some (victims (snd (call FetchStats fetch s)))).
    { run_call; auto. }
    destruct H as [H|H];
      [left; exact H|right; eexists; split; [reflexivity|exact H]].
Qed.

(** A failed request of a call leaves both counters as they were. *)
Lemma failed_request_keeps (c : Call) (fetch : Net) (s : Stats) (url : string) :
  In url (requests c) -> rejects fetch url = true ->
  visits (snd (call c fetch s)) = visits s /\
  victims (snd (call c fetch s)) = victims s.
Proof.
  intros Hin Hrej.
  assert (Hgoal : rejects fetch url = false \/
                  (visits (snd (call c fetch s)) = visits s /\
                   victims (snd (call c fetch s)) = victims s)).
  { destruct c; cbn [requests In] in Hin;
      repeat match goal with
             | H : _ \/ _ |- _ => destruct H
             | H : False |- _ => destruct H
             end; subst url; run_call; auto; congruence. }
  destruct Hgoal as [H|H]; [congruence|exact H].
Qed.

Lemma usableCount_falsy (fetch : Net) (url : string) (d : Value) :
  bodyOf fetch url = Some d -> countIsFalsy d = true ->
  usableCount fetch url = None.
Proof.
  unfold usableCount, countIsFalsy. intros -> H.
  destruct (readCount d) as [v|]; [|reflexivity].
  apply negb_true_iff in H. rewrite H. reflexivity.
Qed.

Lemma usableCount_truthy (fetch : Net) (url : string) (v : Value) :
  usableCount fetch url = Some v -> truthy v = true.
Proof.
  unfold usableCount. destruct (bodyOf fetch url) as [d|]; [|discriminate].
  destruct (readCount d) as [w|]; [|discriminate].
  destruct (truthy w) eqn:Hw; [|discriminate].
  intros H. injection H as <-. exact Hw.
Qed.

(** A call changes neither counter on a count that cannot be read or is
    falsy. *)
Lemma falsy_count_keeps (c : Call) (fetch : Net) (s : Stats)
    (url : string) (d : Value) :
  bodyOf fetch url = Some d -> countIsFalsy d = true ->
  (visitsRequest c = Some url -> visits (snd (call c fetch s)) = visits s) /\
  (victimsRequest c = Some url -> victims (snd (call c fetch s)) = victims s).
Proof.
  intros Hbody Hfalsy.
  pose proof (usableCount_falsy fetch url d Hbody Hfalsy) as Hnone.
  split; intros Hreq.
  - destruct (visits_after c fetch s) as [H|[u [Hu H]]]; [exact H|].
    congruence.
  - destruct (victims_after c fetch s) as [H|[u [Hu H]]]; [exact H|].
    congruence.
Qed.

(** *** C6: failures are swallowed *)

(** C6.  When a request of a call fails, by [fetch] rejecting or by the
    body not parsing, the promise of the call is fulfilled all the same and
    [visits] and [victims] keep their values. *)
Theorem C6_fail_open (c : Call) (fetch : Net) (s : Stats) (url : string) :
  In url (requests c) -> rejects fetch url = true ->
  fst (call c fetch s) = Fulfilled tt /\
  visits (snd (call c fetch s)) = visits s /\
  victims (snd (call c fetch s)) = victims s.
Proof.
  intros Hin Hrej. split; [apply call_resolves|].
  apply (failed_request_keeps c fetch s url Hin Hrej).
Qed.

Lemma C6_fail_open_witness :
  let s := mkStats (VNumber (Num.ofZ 42)) (VNumber (Num.ofZ 7)) [] in
  fst (fetchStats offline s) = Fulfilled tt /\
  visits (snd (fetchStats offline s)) = VNumber (Num.ofZ 42) /\
  victims (snd (fetchStats offline s)) = VNumber (Num.ofZ 7).
Proof.
  intros s.
  apply (C6_fail_open FetchStats offline s (API_BASE ++ "/victims")).
  - right. left. reflexivity.
  - reflexivity.
Defined.

(** Scenario C of the specification: a bump answered with count 42 shows
    42; a following bump that meets a network error leaves 42. *)
Example bump_then_network_error :
  let s1 := snd (incrementVictim
                   (replyWith (VObject [("count", VNumber (Num.ofZ 42))]))
                   initial) in
  let s2 := snd (incrementVictim offline s1) in
  victims s1 = VNumber (Num.ofZ 42) /\ victims s2 = VNumber (Num.ofZ 42).
Proof. vm_compute. split; reflexivity. Qed.

(** *** C7: a missing count *)

(** C7, as stated, fails: a body whose count is the string "unavailable"
    has no numeric count, and the displayed value 42 is overwritten by that
    string. *)
Lemma C7_counterexample :
  let body := VObject [("count", VString "unavailable")] in
  let s := mkStats (VNumber (Num.ofZ 42)) (VNumber (Num.ofZ 7)) [] in
  hasNumericCount body = false /\
  visits (snd (incrementVisit (replyWith body) s)) = VString "unavailable" /\
  visits (snd (incrementVisit (replyWith body) s)) <> visits s.
Proof.
  vm_compute. split; [reflexivity|]. split; [reflexivity|discriminate].
Qed.

(** C7 (amended).  When the body answering the request for a counter has
    a count that cannot be read or is falsy (absent, [null], [false], zero,
    NaN or the empty string), the call leaves the displayed value of that
    counter unchanged. *)
Theorem C7_falsy_count_keeps_value (c : Call) (fetch : Net) (s : Stats)
    (url : string) (d : Value) :
  bodyOf fetch url = Some d -> countIsFalsy d = true ->
  (visitsRequest c = Some url -> visits (snd (call c fetch s)) = visits s) /\
  (victimsRequest c = Some url -> victims (snd (call c fetch s)) = victims s).
Proof.
  apply falsy_count_keeps.
Qed.

Lemma C7_falsy_count_keeps_value_witness :
  let fetch := replyWith (VObject [("value", VNumber (Num.ofZ 5))]) in
  let s := mkStats (VNumber (Num.ofZ 42)) (VNumber (Num.ofZ 7)) [] in
  visits (snd (incrementVisit fetch s)) = VNumber (Num.ofZ 42).
Proof.
  intros fetch s.
  apply (C7_falsy_count_keeps_value IncrementVisit fetch s
           (API_BASE ++ "/visits/up") (VObject [("value", VNumber (Num.ofZ 5))]));
    reflexivity.
Defined.

(** *** C8: a count of zero *)

(** C8, as stated, fails in its consequence: a body whose count is the
    string "12" changes the displayed value to that string, which is not a
    number. *)
Lemma C8_counterexample :
  let body := VObject [("count", VString "12")] in
  let s' := snd (incrementVictim (replyWith body) initial) in
  victims s' <> victims initial /\ isNumber (victims s') = false.
Proof. vm_compute. split; [discriminate|reflexivity]. Qed.

(** C8 (amended).  A body whose count is the number zero does not update
    the displayed value, because every update is guarded by the truthiness
    of [data.count]; consequently [visits] and [victims] only ever change to
    a truthy value, which, when it is a number, is neither zero nor NaN. *)
Theorem C8_zero_count_ignored (c : Call) (fetch : Net) (s : Stats) :
  (forall url d sgn,
     bodyOf fetch url = Some d ->
     readCount d = Some (VNumber (S754_zero sgn)) ->
     (visitsRequest c = Some url -> visits (snd (call c fetch s)) = visits s) /\
     (victimsRequest c = Some url ->
      victims (snd (call c fetch s)) = victims s)) /\
  (visits (snd (call c fetch s)) <> visits s ->
   truthy (visits (snd (call c fetch s))) = true /\
   forall n, visits (snd (call c fetch s)) = VNumber n ->
             forall sgn, n <> S754_zero sgn /\ n <> S754_nan) /\
  (victims (snd (call c fetch s)) <> victims s ->
   truthy (victims (snd (call c fetch s))) = true /\
   forall n, victims (snd (call c fetch s)) = VNumber n ->
             forall sgn, n <> S754_zero sgn /\ n <> S754_nan).
Proof.
  assert (Hnum : forall v, truthy v = true ->
            forall n, v = VNumber n ->
            forall sgn, n <> S754_zero sgn /\ n <> S754_nan).
  { intros v Hv n -> sgn. split; intros ->; discriminate. }
  split; [|split].
  - intros url d sgn Hbody Hzero.
    apply (falsy_count_keeps c fetch s url d Hbody).
    unfold countIsFalsy. rewrite Hzero. reflexivity.
  - intros Hch. destruct (visits_after c fetch s) as [H|[u [_ H]]];
      [contradiction|].
    pose proof (usableCount_truthy _ _ _ H) as Ht. split; [exact Ht|].
    apply Hnum, Ht.
  - intros Hch. destruct (victims_after c fetch s) as [H|[u [_ H]]];
      [contradiction|].
    pose proof (usableCount_truthy _ _ _ H) as Ht. split; [exact Ht|].
    apply Hnum, Ht.
Qed.

Lemma C8_zero_count_ignored_witness :
  let fetch := replyWith (VObject [("count", VNumber (Num.ofZ 0))]) in
  let s := mkStats (VNumber (Num.ofZ 42)) (VNumber (Num.ofZ 7)) [] in
  victims (snd (fetchStats fetch s)) = VNumber (Num.ofZ 7).
Proof.
  intros fetch s.
  destruct (C8_zero_count_ignored FetchStats fetch s) as [Hzero _].
  apply (Hzero (API_BASE ++ "/victims")
               (VObject [("count", VNumber (Num.ofZ 0))]) false);
    reflexivity.
Defined.

End ScamStatsFacts.

(* ------------------------------------------------------------------ *)
(** ** The gift box *)

Module GiftBoxFacts.

Import GiftBox.
Local Open Scope nat_scope.

Lemma quiet_refl (s : State) : quiet s s.
Proof. split; reflexivity. Qed.

Lemma openEffect_cases (p : Props) (s : State) :
  quiet s (openEffect p s) \/ opening s (openEffect p s).
Proof.
  unfold openEffect.
  destruct (variant p); [|left; apply quiet_refl].
  destruct (isOpen s); [|left; apply quiet_refl].
  destruct (audioRef s) as [url|] eqn:Ha; [|left; apply quiet_refl].
  destruct (hasPlayedRef s) eqn:Hp; [left; apply quiet_refl|].
  right. unfold opening, plays, onOpenCalls, play.
  cbn [setHasPlayedRef audioRef]. rewrite Ha.
  destruct (onOpen p); cbn; repeat split; try exact Hp; lia.
Qed.

Lemma commit_cases (p : Props) (s : State) :
  quiet s (commit p s) \/ opening s (commit p s).
Proof.
  unfold commit.
  set (s1 := match audioDeps s with
             | Some u => if String.eqb u (soundUrl p) then s
                         else setAudioDeps (Some (soundUrl p)) (audioEffect p s)
             | None => setAudioDeps (Some (soundUrl p)) (audioEffect p s)
             end).
  assert (H1 : log s1 = log s /\ hasPlayedRef s1 = hasPlayedRef s).
  { subst s1. destruct (audioDeps s) as [u|];
      [destruct (String.eqb u (soundUrl p))|]; split; reflexivity. }
  destruct H1 as [Hl Hp].
  assert (H2 : quiet s1 (openEffect p s1) \/ opening s1 (openEffect p s1))
    by apply openEffect_cases.
  assert (Hq : forall s2 d, quiet s1 s2 \/ opening s1 s2 ->
                 quiet s (setOpenDeps d s2) \/ opening s (setOpenDeps d s2)).
  { intros s2 d [[Ha Hb]|[Ha [Hb [Hc [Hd He]]]]]; [left|right];
      unfold quiet, opening, plays, onOpenCalls in *;
      cbn [setOpenDeps log hasPlayedRef]; rewrite <- ?Hl, <- ?Hp; auto. }
  cbv zeta.
  destruct (openDeps s1) as [d'|];
    [destruct (OpenDeps_eq_dec d' (isOpen s1, onOpen p, variant p))|];
    try (apply Hq; exact H2).
  left. split; assumption.
Qed.

(** The state changes made by the handlers leave the trace and the ref
    alone. *)
Lemma handleClick_open_quiet (p : Props) (s : State) :
  variant p = open -> quiet s (handleClick p s).
Proof.
  intros Hv. unfold handleClick. rewrite Hv.
  destruct (negb (isDropped p)); split; reflexivity.
Qed.

Lemma handleClick_calls (p : Props) (s : State) :
  onOpenCalls (handleClick p s) = onOpenCalls s /\
  hasPlayedRef (handleClick p s) = hasPlayedRef s.
Proof.
  unfold handleClick, triggerShake, play, onOpenCalls.
  destruct (negb (isDropped p)); [split; reflexivity|].
  destruct (variant p); [split; reflexivity|].
  cbn [setIsShaking audioRef]. destruct (audioRef s); split; reflexivity.
Qed.

Lemma guarded_quiet (s s' : State) : quiet s s' -> guarded s -> guarded s'.
Proof.
  intros [Hl Hp] [H0 [H1 H2]]. unfold guarded, plays, onOpenCalls in *.
  rewrite Hl, Hp. auto.
Qed.

Lemma guarded_opening (s s' : State) : opening s s' -> guarded s -> guarded s'.
Proof.
  intros [Ha [Hb [Hc [Hd He]]]] [H0 _]. destruct (H0 Ha) as [Hp Hc0].
  unfold guarded. rewrite Hb. repeat split; try discriminate; lia.
Qed.

Lemma guarded_commit (p : Props) (s : State) :
  guarded s -> guarded (commit p s).
Proof.
  intros H. destruct (commit_cases p s) as [Hq|Ho].
  - apply (guarded_quiet s _ Hq H).
  - apply (guarded_opening s _ Ho H).
Qed.

Lemma callGuarded_commit (p : Props) (s : State) :
  callGuarded s -> callGuarded (commit p s).
Proof.
  intros [H0 H1]. unfold callGuarded.
  destruct (commit_cases p s) as [[Hl Hp]|[Ha [Hb [Hc [Hd He]]]]].
  - unfold onOpenCalls in *. rewrite Hl, Hp. auto.
  - rewrite Hb. pose proof (H0 Ha). split; [discriminate|lia].
Qed.

Lemma guarded_mount (p : Props) : guarded (mount p).
Proof.
  apply guarded_commit. unfold guarded, plays, onOpenCalls. cbn. auto.
Qed.

(** An open-variant box stays guarded whatever happens to it. *)
Lemma guarded_step (p : Props) (s : State) (e : Event) :
  variant p = open ->
  staysOpenVariant [e] = true ->
  guarded s ->
  variant (fst (step (p, s) e)) = open /\ guarded (snd (step (p, s) e)).
Proof.
  intros Hv He Hg. destruct e as [p'| | | |]; cbn [step fst snd].
  - cbn in He. destruct (Variant_eq_dec (variant p') open) as [Hv'|];
      [|discriminate].
    split; [exact Hv'|]. apply guarded_commit, Hg.
  - split; [exact Hv|]. apply guarded_commit.
    apply (guarded_quiet s _ (handleClick_open_quiet p s Hv) Hg).
  - destruct (rendersNull p); cbn [fst snd]; split; try assumption.
    apply guarded_commit. destruct (negb (isOpen s)); [|exact Hg].
    apply (guarded_quiet s); [split; reflexivity|exact Hg].
  - destruct (rendersNull p); cbn [fst snd]; split; try assumption.
    apply guarded_commit.
    apply (guarded_quiet s); [split; reflexivity|exact Hg].
  - destruct (shakeTimers s); cbn [fst snd]; split; try assumption.
    apply guarded_commit.
    apply (guarded_quiet s); [split; reflexivity|exact Hg].
Qed.

Lemma guarded_run (evs : list Event) :
  forall p s, variant p = open -> staysOpenVariant evs = true -> guarded s ->
  guarded (snd (run (p, s) evs)).
Proof.
  induction evs as [|e evs IH]; intros p s Hv He Hg; [exact Hg|].
  cbn [run fold_left].
  assert (He1 : staysOpenVariant [e] = true /\ staysOpenVariant evs = true).
  { unfold staysOpenVariant in *. cbn [forallb] in *.
    apply andb_prop in He as [Ha Hb]. rewrite Ha. auto. }
  destruct He1 as [He1 He2].
  destruct (guarded_step p s e Hv He1 Hg) as [Hv' Hg'].
  destruct (step (p, s) e) as [p' s'] eqn:Hstep. cbn [fst snd] in *.
  apply (IH p' s' Hv' He2 Hg').
Qed.

Lemma callGuarded_step (m : Mounted) (e : Event) :
  callGuarded (snd m) -> callGuarded (snd (step m e)).
Proof.
  destruct m as [p s]. intros Hg. cbn [snd] in Hg.
  assert (Hset : forall s', log s' = log s ->
                   hasPlayedRef s' = hasPlayedRef s -> callGuarded s').
  { intros s' Hl Hp. destruct Hg as [H0 H1].
    unfold callGuarded, onOpenCalls in *. rewrite Hl, Hp. auto. }
  destruct e as [p'| | | |]; cbn [step fst snd].
  - apply callGuarded_commit, Hg.
  - apply callGuarded_commit.
    destruct (handleClick_calls p s) as [Hc Hp], Hg as [H0 H1].
    unfold callGuarded. rewrite Hc, Hp. auto.
  - destruct (rendersNull p); cbn [snd]; [exact Hg|].
    apply callGuarded_commit. destruct (negb (isOpen s)); [|exact Hg].
    apply Hset; reflexivity.
  - destruct (rendersNull p); cbn [snd]; [exact Hg|].
    apply callGuarded_commit, Hset; reflexivity.
  - destruct (shakeTimers s); cbn [snd]; [exact Hg|].
    apply callGuarded_commit, Hset; reflexivity.
Qed.

Lemma callGuarded_run (evs : list Event) :
  forall m, callGuarded (snd m) -> callGuarded (snd (run m evs)).
Proof.
  induction evs as [|e evs IH]; intros m Hg; [exact Hg|].
  cbn [run fold_left]. apply IH, callGuarded_step, Hg.
Qed.

(** *** C9: a box that has not dropped *)

Lemma isOpen_openEffect (p : Props) (s : State) :
  isOpen (openEffect p s) = isOpen s.
Proof.
  unfold openEffect, play.
  destruct (variant p); [|reflexivity].
  destruct (isOpen s) eqn:Ho; [|exact Ho].
  destruct (audioRef s) as [url|] eqn:Ha; [|exact Ho].
  destruct (hasPlayedRef s); [exact Ho|].
  cbn [setHasPlayedRef audioRef]. rewrite Ha.
  destruct (onOpen p); exact Ho.
Qed.

Lemma OpenDeps_eq_refl (d : OpenDeps) (A : Type) (x y : A) :
  (if OpenDeps_eq_dec d d then x else y) = x.
Proof. destruct (OpenDeps_eq_dec d d); congruence. Qed.

(** After a render the dependency arrays are those of the props and
    state. *)
Lemma commit_deps (p : Props) (s : State) :
  (exists u, audioDeps (commit p s) = Some u /\
             String.eqb u (soundUrl p) = true) /\
  openDeps (commit p s) = Some (isOpen (commit p s), onOpen p, variant p).
Proof.
  unfold commit.
  set (s1 := match audioDeps s with
             | Some u => if String.eqb u (soundUrl p) then s
                         else setAudioDeps (Some (soundUrl p)) (audioEffect p s)
             | None => setAudioDeps (Some (soundUrl p)) (audioEffect p s)
             end).
  assert (Ha1 : exists u, audioDeps s1 = Some u /\
                          String.eqb u (soundUrl p) = true).
  { subst s1. destruct (audioDeps s) as [u|] eqn:Hu;
      [destruct (String.eqb u (soundUrl p)) eqn:He|].
    - exists u. auto.
    - exists (soundUrl p). split; [reflexivity|apply String.eqb_refl].
    - exists (soundUrl p). split; [reflexivity|apply String.eqb_refl]. }
  assert (Hkeep : audioDeps (openEffect p s1) = audioDeps s1).
  { unfold openEffect, play.
    destruct (variant p); [|reflexivity].
    destruct (isOpen s1); [|reflexivity].
    destruct (audioRef s1) as [url|] eqn:Ha; [|reflexivity].
    destruct (hasPlayedRef s1); [reflexivity|].
    cbn [setHasPlayedRef audioRef]. rewrite Ha.
    destruct (onOpen p); reflexivity. }
  cbv zeta.
  destruct (openDeps s1) as [d'|] eqn:Hd;
    [destruct (OpenDeps_eq_dec d' (isOpen s1, onOpen p, variant p))
       as [->|]|];
    cbn [setOpenDeps openDeps audioDeps isOpen];
    rewrite ?isOpen_openEffect, ?Hkeep; auto.
Qed.

(** A second render with the same props and state runs no effect. *)
Lemma commit_idem (p : Props) (s : State) : commit p (commit p s) = commit p s.
Proof.
  destruct (commit_deps p s) as [[u [Ha Hu]] Ho].
  unfold commit at 1. rewrite Ha, Hu. cbv zeta. rewrite Ho.
  apply OpenDeps_eq_refl.
Qed.

Lemma mount_fresh (p : Props) :
  isOpen (mount p) = false /\ isShaking (mount p) = false /\
  plays (mount p) = 0 /\ onOpenCalls (mount p) = 0.
Proof.
  unfold mount, commit, openEffect, plays, onOpenCalls. cbn.
  destruct (variant p); cbn; auto.
Qed.

(** C9.  While [isDropped] is false the box renders nothing and
    [handleClick] returns at once: the state it is given comes back
    unchanged.  In particular, clicking a box that has just been mounted any
    number of times leaves it as mounted, with [isOpen] and [isShaking]
    false and no sound played. *)
Theorem C9_undropped_click_is_inert (p : Props) (s : State) :
  isDropped p = false ->
  rendersNull p = true /\
  handleClick p s = s /\
  (forall n, run (p, mount p) (repeat Click n) = (p, mount p)) /\
  isOpen (mount p) = false /\ isShaking (mount p) = false /\
  plays (mount p) = 0.
Proof.
  intros Hd.
  assert (Hclick : forall s', handleClick p s' = s').
  { intros s'. unfold handleClick. rewrite Hd. reflexivity. }
  split; [unfold rendersNull; rewrite Hd; reflexivity|].
  split; [apply Hclick|].
  split.
  - induction n as [|n IH]; [reflexivity|].
    cbn [repeat run fold_left step]. rewrite Hclick.
    unfold mount at 1. rewrite commit_idem. exact IH.
  - destruct (mount_fresh p) as [H1 [H2 [H3 _]]]. auto.
Qed.

Lemma C9_undropped_click_is_inert_witness :
  let p := mainBox false 0 in
  isDropped p = false /\
  run (p, mount p) [Click; Click; Click] = (p, mount p).
Proof.
  intros p. split; [reflexivity|].
  destruct (C9_undropped_click_is_inert p (mount p) eq_refl)
    as [_ [_ [Hrun _]]].
  exact (Hrun 3).
Defined.

(** *** C10: the opening happens once *)

(** Whatever the props and events, [onOpen] is called at most once. *)
Lemma onOpen_at_most_once (p : Props) (evs : list Event) :
  onOpenCalls (snd (run (p, mount p) evs)) <= 1.
Proof.
  apply (callGuarded_run evs (p, mount p)). cbn [snd].
  unfold mount. apply callGuarded_commit.
  unfold callGuarded, onOpenCalls. cbn. auto.
Qed.

(** C10.  For a box whose variant is ['open'] in every render, whatever
    re-renders (each with a new [onOpen] closure), clicks, pointer moves and
    timers occur after mounting, the opening sound is played at most once
    and [onOpen] is called at most once; for the main box this means at most
    one call of [incrementVictim]. *)
Theorem C10_opened_at_most_once (p : Props) (evs : list Event) :
  variant p = open -> staysOpenVariant evs = true ->
  plays (snd (run (p, mount p) evs)) <= 1 /\
  onOpenCalls (snd (run (p, mount p) evs)) <= 1 /\
  victimIncrements (snd (run (p, mount p) evs)) <= 1.
Proof.
  intros Hv He.
  destruct (guarded_run evs p (mount p) Hv He (guarded_mount p))
    as [_ [Hp Hc]].
  unfold victimIncrements. auto.
Qed.

Lemma C10_opened_at_most_once_witness :
  let evs := [Render (mainBox true 1); Click; Render (mainBox true 2);
              Click; Click; PointerOver; Render (mainBox true 3)] in
  let s := snd (run (mainBox false 0, mount (mainBox false 0)) evs) in
  plays s <= 1 /\ onOpenCalls s <= 1 /\ victimIncrements s <= 1.
Proof.
  intros evs s.
  apply (C10_opened_at_most_once (mainBox false 0) evs); reflexivity.
Defined.

(** In that run the box does open: the sound and the callback happen
    exactly once, on the first click after the drop. *)
Example main_box_opens_once :
  let evs := [Render (mainBox true 1); Click; Render (mainBox true 2);
              Click; Click; PointerOver; Render (mainBox true 3)] in
  let s := snd (run (mainBox false 0, mount (mainBox false 0)) evs) in
  log s = [CallOnOpen 1; PlayAudio "/message.mp3"].
Proof. vm_compute. reflexivity. Qed.

End GiftBoxFacts.

(* ------------------------------------------------------------------ *)
(** ** The counter client in use *)

Module StatsUseFacts.

Import ScamStats StatsUse ScamStatsFacts.
Local Open Scope string_scope.

(** X1.  A bump touches only its own counter: [incrementVisit] leaves
    [victims] alone and [incrementVictim] leaves [visits] alone, whatever
    the network answers. *)
Theorem bump_leaves_other_counter (fetch : Net) (s : Stats) :
  victims (snd (incrementVisit fetch s)) = victims s /\
  visits (snd (incrementVictim fetch s)) = visits s.
Proof. split; run_call; reflexivity. Qed.

Lemma incrementVisit_stores (fetch : Net) (s : Stats) :
  match usableCount fetch (API_BASE ++ "/visits/up") with
  | Some w => snd (incrementVisit fetch s) = mkStats w (victims s) (console s)
  | None => True
  end.
Proof. run_call; auto. Qed.

Lemma incrementVictim_stores (fetch : Net) (s : Stats) :
  match usableCount fetch (API_BASE ++ "/victims/up") with
  | Some w => snd (incrementVictim fetch s) = mkStats (visits s) w (console s)
  | None => True
  end.
Proof. run_call; auto. Qed.

(** X2.  A bump whose answer carries a truthy count stores exactly that
    count and writes nothing to the console. *)
Theorem bump_stores_count (fetch : Net) (s : Stats) (v : Value) :
  (usableCount fetch (API_BASE ++ "/visits/up") = Some v ->
   snd (incrementVisit fetch s) = mkStats v (victims s) (console s)) /\
  (usableCount fetch (API_BASE ++ "/victims/up") = Some v ->
   snd (incrementVictim fetch s) = mkStats (visits s) v (console s)).
Proof.
  split; intros H.
  - pose proof (incrementVisit_stores fetch s) as G.
    rewrite H in G. exact G.
  - pose proof (incrementVictim_stores fetch s) as G.
    rewrite H in G. exact G.
Qed.

Lemma bump_stores_count_witness :
  snd (incrementVisit (replyWith (VObject [("count", VNumber (Num.ofZ 42))]))
         initial)
  = mkStats (VNumber (Num.ofZ 42)) (VNumber (Num.ofZ 0)) [].
Proof.
  apply (proj1 (bump_stores_count _ initial (VNumber (Num.ofZ 42)))).
  reflexivity.
Defined.

(** X3.  When both answers of [fetchStats] have a readable [count], the
    two counters are updated independently: each takes its count if it is
    truthy and keeps its value otherwise; nothing is written to the
    console. *)
Theorem fetchStats_updates_independently (fetch : Net) (s : Stats)
    (d1 d2 c1 c2 : Value) :
  bodyOf fetch (API_BASE ++ "/visits") = Some d1 ->
  bodyOf fetch (API_BASE ++ "/victims") = Some d2 ->
  readCount d1 = Some c1 -> readCount d2 = Some c2 ->
  snd (fetchStats fetch s) =
  mkStats (if truthy c1 then c1 else visits s)
          (if truthy c2 then c2 else victims s)
          (console s).
Proof.
  intros H1 H2 R1 R2.
  assert (G : match bodyOf fetch (API_BASE ++ "/visits"),
                    bodyOf fetch (API_BASE ++ "/victims") with
              | Some e1, Some e2 =>
                  match readCount e1, readCount e2 with
                  | Some k1, Some k2 =>
                      snd (fetchStats fetch s) =
                      mkStats (if truthy k1 then k1 else visits s)
                              (if truthy k2 then k2 else victims s)
                              (console s)
                  | _, _ => True
                  end
              | _, _ => True
              end).
  { run_call; auto; try congruence; destruct s; cbn in *; congruence. }
  rewrite H1, H2, R1, R2 in G. exact G.
Qed.

Lemma fetchStats_updates_independently_witness :
  let fetch := fun url : string =>
    if String.eqb url (API_BASE ++ "/visits")
    then Fulfilled (mkResponse 200
                      (Fulfilled (VObject [("count", VNumber (Num.ofZ 12))])))
    else Fulfilled (mkResponse 200
                      (Fulfilled (VObject [("count", VNumber (Num.ofZ 0))]))) in
  let s := mkStats (VNumber (Num.ofZ 3)) (VNumber (Num.ofZ 7)) [] in
  snd (fetchStats fetch s) = mkStats (VNumber (Num.ofZ 12)) (VNumber (Num.ofZ 7)) [].
Proof.
  intros fetch s.
  apply (fetchStats_updates_independently fetch s
           (VObject [("count", VNumber (Num.ofZ 12))])
           (VObject [("count", VNumber (Num.ofZ 0))])
           (VNumber (Num.ofZ 12)) (VNumber (Num.ofZ 0)));
    reflexivity.
Defined.

(** X4.  [fetchStats] is not all-or-nothing, and the order of its two
    updates shows: when reading [count] from the visits body throws (the
    body is [null]), neither counter changes, even if the victims body has a
    usable count; when only the victims body is unreadable, [visits] has
    already been updated and stays so.  Either way one line goes to the
    console. *)
Theorem fetchStats_update_order (fetch : Net) (s : Stats) (d1 d2 : Value) :
  bodyOf fetch (API_BASE ++ "/visits") = Some d1 ->
  bodyOf fetch (API_BASE ++ "/victims") = Some d2 ->
  (readCount d1 = None ->
   snd (fetchStats fetch s) =
   mkStats (visits s) (victims s) ("Failed to fetch stats" :: console s)) /\
  (forall c1, readCount d1 = Some c1 -> readCount d2 = None ->
   snd (fetchStats fetch s) =
   mkStats (if truthy c1 then c1 else visits s) (victims s)
           ("Failed to fetch stats" :: console s)).
Proof.
  intros H1 H2.
  assert (G : match bodyOf fetch (API_BASE ++ "/visits"),
                    bodyOf fetch (API_BASE ++ "/victims") with
              | Some e1, Some e2 =>
                  match readCount e1, readCount e2 with
                  | None, _ =>
                      snd (fetchStats fetch s) =
                      mkStats (visits s) (victims s)
                              ("Failed to fetch stats" :: console s)
                  | Some k1, None =>
                      snd (fetchStats fetch s) =
                      mkStats (if truthy k1 then k1 else visits s) (victims s)
                              ("Failed to fetch stats" :: console s)
                  | _, _ => True
                  end
              | _, _ => True
              end).
  { run_call; auto; try congruence; destruct s; cbn in *; congruence. }
  rewrite H1, H2 in G. split.
  - intros R1. rewrite R1 in G. exact G.
  - intros c1 R1 R2. rewrite R1, R2 in G. exact G.
Qed.

Lemma fetchStats_update_order_witness :
  let fetch := fun url : string =>
    if String.eqb url (API_BASE ++ "/visits")
    then Fulfilled (mkResponse 200
                      (Fulfilled (VObject [("count", VNumber (Num.ofZ 12))])))
    else Fulfilled (mkResponse 200 (Fulfilled VNull)) in
  let s := mkStats (VNumber (Num.ofZ 3)) (VNumber (Num.ofZ 7)) [] in
  snd (fetchStats fetch s) =
  mkStats (VNumber (Num.ofZ 12)) (VNumber (Num.ofZ 7))
          ["Failed to fetch stats"].
Proof.
  intros fetch s.
  destruct (fetchStats_update_order fetch s
              (VObject [("count", VNumber (Num.ofZ 12))]) VNull
              eq_refl eq_refl) as [_ H].
  apply (H (VNumber (Num.ofZ 12))); reflexivity.
Defined.

(** X5.  A call writes at most one line to the console and never removes
    one; it writes its line whenever one of its requests fails. *)
Theorem console_one_line_per_failure (c : Call) (fetch : Net) (s : Stats) :
  (console (snd (call c fetch s)) = console s \/
   console (snd (call c fetch s)) = errorMessage c :: console s) /\
  ((exists url, In url (requests c) /\ rejects fetch url = true) ->
   console (snd (call c fetch s)) = errorMessage c :: console s).
Proof.
  split.
  - destruct c; run_call; auto.
  - intros [url [Hin Hrej]].
    assert (G : rejects fetch url = false \/
                console (snd (call c fetch s)) = errorMessage c :: console s).
    { destruct c; cbn [requests In] in Hin;
        repeat match goal with
               | H : _ \/ _ |- _ => destruct H
               | H : False |- _ => destruct H
               end; subst url; run_call; auto; congruence. }
    destruct G as [G|G]; [congruence|exact G].
Qed.

Lemma console_one_line_per_failure_witness :
  console (snd (call FetchStats offline initial)) = ["Failed to fetch stats"].
Proof.
  apply (proj2 (console_one_line_per_failure FetchStats offline initial)).
  exists (API_BASE ++ "/visits"). split; [left; reflexivity|reflexivity].
Defined.

(** X6.  Repeating a call against the same network changes no counter
    further: the counters after two calls are those after one. *)
Theorem call_twice_same_counters (c : Call) (fetch : Net) (s : Stats) :
  visits (snd (call c fetch (snd (call c fetch s)))) =
    visits (snd (call c fetch s)) /\
  victims (snd (call c fetch (snd (call c fetch s)))) =
    victims (snd (call c fetch s)).
Proof.
  split; destruct c; run_call; auto; congruence.
Qed.

Lemma request_listed (c : Call) (url : string) :
  visitsRequest c = Some url \/ victimsRequest c = Some url ->
  In url (requests c).
Proof.
  destruct c; cbn; intros [H|H]; try discriminate; injection H as <-; auto.
Qed.

Lemma bringsNothing_spec (c : Call) (fetch : Net) (url : string) :
  bringsNothing (c, fetch) = true -> In url (requests c) ->
  usableCount fetch url = None.
Proof.
  unfold bringsNothing. cbn [fst snd]. rewrite forallb_forall.
  intros H Hin. specialize (H url Hin).
  destruct (usableCount fetch url); [discriminate|reflexivity].
Qed.

Lemma runCalls_keeps (l : list (Call * Net)) :
  forall s, forallb bringsNothing l = true ->
  visits (runCalls l s) = visits s /\ victims (runCalls l s) = victims s.
Proof.
  induction l as [|[c fetch] l IH]; intros s H; [split; reflexivity|].
  cbn [forallb] in H. apply andb_prop in H as [Hc Hl].
  unfold runCalls. cbn [fold_left fst snd].
  destruct (IH (snd (call c fetch s)) Hl) as [Hv Hw].
  unfold runCalls in Hv, Hw. rewrite Hv, Hw. split.
  - destruct (visits_after c fetch s) as [H|[u [Hu H]]]; [exact H|].
    rewrite (bringsNothing_spec c fetch u Hc) in H; [discriminate|].
    apply request_listed. auto.
  - destruct (victims_after c fetch s) as [H|[u [Hu H]]]; [exact H|].
    rewrite (bringsNothing_spec c fetch u Hc) in H; [discriminate|].
    apply request_listed. auto.
Qed.

(** X7.  The overlay starts with the placeholder for both counters and
    keeps it through any sequence of calls none of which brings a count that
    passes the guard (failed requests, unreadable, missing or falsy
    counts). *)
Theorem overlay_placeholder_until_count
    (coerce : Value -> Num.number) (l : list (Call * Net)) :
  forallb bringsNothing l = true ->
  display coerce (visits (runCalls l initial)) = Placeholder /\
  display coerce (victims (runCalls l initial)) = Placeholder.
Proof.
  intros H. destruct (runCalls_keeps l initial H) as [Hv Hw].
  rewrite Hv, Hw. split; reflexivity.
Qed.

Lemma overlay_placeholder_until_count_witness :
  let l := [(IncrementVisit, offline);
            (FetchStats, replyWith (VObject [("count", VNumber (Num.ofZ 0))]));
            (IncrementVictim, replyWith VNull)] in
  display (fun _ => S754_nan) (visits (runCalls l initial)) = Placeholder /\
  display (fun _ => S754_nan) (victims (runCalls l initial)) = Placeholder.
Proof.
  intros l. apply (overlay_placeholder_until_count (fun _ => S754_nan) l).
  reflexivity.
Defined.

(** X8.  After a bump answered with a numeric count that passes the
    guard, the overlay shows that count exactly when it is greater than
    zero: a negative count is stored all the same and puts the placeholder
    in place of whatever was shown before. *)
Theorem overlay_after_numeric_bump
    (coerce : Value -> Num.number) (fetch : Net) (s : Stats) (n : Num.number) :
  usableCount fetch (API_BASE ++ "/visits/up") = Some (VNumber n) ->
  display coerce (visits (snd (incrementVisit fetch s))) =
  if Num.ltb (Num.ofZ 0) n then Localized (VNumber n) else Placeholder.
Proof.
  intros H. pose proof (incrementVisit_stores fetch s) as G.
  rewrite H in G. rewrite G.
  reflexivity.
Qed.

Lemma overlay_after_numeric_bump_witness :
  let fetch := replyWith (VObject [("count", VNumber (Num.ofZ (-1)))]) in
  let s := mkStats (VNumber (Num.ofZ 42)) (VNumber (Num.ofZ 7)) [] in
  display (fun _ => S754_nan) (visits s) = Localized (VNumber (Num.ofZ 42)) /\
  display (fun _ => S754_nan) (visits (snd (incrementVisit fetch s))) =
    Placeholder.
Proof.
  intros fetch s. split; [reflexivity|].
  apply (overlay_after_numeric_bump (fun _ => S754_nan) fetch s (Num.ofZ (-1))).
  reflexivity.
Defined.

End StatsUseFacts.

(* ------------------------------------------------------------------ *)
(** ** The gift box in use *)

Module GiftBoxUseFacts.

Import GiftBox GiftBoxUse GiftBoxFacts.
Local Open Scope nat_scope.

(** *** Shaking boxes *)

Lemma mount_shake (p : Props) :
  variant p = shake ->
  settledShake (p, mount p) /\ log (mount p) = [] /\
  isShaking (mount p) = false /\ shakeTimers (mount p) = 0 /\
  hasPlayedRef (mount p) = false.
Proof.
  intros Hv. unfold settledShake, mount, commit, openEffect. cbn.
  rewrite Hv. cbn. repeat split; reflexivity.
Qed.

Lemma click_shake (p : Props) (s : State) :
  variant p = shake -> isDropped p = true -> settledShake (p, s) ->
  settledShake (step (p, s) Click) /\
  fst (step (p, s) Click) = p /\
  log (snd (step (p, s) Click)) =
    SetTimeout 500 :: PlayAudio (soundUrl p) :: log s /\
  isShaking (snd (step (p, s) Click)) = true /\
  shakeTimers (snd (step (p, s) Click)) = S (shakeTimers s) /\
  hasPlayedRef (snd (step (p, s) Click)) = hasPlayedRef s.
Proof.
  intros Hv Hd [Ha [Had [Hod Ho]]].
  destruct s as [io ish hv ar hp st ad od lg]. cbn in Ha, Had, Hod, Ho.
  subst ar ad od io.
  unfold settledShake, step, handleClick, triggerShake, play, commit.
  rewrite Hd, Hv. cbn. rewrite String.eqb_refl. cbn.
  rewrite Hv, OpenDeps_eq_refl. cbn.
  repeat split; reflexivity.
Qed.

(** X9.  A dropped box of variant ['shake'] answers every click by
    playing its own sound once and setting a 500 ms timer; it shakes, and it
    never opens, never sets [hasPlayedRef] and never calls [onOpen],
    however often it is clicked. *)
Theorem shake_box_clicks (p : Props) (n : nat) :
  variant p = shake -> isDropped p = true ->
  let s := snd (run (p, mount p) (repeat Click n)) in
  log s = shakeTrace (soundUrl p) n /\
  plays s = n /\ onOpenCalls s = 0 /\
  isOpen s = false /\ hasPlayedRef s = false /\
  shakeTimers s = n /\ isShaking s = negb (Nat.eqb n 0).
Proof.
  intros Hv Hd.
  assert (Hgen : forall k s0,
            settledShake (p, s0) ->
            let s := snd (run (p, s0) (repeat Click k)) in
            log s = shakeTrace (soundUrl p) k ++ log s0 /\
            isOpen s = false /\ hasPlayedRef s = hasPlayedRef s0 /\
            shakeTimers s = k + shakeTimers s0 /\
            isShaking s = (if Nat.eqb k 0 then isShaking s0 else true)).
  { induction k as [|k IH]; intros s0 Hs.
    - cbn. destruct Hs as [_ [_ [_ Ho]]]. cbn in Ho. auto.
    - destruct (click_shake p s0 Hv Hd Hs) as [Hs' [Hp [Hl [Hsh [Ht Hh]]]]].
      cbn [repeat run fold_left].
      destruct (step (p, s0) Click) as [p1 s1] eqn:Hstep.
      cbn [fst snd] in *. subst p1.
      destruct (IH s1 Hs') as [Il [Io [Ih [It Is]]]].
      cbv zeta in *. unfold run in *.
      rewrite Il, Io, Ih, It, Is, Hl, Hh, Ht, Hsh.
      repeat split; try lia.
      + unfold shakeTrace.
        change (repeat [SetTimeout 500; PlayAudio (soundUrl p)] (S k))
          with ([SetTimeout 500; PlayAudio (soundUrl p)]
                  :: repeat [SetTimeout 500; PlayAudio (soundUrl p)] k).
        rewrite repeat_cons, concat_app. cbn [List.concat].
        rewrite <- !app_assoc. reflexivity.
      + destruct (Nat.eqb k 0); reflexivity. }
  intros s. subst s.
  destruct (mount_shake p Hv) as [Hs [Hl [Hsh [Ht Hh]]]].
  destruct (Hgen n (mount p) Hs) as [Il [Io [Ih [It Is]]]].
  cbv zeta in *. rewrite Hl, app_nil_r in Il.
  assert (Hcount : forall k,
            List.length (filter isPlay (shakeTrace (soundUrl p) k)) = k /\
            List.length (filter isCallOnOpen (shakeTrace (soundUrl p) k)) = 0).
  { induction k as [|k [IH1 IH2]]; [split; reflexivity|].
    unfold shakeTrace in *. cbn. rewrite IH1, IH2. split; reflexivity. }
  unfold plays, onOpenCalls. rewrite Il.
  destruct (Hcount n) as [H1 H2]. rewrite H1, H2, Io, Ih, It, Is, Hh, Ht, Hsh.
  repeat split; try lia; destruct (Nat.eqb n 0); reflexivity.
Qed.

Lemma shake_box_clicks_witness :
  let p := mkProps true false None "/sound_7.mp3" shake in
  plays (snd (run (p, mount p) (repeat Click 3))) = 3 /\
  isOpen (snd (run (p, mount p) (repeat Click 3))) = false.
Proof.
  intros p.
  destruct (shake_box_clicks p 3 eq_refl eq_refl) as [_ [Hp [_ [Ho _]]]].
  split; assumption.
Defined.

(** *** What renders and effects leave alone *)

Lemma openEffect_keeps (p : Props) (s : State) :
  isOpen (openEffect p s) = isOpen s /\
  isShaking (openEffect p s) = isShaking s /\
  shakeTimers (openEffect p s) = shakeTimers s /\
  audioRef (openEffect p s) = audioRef s.
Proof.
  unfold openEffect, play.
  destruct (variant p); [|auto].
  destruct (isOpen s) eqn:Ho; [|auto].
  destruct (audioRef s) as [url|] eqn:Ha; [|auto].
  destruct (hasPlayedRef s); [auto|].
  cbn [setHasPlayedRef audioRef]. rewrite Ha.
  destruct (onOpen p); cbn; auto.
Qed.

Lemma commit_keeps (p : Props) (s : State) :
  isOpen (commit p s) = isOpen s /\
  isShaking (commit p s) = isShaking s /\
  shakeTimers (commit p s) = shakeTimers s /\
  ((exists u, audioRef s = Some u) -> exists u, audioRef (commit p s) = Some u).
Proof.
  unfold commit.
  set (s1 := match audioDeps s with
             | Some u => if String.eqb u (soundUrl p) then s
                         else setAudioDeps (Some (soundUrl p)) (audioEffect p s)
             | None => setAudioDeps (Some (soundUrl p)) (audioEffect p s)
             end).
  assert (H1 : isOpen s1 = isOpen s /\ isShaking s1 = isShaking s /\
               shakeTimers s1 = shakeTimers s /\
               ((exists u, audioRef s = Some u) ->
                exists u, audioRef s1 = Some u)).
  { subst s1. destruct (audioDeps s) as [u|];
      [destruct (String.eqb u (soundUrl p))|]; cbn; repeat split; eauto. }
  destruct H1 as [Ha [Hb [Hc Hd]]].
  destruct (openEffect_keeps p s1) as [Ea [Eb [Ec Ed]]].
  cbv zeta.
  destruct (openDeps s1) as [d'|];
    [destruct (OpenDeps_eq_dec d' (isOpen s1, onOpen p, variant p))|];
    cbn [setOpenDeps isOpen isShaking shakeTimers audioRef];
    rewrite ?Ea, ?Eb, ?Ec, ?Ed; auto.
Qed.

(** *** Shake timers *)

Lemma shaking_has_timer_step (m : Mounted) (e : Event) :
  (isShaking (snd m) = true -> 0 < shakeTimers (snd m)) ->
  isShaking (snd (step m e)) = true -> 0 < shakeTimers (snd (step m e)).
Proof.
  destruct m as [p s]. cbn [snd]. intros Hinv.
  destruct e as [p'| | | |]; cbn [step].
  - cbn [snd]. destruct (commit_keeps p' s) as [_ [-> [-> _]]]. exact Hinv.
  - cbn [snd]. destruct (commit_keeps p (handleClick p s)) as [_ [-> [-> _]]].
    unfold handleClick, triggerShake, play.
    destruct (negb (isDropped p)); [exact Hinv|].
    destruct (variant p); [exact Hinv|].
    cbn [setIsShaking audioRef]. destruct (audioRef s); cbn; lia.
  - destruct (rendersNull p); cbn [snd]; [exact Hinv|].
    destruct (commit_keeps p (if negb (isOpen s) then setHover true s else s))
      as [_ [-> [-> _]]].
    destruct (negb (isOpen s)); exact Hinv.
  - destruct (rendersNull p); cbn [snd]; [exact Hinv|].
    destruct (commit_keeps p (setHover false s)) as [_ [-> [-> _]]].
    exact Hinv.
  - destruct (shakeTimers s) eqn:Ht; cbn [snd]; [rewrite Ht; exact Hinv|].
    destruct (commit_keeps p (setIsShaking false (setShakeTimers n s)))
      as [_ [-> [-> _]]].
    cbn. discriminate.
Qed.

Lemma timeouts_end_shake (k : nat) :
  forall m, shakeTimers (snd m) = k ->
  (isShaking (snd m) = true -> 0 < k) ->
  isShaking (snd (run m (repeat ShakeTimeout k))) = false /\
  shakeTimers (snd (run m (repeat ShakeTimeout k))) = 0.
Proof.
  induction k as [|k IH]; intros [p s] Ht Hinv; cbn [snd] in *.
  - cbn. split; [|exact Ht].
    destruct (isShaking s); [specialize (Hinv eq_refl); lia|reflexivity].
  - cbn [repeat run fold_left step]. rewrite Ht.
    apply IH; cbn [snd];
      destruct (commit_keeps p (setIsShaking false (setShakeTimers k s)))
        as [_ [Hs [Hc _]]].
    + rewrite Hc. reflexivity.
    + rewrite Hs. cbn. discriminate.
Qed.

(** X10.  A box is never left shaking: whatever props and events it has
    seen since mounting, while it shakes a timer is pending, and once every
    pending timer has fired it no longer shakes. *)
Theorem shake_always_ends (p : Props) (evs : list Event) :
  let m := run (p, mount p) evs in
  (isShaking (snd m) = true -> 0 < shakeTimers (snd m)) /\
  isShaking (snd (run m (repeat ShakeTimeout (shakeTimers (snd m))))) = false.
Proof.
  assert (Hinv : forall l m,
            (isShaking (snd m) = true -> 0 < shakeTimers (snd m)) ->
            isShaking (snd (run m l)) = true ->
            0 < shakeTimers (snd (run m l))).
  { induction l as [|e l IH]; intros m Hm; [exact Hm|].
    cbn [run fold_left]. apply IH, shaking_has_timer_step, Hm. }
  intros m. subst m.
  assert (H0 : isShaking (snd (run (p, mount p) evs)) = true ->
               0 < shakeTimers (snd (run (p, mount p) evs))).
  { apply Hinv. cbn [snd]. destruct (mount_fresh p) as [_ [H _]].
    rewrite H. discriminate. }
  split; [exact H0|].
  apply (timeouts_end_shake _ _ eq_refl H0).
Qed.

Lemma shake_always_ends_witness :
  let p := mkProps true false None "/sound_7.mp3" shake in
  let m := run (p, mount p) [Click; Click; ShakeTimeout] in
  isShaking (snd (run m (repeat ShakeTimeout (shakeTimers (snd m))))) = false.
Proof.
  intros p m.
  exact (proj2 (shake_always_ends p [Click; Click; ShakeTimeout])).
Defined.

(** *** Opening *)

Lemma isOpen_step (m : Mounted) (e : Event) :
  isOpen (snd (step m e)) =
  match e with
  | Click => isOpen (snd m) ||
             (isDropped (fst m) &&
              if Variant_eq_dec (variant (fst m)) open then true else false)
  | _ => isOpen (snd m)
  end.
Proof.
  destruct m as [p s]. cbn [fst snd].
  destruct e as [p'| | | |]; cbn [step].
  - cbn [snd]. apply commit_keeps.
  - cbn [snd]. destruct (commit_keeps p (handleClick p s)) as [-> _].
    unfold handleClick, triggerShake, play.
    destruct (isDropped p); cbn [negb andb]; [|rewrite orb_false_r; reflexivity].
    destruct (variant p); cbn.
    + rewrite orb_true_r. reflexivity.
    + rewrite orb_false_r. destruct (audioRef s); reflexivity.
  - destruct (rendersNull p); cbn [snd]; [reflexivity|].
    destruct (commit_keeps p (if negb (isOpen s) then setHover true s else s))
      as [-> _].
    destruct (negb (isOpen s)); reflexivity.
  - destruct (rendersNull p); cbn [snd]; [reflexivity|].
    destruct (commit_keeps p (setHover false s)) as [-> _]. reflexivity.
  - destruct (shakeTimers s); cbn [snd]; [reflexivity|].
    destruct (commit_keeps p (setIsShaking false (setShakeTimers n s)))
      as [-> _].
    reflexivity.
Qed.

(** X11.  Nothing closes a box and nothing but a click opens it: an open
    box stays open through every event, and a box that has not been clicked
    since mounting is closed, whatever renders, pointer moves and timers it
    has seen. *)
Theorem open_only_by_click (p : Props) (evs : list Event) :
  (forall m, isOpen (snd m) = true -> isOpen (snd (run m evs)) = true) /\
  (~ In Click evs -> isOpen (snd (run (p, mount p) evs)) = false).
Proof.
  split.
  - induction evs as [|e evs IH]; intros m Hm; [exact Hm|].
    cbn [run fold_left]. apply IH. rewrite isOpen_step, Hm.
    destruct e; reflexivity.
  - assert (Hgen : forall l m, ~ In Click l -> isOpen (snd m) = false ->
                     isOpen (snd (run m l)) = false).
    { induction l as [|e l IH]; intros m Hn Hm; [exact Hm|].
      cbn [run fold_left]. apply IH.
      - intros Hin. apply Hn. right. exact Hin.
      - rewrite isOpen_step.
        destruct e; try exact Hm. exfalso. apply Hn. left. reflexivity. }
    intros Hn. apply (Hgen evs (p, mount p) Hn).
    cbn [snd]. apply mount_fresh.
Qed.

Lemma open_only_by_click_witness :
  let p := mainBox true 0 in
  isOpen (snd (run (p, mount p)
                 [PointerOver; Render (mainBox true 1); PointerOut;
                  ShakeTimeout])) = false.
Proof.
  intros p. apply (proj2 (open_only_by_click p _)).
  intros H. repeat (destruct H as [H|H]; [discriminate|]). exact H.
Defined.

(** The opening effect does run when an open-variant box with an audio
    element is open and the effect has not seen it open yet. *)
Lemma commit_plays_opening (p : Props) (s : State) :
  variant p = open -> (exists u, audioRef s = Some u) ->
  isOpen s = true -> openDeps s <> Some (true, onOpen p, open) ->
  hasPlayedRef (commit p s) = true.
Proof.
  intros Hv [u Ha] Ho Hd.
  destruct s as [io ish hv ar hp st ad od lg]. cbn in Ha, Ho, Hd.
  subst ar io.
  unfold commit, audioEffect, openEffect, play. rewrite Hv.
  repeat (cbn [audioDeps openDeps isOpen hasPlayedRef audioRef
               setAudioDeps setAudioRef setOpenDeps setHasPlayedRef emit];
          match goal with
          | |- context [String.eqb ?x ?y] => destruct (String.eqb x y)
          | |- context [OpenDeps_eq_dec ?x ?y] =>
              destruct (OpenDeps_eq_dec x y) as [->|]
          | |- context [match ?x with Some _ => _ | None => _ end] =>
              is_var x; destruct x
          | |- context [if ?x then _ else _] => is_var x; destruct x
          | |- context [match onOpen p with _ => _ end] => destruct (onOpen p)
          end);
    cbn [audioDeps openDeps isOpen hasPlayedRef audioRef
         setAudioDeps setAudioRef setOpenDeps setHasPlayedRef emit];
    try reflexivity; try contradiction; congruence.
Qed.

Lemma settledOpen_commit (p : Props) (s : State) :
  variant p = open -> (exists u, audioRef s = Some u) ->
  plays s = (if hasPlayedRef s then 1 else 0) ->
  (isOpen s = true ->
   hasPlayedRef s = true \/ openDeps s <> Some (true, onOpen p, open)) ->
  settledOpen (p, commit p s).
Proof.
  intros Hv Ha Hp Ho. unfold settledOpen. cbn [fst snd].
  destruct (commit_keeps p s) as [Hio [_ [_ Har]]].
  destruct (commit_deps p s) as [_ Hod].
  split; [exact Hv|]. split; [exact (Har Ha)|]. split; [exact Hod|].
  assert (Hplays : plays (commit p s) = if hasPlayedRef (commit p s) then 1 else 0).
  { destruct (commit_cases p s) as [[Hl Hh]|[Hh0 [Hh1 [Hpl _]]]].
    - unfold plays in *. rewrite Hl, Hh. exact Hp.
    - rewrite Hh1, Hpl, Hp, Hh0. reflexivity. }
  split; [|exact Hplays].
  rewrite Hio. intros Hopen. destruct (Ho Hopen) as [Hh|Hd].
  - destruct (commit_cases p s) as [[_ Hq]|[Hh0 _]]; congruence.
  - apply commit_plays_opening; assumption.
Qed.

Lemma settledOpen_mount (p : Props) :
  variant p = open -> settledOpen (p, mount p).
Proof.
  intros Hv. unfold settledOpen, mount, commit, openEffect. cbn.
  rewrite Hv. cbn. repeat split; eauto; discriminate.
Qed.

Lemma settledOpen_step (m : Mounted) (e : Event) :
  settledOpen m -> staysOpenVariant [e] = true -> settledOpen (step m e).
Proof.
  destruct m as [p s]. intros [Hv [Ha [Hd [Ho Hp]]]] He. cbn [fst snd] in *.
  assert (Hkeep : forall s', audioRef s' = audioRef s -> log s' = log s ->
            hasPlayedRef s' = hasPlayedRef s -> isOpen s' = isOpen s ->
            openDeps s' = openDeps s -> forall q, variant q = open ->
            onOpen q = onOpen p \/ True ->
            settledOpen (q, commit q s')).
  { intros s' E1 E2 E3 E4 E5 q Hq _. apply settledOpen_commit; try assumption.
    - rewrite E1. exact Ha.
    - unfold plays in *. rewrite E2, E3. exact Hp.
    - rewrite E4, E3. intros Hopen. left. apply Ho, Hopen. }
  destruct e as [p'| | | |]; cbn [step].
  - cbn in He. destruct (Variant_eq_dec (variant p') open) as [Hv'|];
      [|discriminate].
    apply Hkeep; auto.
  - unfold handleClick. rewrite Hv.
    destruct (negb (isDropped p)); [apply Hkeep; auto|].
    apply settledOpen_commit; try assumption.
    cbn [setIsOpen isOpen hasPlayedRef openDeps]. intros _.
    destruct (isOpen s) eqn:Hio; [left; apply Ho; reflexivity|].
    right. rewrite Hd. intros H. discriminate H.
  - destruct (rendersNull p);
      [unfold settledOpen; cbn [fst snd]; auto|].
    destruct (negb (isOpen s)); apply Hkeep; auto.
  - destruct (rendersNull p);
      [unfold settledOpen; cbn [fst snd]; auto|].
    apply Hkeep; auto.
  - destruct (shakeTimers s);
      [unfold settledOpen; cbn [fst snd]; auto|].
    apply Hkeep; auto.
Qed.

(** X12.  For a box whose variant is ['open'] in every render: at every
    moment the opening sound has been played once if [hasPlayedRef] is set
    and not at all otherwise, and as soon as the box is open the ref is set.
    So an open box has had its sound exactly once. *)
Theorem open_box_has_played_once (p : Props) (evs : list Event) :
  variant p = open -> staysOpenVariant evs = true ->
  let s := snd (run (p, mount p) evs) in
  plays s = (if hasPlayedRef s then 1 else 0) /\
  (isOpen s = true -> hasPlayedRef s = true /\ plays s = 1).
Proof.
  intros Hv He.
  assert (Hrun : forall l m, settledOpen m -> staysOpenVariant l = true ->
                   settledOpen (run m l)).
  { induction l as [|e l IH]; intros m Hm Hl; [exact Hm|].
    unfold staysOpenVariant in Hl. cbn [forallb] in Hl.
    apply andb_prop in Hl as [H1 H2].
    cbn [run fold_left]. apply IH; [|exact H2].
    apply settledOpen_step; [exact Hm|].
    unfold staysOpenVariant. cbn [forallb]. rewrite H1. reflexivity. }
  destruct (Hrun evs (p, mount p) (settledOpen_mount p Hv) He)
    as [_ [_ [_ [Ho Hp]]]].
  cbv zeta. split; [exact Hp|].
  intros Hopen. specialize (Ho Hopen). rewrite Hp, Ho. auto.
Qed.

Lemma open_box_has_played_once_witness :
  let evs := [Render (mainBox true 1); Click; Render (mainBox true 2); Click] in
  let s := snd (run (mainBox false 0, mount (mainBox false 0)) evs) in
  isOpen s = true /\ hasPlayedRef s = true /\ plays s = 1.
Proof.
  intros evs s. split; [reflexivity|].
  apply (proj2 (open_box_has_played_once (mainBox false 0) evs
                  eq_refl eq_refl)).
  reflexivity.
Defined.

End GiftBoxUseFacts.

(* ------------------------------------------------------------------ *)
(** ** More of the ending scene *)

Module EndingSceneUseFacts.

Import EndingScene EndingSceneUse EndingSceneFacts.

Lemma allAlongFrom_spec (P : nat -> State -> bool) (n : nat) :
  forall i s, allAlongFrom P i n s = true ->
  forall k, (k <= n)%nat -> P (i + k)%nat (run s (repeat Tick k)) = true.
Proof.
  induction n as [|n IH]; intros i s H k Hk; cbn [allAlongFrom] in H;
    apply andb_prop in H as [H0 H1].
  - assert (k = O) by lia. subst k. rewrite Nat.add_0_r. exact H0.
  - destruct k as [|k]; [rewrite Nat.add_0_r; exact H0|].
    cbn [repeat]. replace (i + S k)%nat with (S i + k)%nat by lia.
    apply (IH (S i) (step s Tick) H1 k). lia.
Qed.

(** Every playing state of the run is on schedule. *)
Lemma run_on_schedule : allAlongFrom onSchedule 0 920 started = true.
Proof. vm_compute. reflexivity. Qed.

Lemma onSchedule_tick (n : nat) :
  (n < ticksToFinish)%nat -> onSchedule n (tickState n) = true.
Proof.
  intros Hn. unfold ticksToFinish in Hn.
  apply (allAlongFrom_spec onSchedule 920 0 started run_on_schedule n). lia.
Qed.

Lemma final_off_schedule :
  cuesOnSchedule ticksToFinish (tickState ticksToFinish) &&
  audioReady (tickState ticksToFinish) = true.
Proof. vm_compute. reflexivity. Qed.

Lemma onSchedule_spec (n : nat) (s : State) :
  onSchedule n s = true ->
  cuesOnSchedule n s = true /\ sceneOnSchedule n s = true /\
  progressOnSchedule s = true /\ audioReady s = true.
Proof.
  unfold onSchedule. intros H.
  apply andb_prop in H as [H H4]. apply andb_prop in H as [H H3].
  apply andb_prop in H as [H1 H2]. auto.
Qed.

Lemma cuesOnSchedule_spec (n : nat) (s : State) (k : Z) :
  cuesOnSchedule n s = true -> In k (glitchTenths ++ textRevealTenths) ->
  (near (currentTime s) (Num.dec k 1) = true <-> Z.of_nat n = k).
Proof.
  unfold cuesOnSchedule, cueTable. rewrite forallb_forall. intros H Hin.
  specialize (H (k, Num.dec k 1)). cbn [fst snd] in H.
  assert (Hk : In (k, Num.dec k 1)
                 (map (fun k0 => (k0, Num.dec k0 1))
                      (glitchTenths ++ textRevealTenths))).
  { apply in_map_iff. exists k. auto. }
  specialize (H Hk). apply Bool.eqb_prop in H. rewrite H.
  apply Z.eqb_eq.
Qed.

Lemma cue_tables :
  glitchTimes = map (fun k => Num.dec k 1) glitchTenths /\
  textRevealTimes = map (fun k => Num.dec k 1) textRevealTenths.
Proof. split; reflexivity. Qed.

(** *** The cues keep to the nominal schedule *)

(** X13.  Although the clock drifts, every cue is on time: on tick [n] of
    the run the cue with offset [k/10] is within tolerance exactly when
    [n = k].  So the sound of the cue at 10.0 s comes on the 100th tick
    and on no other. *)
Theorem cue_fires_on_its_tick (n : nat) (k : Z) :
  (n <= ticksToFinish)%nat ->
  In k (glitchTenths ++ textRevealTenths) ->
  (near (currentTime (tickState n)) (Num.dec k 1) = true <-> Z.of_nat n = k).
Proof.
  intros Hn Hin. apply cuesOnSchedule_spec; [|exact Hin].
  destruct (Nat.eq_dec n ticksToFinish) as [->|Hne].
  - pose proof final_off_schedule as H. apply andb_prop in H as [H _].
    exact H.
  - apply onSchedule_spec, onSchedule_tick. lia.
Qed.

Lemma cue_fires_on_its_tick_witness :
  near (currentTime (tickState 100)) (Num.dec 100 1) = true.
Proof.
  apply (cue_fires_on_its_tick 100 100).
  - unfold ticksToFinish. lia.
  - cbn. auto 10.
  - reflexivity.
Defined.

(** *** The scenes lag by at most one tick *)

Lemma window_bounds (w : Z * Z) :
  In w sceneWindows -> 0 <= fst w /\ snd w <= 90.
Proof.
  unfold sceneWindows. cbn [In].
  intros H. repeat (destruct H as [<-|H]; [cbn; lia|]). destruct H.
Qed.

(** X14.  On tick [n] of the run, up to tick 900, exactly one scene is
    shown, and it is the scene of the nominal time [n/10] or, on a boundary
    tick, still the one before: its window [(a, b)] has
    [10 a <= n <= 10 b].  From tick 901 until the sequence finishes no scene
    is shown. *)
Theorem scene_lags_at_most_one_tick (n : nat) :
  (n < ticksToFinish)%nat ->
  ((n <= 900)%nat ->
   exists w, In w sceneWindows /\ visibleScenes (tickState n) = [w] /\
             10 * fst w <= Z.of_nat n <= 10 * snd w) /\
  ((900 < n)%nat -> visibleScenes (tickState n) = []).
Proof.
  intros Hn.
  destruct (onSchedule_spec _ _ (onSchedule_tick n Hn)) as [_ [Hs _]].
  destruct (playing_before n Hn) as [Hst _].
  unfold sceneOnSchedule in Hs.
  assert (Hin : forall w, visibleScenes (tickState n) = [w] ->
                          In w sceneWindows).
  { intros w Hw. unfold visibleScenes in Hw. rewrite Hst in Hw.
    assert (Hf : In w (filter (inWindow (currentTime (tickState n)))
                         sceneWindows)) by (rewrite Hw; left; reflexivity).
    apply filter_In in Hf. apply Hf. }
  destruct (visibleScenes (tickState n)) as [|w [|w' rest]] eqn:Hv;
    [| |discriminate].
  - apply Z.ltb_lt in Hs. split; [lia|reflexivity].
  - apply andb_prop in Hs as [Ha Hb]. apply Z.leb_le in Ha, Hb.
    pose proof (window_bounds w (Hin w eq_refl)) as [_ H90].
    split; [|lia].
    intros _. exists w. split; [apply Hin; reflexivity|]. split; [reflexivity|lia].
Qed.

Lemma scene_lags_at_most_one_tick_witness :
  exists w, In w sceneWindows /\ visibleScenes (tickState 50) = [w] /\
            10 * fst w <= 50 <= 10 * snd w.
Proof.
  apply (proj1 (scene_lags_at_most_one_tick 50 ltac:(unfold ticksToFinish; lia))).
  lia.
Defined.

(** The first scene is still shown on tick 50, when the cue of the second
    sounds: the clock reads 4.999999999999998. *)
Example first_scene_on_tick_50 :
  visibleScenes (tickState 50) = [(0, 5)] /\
  near (currentTime (tickState 50)) (Num.dec 50 1) = true.
Proof. vm_compute. split; reflexivity. Qed.

(** *** The progress bar *)

Lemma leb_ltb_eq (c : Num.number) (m : positive) (e : Z) :
  Num.leb (S754_finite false m e) c = true ->
  Num.ltb (S754_finite false m e) c = false ->
  c = S754_finite false m e.
Proof.
  unfold Num.leb, SFleb, Num.ltb, SFltb, SFcompare.
  destruct c as [s|s| |s m' e']; try destruct s; try discriminate.
  destruct (Z.compare_spec e e'); try discriminate. subst e'.
  destruct (NumFacts.pos_cmp_spec m m'); try discriminate.
  subst m'. reflexivity.
Qed.

(** X15.  The progress bar is capped: at every clock of 92 or more
    (infinity included) its width is exactly 100.  While the sequence plays
    its width is at least 0 and below 100, and the next tick makes it
    wider. *)
Theorem progress_bar_bounds (tr : list Event) (c : Num.number) :
  (Num.leb (Num.ofZ 92) c = true -> progressWidth c = Num.ofZ 100) /\
  (status (run mount tr) = playing ->
   let w := progressWidth (currentTime (run mount tr)) in
   Num.leb (Num.ofZ 0) w = true /\ Num.ltb w (Num.ofZ 100) = true /\
   Num.ltb w (progressWidth (currentTime (step (run mount tr) Tick))) = true).
Proof.
  split.
  - intros Hle. unfold progressWidth.
    assert (Hmin : jsMin c (Num.ofZ 92) = Num.ofZ 92).
    { destruct NumFacts.literals as [_ [_ [_ [_ [H92 _]]]]].
      rewrite H92 in *. unfold jsMin.
      destruct (NumFacts.leb_not_nan _ _ Hle) as [_ Hn].
      rewrite Hn. cbn [Num.isNaN orb].
      rewrite (NumFacts.ltb_negb_leb c
                 (S754_finite false 6473924464345088 (-46)) Hn eq_refl), Hle.
      cbn [negb].
      destruct (Num.ltb (S754_finite false 6473924464345088 (-46)) c) eqn:Hlt;
        [reflexivity|].
      rewrite (leb_ltb_eq c _ _ Hle Hlt). reflexivity. }
    rewrite Hmin. vm_compute. reflexivity.
  - intros Hst.
    destruct (reach_playing _ (reach_run tr mount reach_mount) Hst)
      as [n [Hn Hs]].
    rewrite Hs.
    destruct (onSchedule_spec _ _ (onSchedule_tick n Hn)) as [_ [_ [Hp _]]].
    destruct (playing_before n Hn) as [_ [_ [[i [Hi _]] _]]].
    rewrite (tick_one_interval _ i Hi).
    unfold progressOnSchedule in Hp. cbv zeta in *.
    apply andb_prop in Hp as [Hp H3]. apply andb_prop in Hp as [H1 H2].
    auto.
Qed.

Lemma progress_bar_bounds_witness :
  progressWidth (S754_infinity false) = Num.ofZ 100.
Proof.
  apply (proj1 (progress_bar_bounds [] (S754_infinity false))).
  reflexivity.
Defined.

(** *** Unmounting *)

Lemma runCleanup_clears (s : State) :
  intervals s = [] \/ (exists i, intervals s = [i] /\ cleanup s = Some i) ->
  intervals (runCleanup s) = [].
Proof.
  unfold runCleanup. intros [H | [i [H Hc]]].
  - destruct (cleanup s); [|exact H].
    unfold clearInterval. cbn [intervals]. rewrite H. reflexivity.
  - rewrite Hc. unfold clearInterval. cbn [intervals]. rewrite H.
    cbn [filter]. rewrite Nat.eqb_refl. reflexivity.
Qed.

(** X16.  Unmounting from any state the component can reach leaves no
    interval live, so no tick can fire afterwards; and once the sequence has
    been started the background music and the text reveal sound are both
    paused. *)
Theorem unmount_leaves_no_interval (tr : list Event) :
  let s := run mount tr in
  intervals (fst (unmount s)) = [] /\
  step (fst (unmount s)) Tick = fst (unmount s) /\
  (status s <> idle -> snd (unmount s) = [endingBg; errorGlitch]).
Proof.
  intros s. pose proof (reach_run tr mount reach_mount) as Hreach.
  fold s in Hreach. clearbody s.
  assert (Hno : intervals (fst (unmount s)) = []).
  { unfold unmount. cbn [fst]. apply runCleanup_clears.
    destruct Hreach as [-> | [n [Hn ->]]]; [left; apply mount_state|].
    destruct (Nat.eq_dec n ticksToFinish) as [->|Hne].
    - left. apply final_state.
    - right. destruct (playing_before n ltac:(lia)) as [_ [_ [H _]]].
      exact H. }
  split; [exact Hno|]. split.
  - unfold step. rewrite Hno. reflexivity.
  - intros Hidle. unfold unmount. cbn [snd].
    assert (Hready : audioReady s = true).
    { destruct Hreach as [-> | [n [Hn ->]]].
      - exfalso. apply Hidle. apply mount_state.
      - destruct (Nat.eq_dec n ticksToFinish) as [->|Hne].
        + pose proof final_off_schedule as H.
          apply andb_prop in H as [_ H]. exact H.
        + assert (Hlt : (n < ticksToFinish)%nat) by lia.
          destruct (onSchedule_spec _ _ (onSchedule_tick n Hlt))
            as [_ [_ [_ H]]].
          exact H. }
    unfold audioReady in Hready.
    apply andb_prop in Hready as [H H3]. apply andb_prop in H as [_ H2].
    rewrite H2, H3. reflexivity.
Qed.

Lemma unmount_leaves_no_interval_witness :
  let s := run mount [ClickStart; Tick; Tick] in
  status s <> idle /\ snd (unmount s) = [endingBg; errorGlitch].
Proof.
  intros s.
  assert (H : status s <> idle) by (vm_compute; discriminate).
  split; [exact H|].
  exact (proj2 (proj2 (unmount_leaves_no_interval [ClickStart; Tick; Tick])) H).
Defined.

End EndingSceneUseFacts.

(* ------------------------------------------------------------------ *)
(** ** The send-off screens *)

Module SendOffFacts.

Import EndingScene EndingSceneFacts SendOff.

(** *** The timeline once the sequence is over *)

Lemma status_second_pass (t : EndingScene.State) :
  status (EndingScene.commit t) = status (EndingScene.renderOnce t).
Proof.
  unfold EndingScene.commit.
  rewrite (status_renderOnce (EndingScene.renderOnce t)).
  destruct (depsChanged (EndingScene.renderOnce t)) eqn:Hs1; [|reflexivity].
  rewrite status_timelineEffect, status_runCleanup.
  destruct (status (EndingScene.renderOnce t)) eqn:Hst; try reflexivity.
  exfalso.
  assert (Hsame : status (EndingScene.renderOnce t) = status t).
  { rewrite status_renderOnce in Hst |- *.
    destruct (depsChanged t); [|reflexivity].
    rewrite status_timelineEffect, status_runCleanup in Hst |- *.
    destruct (status t); try discriminate.
    destruct (Num.geb (currentTime (runCleanup t)) totalDuration);
      [discriminate|reflexivity]. }
  rewrite (renderOnce_settled t Hsame) in Hs1. discriminate.
Qed.

Lemma renderOnce_stopped (t : EndingScene.State) :
  status t <> playing -> intervals t = [] ->
  status (EndingScene.renderOnce t) = status t /\
  intervals (EndingScene.renderOnce t) = [].
Proof.
  intros Hst Hi. unfold EndingScene.renderOnce.
  destruct (depsChanged t); [|split; [reflexivity|exact Hi]].
  cbv zeta. unfold setDeps. cbn [status intervals].
  unfold timelineEffect. rewrite status_runCleanup.
  assert (Hc : intervals (runCleanup t) = []).
  { unfold runCleanup. destruct (cleanup t); [|exact Hi].
    unfold clearInterval. cbn [intervals]. rewrite Hi. reflexivity. }
  destruct (status t) eqn:E; try congruence;
    unfold setCleanup; cbn [status intervals];
    rewrite status_runCleanup; auto.
Qed.

Lemma commit_stopped (t : EndingScene.State) :
  status t <> playing -> intervals t = [] ->
  status (EndingScene.commit t) = status t /\
  intervals (EndingScene.commit t) = [].
Proof.
  intros Hst Hi. destruct (renderOnce_stopped t Hst Hi) as [H1 H2].
  unfold EndingScene.commit.
  destruct (renderOnce_stopped (EndingScene.renderOnce t)) as [H3 H4];
    [congruence|exact H2|].
  split; [congruence|exact H4].
Qed.

Lemma reach_settled (t : EndingScene.State) : Reach t -> depsChanged t = false.
Proof.
  intros [Hm | [n [Hn Hs]]]; subst t.
  - apply mount_state.
  - destruct (Nat.eq_dec n ticksToFinish) as [->|Hne]; [apply final_state|].
    apply playing_before. lia.
Qed.

Lemma reach_status (t : EndingScene.State) :
  Reach t -> status t = idle \/ status t = playing \/ status t = finished.
Proof.
  intros [Hm | [n [Hn Hs]]]; subst t.
  - left. apply mount_state.
  - destruct (Nat.eq_dec n ticksToFinish) as [->|Hne].
    + right; right. apply final_state.
    + right; left. apply playing_before. lia.
Qed.

Lemma reach_timerFor (t : EndingScene.State) (k : nat) :
  Reach t -> timerFor (status t) k = None.
Proof.
  intros H. destruct (reach_status t H) as [E|[E|E]]; rewrite E; reflexivity.
Qed.

Lemma finished_stopped (t : EndingScene.State) :
  Reach t -> status t = finished -> intervals t = [].
Proof.
  intros H E. rewrite (reach_finished t H E). apply final_state.
Qed.

(** *** One pass of the send-off effect *)

Lemma sendDepsChanged_false (st : Status) (s : SendOff.State) :
  sendDepsChanged st s = false -> sendDeps s = Some (st, onRestartProp s).
Proof.
  unfold sendDepsChanged. destruct (sendDeps s) as [[st' k]|]; [|discriminate].
  destruct (Status_eq_dec st' st) as [->|]; [|discriminate].
  destruct (Nat.eqb k (onRestartProp s)) eqn:E; [|discriminate].
  apply Nat.eqb_eq in E. subst k. reflexivity.
Qed.

Lemma sendDepsChanged_same (st : Status) (s : SendOff.State) :
  sendDeps s = Some (st, onRestartProp s) -> sendDepsChanged st s = false.
Proof.
  unfold sendDepsChanged. intros ->.
  destruct (Status_eq_dec st st); [|congruence].
  rewrite Nat.eqb_refl. reflexivity.
Qed.

Lemma pass_fields (st : Status) (s : SendOff.State) :
  timeline (sendOffPass st s) = timeline s /\
  onRestartProp (sendOffPass st s) = onRestartProp s /\
  downloads (sendOffPass st s) = downloads s /\
  restartCalls (sendOffPass st s) = restartCalls s.
Proof.
  unfold sendOffPass. destruct (sendDepsChanged st s); [|auto].
  unfold sendOffEffect; destruct st; cbn; auto.
Qed.

Lemma filter_one (i : nat) (a : TimerAction) :
  filter (fun t : nat * TimerAction => negb (Nat.eqb (fst t) i)) [(i, a)] = [].
Proof. cbn. rewrite Nat.eqb_refl. reflexivity. Qed.

(** A pass that runs the effect clears what the last run left and sets the
    timeout of the new status, a fresh one. *)
Lemma pass_runs (st : Status) (s : SendOff.State) :
  sendDepsChanged st s = true ->
  timeouts s = [] \/ (exists i a, timeouts s = [(i, a)] /\ sendCleanup s = Some i) ->
  sendDeps (sendOffPass st s) = Some (st, onRestartProp s) /\
  match timerFor st (onRestartProp s) with
  | Some a => timeouts (sendOffPass st s) = [(nextTimeout s, a)] /\
              sendCleanup (sendOffPass st s) = Some (nextTimeout s) /\
              nextTimeout (sendOffPass st s) = S (nextTimeout s)
  | None => timeouts (sendOffPass st s) = []
  end.
Proof.
  intros Hc Hshape. unfold sendOffPass. rewrite Hc.
  assert (Hclr : timeouts (clearTimeout (sendCleanup s) s) = []).
  { unfold clearTimeout. cbn [timeouts].
    destruct Hshape as [H | [i [a [H Hcl]]]]; rewrite H.
    - destruct (sendCleanup s); reflexivity.
    - rewrite Hcl. apply filter_one. }
  unfold sendOffEffect.
  destruct st; cbn [setSendDeps setTimeout noTimeout sendDeps onRestartProp
                    timeouts sendCleanup nextTimeout timerFor];
    rewrite ?Hclr; cbn [clearTimeout onRestartProp nextTimeout];
    repeat split; reflexivity.
Qed.

Lemma pass_changed (st : Status) (s : SendOff.State) :
  sendDepsChanged st s = true ->
  timeouts s = [] \/ (exists i a, timeouts s = [(i, a)] /\ sendCleanup s = Some i) ->
  sendOK st (sendOffPass st s).
Proof.
  intros Hc Hshape. destruct (pass_runs st s Hc Hshape) as [Hd Ht].
  destruct (pass_fields st s) as [_ [Fk _]].
  unfold sendOK. rewrite Fk. split; [exact Hd|].
  destruct (timerFor st (onRestartProp s)); [|exact Ht].
  destruct Ht as [H1 [H2 H3]]. exists (nextTimeout s).
  rewrite H1, H2, H3. repeat split; lia.
Qed.

Lemma pending_shape (s : SendOff.State) :
  pending s ->
  timeouts s = [] \/ (exists i a, timeouts s = [(i, a)] /\ sendCleanup s = Some i).
Proof.
  unfold pending. destruct (sendDeps s) as [[st k]|]; [|auto].
  destruct (timerFor st k); [|auto].
  intros [i [H1 [H2 _]]]. right. eauto.
Qed.

Lemma pass_ok (st : Status) (s : SendOff.State) :
  pending s -> sendOK st (sendOffPass st s).
Proof.
  intros Hp. destruct (sendDepsChanged st s) eqn:Hc.
  - apply pass_changed; [exact Hc|apply pending_shape, Hp].
  - unfold sendOffPass. rewrite Hc.
    pose proof (sendDepsChanged_false st s Hc) as Hd.
    unfold pending in Hp. rewrite Hd in Hp. split; assumption.
Qed.

Lemma sendOK_pending (st : Status) (s : SendOff.State) : sendOK st s -> pending s.
Proof. intros [Hd H]. unfold pending. rewrite Hd. exact H. Qed.

Lemma pass_withTimeline (st : Status) (t : EndingScene.State) (s : SendOff.State) :
  sendOffPass st (withTimeline t s) = withTimeline t (sendOffPass st s).
Proof.
  unfold sendOffPass, sendDepsChanged, withTimeline. cbn [sendDeps onRestartProp].
  match goal with |- context [if ?b then _ else _] => destruct b end;
    [|reflexivity].
  destruct st; reflexivity.
Qed.

Lemma withTimeline_twice (t t' : EndingScene.State) (s : SendOff.State) :
  withTimeline t (withTimeline t' s) = withTimeline t s.
Proof. reflexivity. Qed.

(** Both passes of [commit], the timeline and the send-off effect apart. *)
Lemma commit_split (s : SendOff.State) :
  commit s =
  withTimeline (EndingScene.commit (timeline s))
    (sendOffPass (status (EndingScene.renderOnce (timeline s)))
       (sendOffPass (status (timeline s)) s)).
Proof.
  unfold commit, renderOnce.
  rewrite (pass_withTimeline (status (timeline s))).
  cbn [timeline withTimeline].
  rewrite !pass_withTimeline.
  reflexivity.
Qed.

Lemma sendOK_withTimeline (st : Status) (t : EndingScene.State) (s : SendOff.State) :
  sendOK st s -> sendOK st (withTimeline t s).
Proof. intros H. exact H. Qed.

Lemma commit_fields (s : SendOff.State) :
  timeline (commit s) = EndingScene.commit (timeline s) /\
  onRestartProp (commit s) = onRestartProp s /\
  downloads (commit s) = downloads s /\
  restartCalls (commit s) = restartCalls s.
Proof.
  rewrite commit_split. cbn [timeline withTimeline onRestartProp downloads restartCalls].
  destruct (pass_fields (status (timeline s)) s) as [_ [A [B C]]].
  destruct (pass_fields (status (EndingScene.renderOnce (timeline s)))
              (sendOffPass (status (timeline s)) s)) as [_ [A' [B' C']]].
  repeat split; congruence.
Qed.

Lemma commit_sendOK (s : SendOff.State) :
  pending s \/ (timeouts s = [] /\ sendDepsChanged (status (timeline s)) s = true) ->
  sendOK (status (EndingScene.commit (timeline s))) (commit s).
Proof.
  intros Hp. rewrite status_second_pass, commit_split.
  apply sendOK_withTimeline, pass_ok, sendOK_pending with (st := status (timeline s)).
  destruct Hp as [Hp | [H1 H2]]; [apply pass_ok, Hp|].
  apply pass_changed; auto.
Qed.

(** *** The invariant *)

Lemma commit_wellFormed (s : SendOff.State) :
  restartCalls s = [] ->
  pending s \/ (timeouts s = [] /\ sendDepsChanged (status (timeline s)) s = true) ->
  match timerFor (status (EndingScene.commit (timeline s))) (onRestartProp s) with
  | Some _ => intervals (EndingScene.commit (timeline s)) = []
  | None => Reach (EndingScene.commit (timeline s)) /\
            (downloads s <> O ->
             status (EndingScene.commit (timeline s)) = finished)
  end ->
  wellFormed (commit s).
Proof.
  intros Hr Hp Ht. pose proof (commit_sendOK s Hp) as [Hd Hk].
  destruct (commit_fields s) as [Ft [Fk [Fd Fr]]].
  unfold wellFormed. cbv zeta. rewrite Ft, Fr, Hr, Fk, Fd.
  rewrite Fk in Hd, Hk.
  split; [exact Hd|]. split; [apply commit_settled|].
  destruct (timerFor (status (EndingScene.commit (timeline s))) (onRestartProp s));
    [split; assumption|].
  destruct Ht as [Ht1 Ht2]. auto.
Qed.

Lemma wellFormed_pending (s : SendOff.State) :
  wellFormed s -> restartCalls s = [] -> pending s.
Proof.
  unfold wellFormed. cbv zeta. intros [Hd [_ H]] Hr. rewrite Hr in H.
  unfold pending. rewrite Hd.
  destruct (timerFor (status (timeline s)) (onRestartProp s)).
  - apply H.
  - apply H.
Qed.

Lemma sendoff_wellFormed_mount (k : nat) : wellFormed (mount k).
Proof.
  unfold mount. apply commit_wellFormed.
  - reflexivity.
  - left. reflexivity.
  - cbn [timeline onRestartProp downloads].
    change (EndingScene.commit
              (EndingScene.mkState idle (Num.ofZ 0) false false false [] 0 None None []))
      with EndingScene.mount.
    rewrite (reach_timerFor _ _ reach_mount).
    split; [apply reach_mount|]. intros H. exfalso. apply H. reflexivity.
Qed.

(** The timeline is stopped in every state except during the sequence. *)
Lemma wellFormed_stopped (s : SendOff.State) :
  wellFormed s -> restartCalls s = [] -> status (timeline s) <> playing ->
  status (timeline s) <> idle ->
  intervals (timeline s) = [].
Proof.
  unfold wellFormed. cbv zeta. intros [_ [_ H]] Hr Hp Hi. rewrite Hr in H.
  destruct (status (timeline s)) eqn:E; cbn [timerFor] in H; try congruence.
  - destruct H as [_ [Hreach _]]. apply finished_stopped; assumption.
  - apply H.
  - apply H.
Qed.

(** Setting the status to a send-off status from the card or from a
    send-off screen. *)
Lemma setStatus_wellFormed (st : Status) (s : SendOff.State) :
  st = sendoff \/ st = sendoff2 ->
  restartCalls s = [] ->
  intervals (timeline s) = [] ->
  pending s \/ (timeouts s = [] /\ sendDepsChanged st s = true) ->
  wellFormed (commit (setStatusTo st s)) /\
  status (timeline (commit (setStatusTo st s))) = st.
Proof.
  intros Hst Hr Hi Hp.
  assert (Hc : status (EndingScene.commit (setStatus st (timeline s))) = st /\
               intervals (EndingScene.commit (setStatus st (timeline s))) = []).
  { destruct (commit_stopped (setStatus st (timeline s))) as [A B].
    - cbn [setStatus status]. destruct Hst; subst st; discriminate.
    - exact Hi.
    - split; [exact A|exact B]. }
  destruct Hc as [Hc1 Hc2].
  split.
  - apply commit_wellFormed.
    + exact Hr.
    + exact Hp.
    + cbn [setStatusTo withTimeline timeline onRestartProp downloads].
      rewrite Hc1. destruct Hst; subst st; exact Hc2.
  - destruct (commit_fields (setStatusTo st s)) as [Ft _]. rewrite Ft.
    exact Hc1.
Qed.

Lemma sendoff_wellFormed_step (s : SendOff.State) (e : Event) :
  wellFormed s -> wellFormed (step s e).
Proof.
  intros Hwf. unfold step.
  destruct (restartCalls s) eqn:Hr; [|exact Hwf].
  pose proof (wellFormed_pending s Hwf Hr) as Hp.
  pose proof Hwf as Hwf0.
  unfold wellFormed in Hwf. cbv zeta in Hwf. rewrite Hr in Hwf.
  destruct Hwf as [Hd [Hset Hcase]].
  destruct e.
  - (* ClickStart *)
    destruct (status (timeline s)) eqn:Hst; try exact Hwf0.
    cbn [timerFor] in Hcase. destruct Hcase as [Hto [Hreach Hdl]].
    assert (Hstep : EndingScene.commit (startEnding (timeline s)) =
                    EndingScene.step (timeline s) EndingScene.ClickStart).
    { unfold EndingScene.step. rewrite Hst. reflexivity. }
    apply commit_wellFormed.
    + first [exact Hr | reflexivity].
    + left. exact Hp.
    + cbn [withTimeline timeline onRestartProp downloads]. rewrite Hstep.
      pose proof (reach_step _ EndingScene.ClickStart Hreach) as Hr'.
      rewrite (reach_timerFor _ _ Hr'). split; [exact Hr'|].
      intros Hn. specialize (Hdl Hn). discriminate.
  - (* Tick *)
    destruct (intervals (timeline s)) as [|i ids] eqn:Hi; [exact Hwf0|].
    destruct (timerFor (status (timeline s)) (onRestartProp s)) eqn:Htf.
    { destruct Hcase as [Hnil _]. discriminate. }
    destruct Hcase as [Hto [Hreach Hdl]].
    assert (Hstep : EndingScene.commit
                      (fold_left (fun t _ => intervalCallback t) (i :: ids)
                         (timeline s)) =
                    EndingScene.step (timeline s) EndingScene.Tick).
    { unfold EndingScene.step. rewrite Hi. reflexivity. }
    apply commit_wellFormed.
    + first [exact Hr | reflexivity].
    + left. exact Hp.
    + cbn [withTimeline timeline onRestartProp downloads]. rewrite Hstep.
      pose proof (reach_step _ EndingScene.Tick Hreach) as Hr'.
      rewrite (reach_timerFor _ _ Hr'). split; [exact Hr'|].
      intros Hn. specialize (Hdl Hn).
      rewrite (finished_stopped _ Hreach Hdl) in Hi. discriminate.
  - (* ParentRerender *)
    apply commit_wellFormed.
    + first [exact Hr | reflexivity].
    + left. exact Hp.
    + cbn [timeline onRestartProp downloads].
      rewrite (commit_of_settled _ Hset).
      destruct (status (timeline s)); cbn [timerFor] in Hcase |- *;
        first [exact (proj1 Hcase) | exact (proj2 Hcase)].
  - (* ClickRestartButton *)
    destruct (status (timeline s)) eqn:Hst; try exact Hwf0.
    cbn [timerFor] in Hcase. destruct Hcase as [Hto [Hreach Hdl]].
    apply setStatus_wellFormed; auto.
    apply finished_stopped; assumption.
  - (* ClickDownload *)
    destruct (status (timeline s)) eqn:Hst; try exact Hwf0.
    unfold wellFormed. cbv zeta.
    cbn [timeline sendDeps onRestartProp restartCalls timeouts downloads
         sendCleanup nextTimeout].
    rewrite Hst. cbn [timerFor] in Hcase |- *.
    destruct Hcase as [Hto [Hreach _]]. auto.
  - (* DownloadSettled *)
    destruct (downloads s) as [|n] eqn:Hn; [exact Hwf0|].
    cbv zeta. destruct ok.
    + apply setStatus_wellFormed; auto.
      destruct (timerFor (status (timeline s)) (onRestartProp s)).
      * apply Hcase.
      * destruct Hcase as [_ [Hreach Hdl]].
        apply finished_stopped; [exact Hreach|]. apply Hdl. discriminate.
    + unfold wellFormed. cbv zeta.
      cbn [timeline sendDeps onRestartProp restartCalls timeouts downloads
           sendCleanup nextTimeout].
      split; [exact Hd|]. split; [exact Hset|].
      destruct (timerFor (status (timeline s)) (onRestartProp s)); [exact Hcase|].
      destruct Hcase as [Hto [Hreach Hdl]].
      split; [exact Hto|]. split; [exact Hreach|].
      intros _. apply Hdl. discriminate.
  - (* TimeoutFire *)
    destruct (timeouts s) as [|[i a] rest] eqn:Hto; [exact Hwf0|].
    destruct (status (timeline s)) eqn:Hst; cbn [timerFor] in Hcase;
      try (destruct Hcase as [Hnil _]; discriminate).
    + (* sendoff *)
      destruct Hcase as [Hi [j [Hj [Hcl Hlt]]]]. inversion Hj; subst.
      unfold fire.
      apply setStatus_wellFormed.
      * auto.
      * first [exact Hr | reflexivity].
      * exact Hi.
      * right. split; [unfold dropTimeout; cbn [timeouts]; rewrite Hto; reflexivity|].
        unfold sendDepsChanged, dropTimeout. cbn [sendDeps]. rewrite Hd.
        destruct (Status_eq_dec sendoff sendoff2); [discriminate|reflexivity].
    + (* sendoff2 *)
      destruct Hcase as [Hi [j [Hj [Hcl Hlt]]]]. inversion Hj; subst.
      unfold fire, dropTimeout, wellFormed. cbv zeta.
      cbn [timeline sendDeps onRestartProp restartCalls timeouts downloads
           sendCleanup nextTimeout].
      rewrite Hst, Hto. cbn [tl]. repeat split; assumption.
Qed.

Lemma sendoff_wellFormed_run (evs : list Event) :
  forall s, wellFormed s -> wellFormed (run s evs).
Proof.
  induction evs as [|e evs IH]; intros s H; [exact H|].
  cbn [run fold_left]. apply (IH (step s e)), sendoff_wellFormed_step, H.
Qed.

Lemma run_split (s : SendOff.State) (a b : list Event) :
  run s (a ++ b) = run (run s a) b.
Proof. unfold run. apply fold_left_app. Qed.

Lemma sendoff_wellFormed_reachable (k : nat) (evs : list Event) :
  wellFormed (run (mount k) evs).
Proof. apply sendoff_wellFormed_run, sendoff_wellFormed_mount. Qed.

Lemma wellFormed_calls (s : SendOff.State) :
  wellFormed s -> status (timeline s) <> sendoff2 -> restartCalls s = [].
Proof.
  unfold wellFormed. cbv zeta. intros [_ [_ H]] Hst.
  destruct (restartCalls s); [reflexivity|].
  destruct H as [_ [_ [H _]]]. congruence.
Qed.

(** *** Single steps of the send-off *)

Lemma step_restart_click (s : SendOff.State) :
  wellFormed s -> status (timeline s) = finished ->
  wellFormed (step s ClickRestartButton) /\
  restartCalls (step s ClickRestartButton) = [] /\
  status (timeline (step s ClickRestartButton)) = sendoff /\
  onRestartProp (step s ClickRestartButton) = onRestartProp s.
Proof.
  intros Hwf Hst.
  assert (Hr : restartCalls s = []) by (apply wellFormed_calls; congruence).
  pose proof (sendoff_wellFormed_step s ClickRestartButton Hwf) as Hwf'.
  pose proof (wellFormed_stopped s Hwf Hr) as Hi.
  unfold step in *. rewrite Hr, Hst in *.
  destruct (setStatus_wellFormed sendoff s) as [_ Hs]; auto.
  { apply Hi; congruence. }
  { left. apply wellFormed_pending; assumption. }
  destruct (commit_fields (setStatusTo sendoff s)) as [_ [Fk [_ Fr]]].
  split; [exact Hwf'|]. split; [rewrite Fr; exact Hr|]. split; [exact Hs|exact Fk].
Qed.

(** Re-created timeout of a parent render. *)
Lemma step_rerender (s : SendOff.State) :
  wellFormed s -> restartCalls s = [] ->
  wellFormed (step s ParentRerender) /\
  restartCalls (step s ParentRerender) = [] /\
  status (timeline (step s ParentRerender)) = status (timeline s) /\
  onRestartProp (step s ParentRerender) = S (onRestartProp s).
Proof.
  intros Hwf Hr.
  pose proof (sendoff_wellFormed_step s ParentRerender Hwf) as Hwf'.
  unfold step in *. rewrite Hr in *.
  match goal with |- context [commit ?x] => destruct (commit_fields x) as [Ft [Fk [_ Fr]]] end.
  cbn [timeline onRestartProp restartCalls] in Ft, Fk, Fr.
  rewrite Ft, Fk, Fr.
  destruct Hwf as [_ [Hset _]].
  rewrite (commit_of_settled _ Hset).
  split; [exact Hwf'|]. split; [reflexivity|]. split; reflexivity.
Qed.

Lemma run_rerenders (n : nat) :
  forall s, wellFormed s -> restartCalls s = [] ->
  wellFormed (run s (repeat ParentRerender n)) /\
  restartCalls (run s (repeat ParentRerender n)) = [] /\
  status (timeline (run s (repeat ParentRerender n))) = status (timeline s) /\
  onRestartProp (run s (repeat ParentRerender n)) = (onRestartProp s + n)%nat.
Proof.
  induction n as [|n IH]; intros s Hwf Hr.
  - cbn [repeat run fold_left].
    split; [exact Hwf|]. split; [exact Hr|]. split; [reflexivity|lia].
  - cbn [repeat run fold_left].
    destruct (step_rerender s Hwf Hr) as [A [B [C D]]].
    destruct (IH _ A B) as [A' [B' [C' D']]]. unfold run in *.
    split; [exact A'|]. split; [exact B'|].
    split; [congruence|rewrite D', D; lia].
Qed.

Lemma step_fire_sendoff (s : SendOff.State) :
  wellFormed s -> restartCalls s = [] -> status (timeline s) = sendoff ->
  wellFormed (step s TimeoutFire) /\
  restartCalls (step s TimeoutFire) = [] /\
  status (timeline (step s TimeoutFire)) = sendoff2 /\
  onRestartProp (step s TimeoutFire) = onRestartProp s.
Proof.
  intros Hwf Hr Hst.
  pose proof (sendoff_wellFormed_step s TimeoutFire Hwf) as Hwf'.
  destruct Hwf as [Hd [_ Hcase]]. rewrite Hr, Hst in Hcase.
  cbn [timerFor] in Hcase. destruct Hcase as [Hi [i [Hto _]]].
  unfold step in *. rewrite Hr, Hto in *. unfold fire in *.
  destruct (setStatus_wellFormed sendoff2 (dropTimeout s)) as [_ Hs]; auto.
  { right. split; [unfold dropTimeout; cbn [timeouts]; rewrite Hto; reflexivity|].
    unfold sendDepsChanged, dropTimeout. cbn [sendDeps]. rewrite Hd, Hst.
    destruct (Status_eq_dec sendoff sendoff2); [discriminate|reflexivity]. }
  destruct (commit_fields (setStatusTo sendoff2 (dropTimeout s))) as [_ [Fk [_ Fr]]].
  split; [exact Hwf'|]. split; [rewrite Fr; exact Hr|]. split; [exact Hs|exact Fk].
Qed.

Lemma step_fire_sendoff2 (s : SendOff.State) :
  wellFormed s -> restartCalls s = [] -> status (timeline s) = sendoff2 ->
  restartCalls (step s TimeoutFire) = [onRestartProp s].
Proof.
  intros Hwf Hr Hst.
  destruct Hwf as [Hd [_ Hcase]]. rewrite Hr, Hst in Hcase.
  cbn [timerFor] in Hcase. destruct Hcase as [Hi [i [Hto _]]].
  unfold step. rewrite Hr, Hto. cbn [fire restartCalls dropTimeout].
  rewrite Hr. reflexivity.
Qed.

(** The final card of a fresh run, the first send-off screen after a click
    on Restart, and the second one with a download still pending. *)
Lemma card_facts :
  let s := run (mount 0) toTheCard in
  status (timeline s) = finished /\
  restartCalls (run s [ClickRestartButton]) = [] /\
  timeouts (run s [ClickRestartButton]) = [(O, ToSendoff2)] /\
  status (timeline (run s [ClickRestartButton])) = sendoff /\
  let s2 := run s [ClickDownload; ClickRestartButton; TimeoutFire] in
  restartCalls s2 = [] /\ downloads s2 = 1%nat /\
  status (timeline s2) = sendoff2.
Proof. vm_compute. repeat split; reflexivity. Qed.

Lemma card_finished : status (timeline (run (mount 0) toTheCard)) = finished.
Proof.
  pose proof card_facts as H. cbv zeta in H.
  destruct H as [H _]. exact H.
Qed.

Lemma restart_clicked :
  restartCalls (run (mount 0) (toTheCard ++ [ClickRestartButton])) = [] /\
  timeouts (run (mount 0) (toTheCard ++ [ClickRestartButton])) =
    [(O, ToSendoff2)] /\
  status (timeline (run (mount 0) (toTheCard ++ [ClickRestartButton]))) =
    sendoff.
Proof.
  pose proof card_facts as H. cbv zeta in H.
  destruct H as [_ [H1 [H2 [H3 _]]]]. rewrite run_split.
  split; [exact H1|]. split; [exact H2|exact H3].
Qed.

Lemma download_pending :
  restartCalls
    (run (mount 0)
       (toTheCard ++ [ClickDownload; ClickRestartButton; TimeoutFire])) = [] /\
  downloads
    (run (mount 0)
       (toTheCard ++ [ClickDownload; ClickRestartButton; TimeoutFire])) <> O /\
  status (timeline
    (run (mount 0)
       (toTheCard ++ [ClickDownload; ClickRestartButton; TimeoutFire]))) =
  sendoff2.
Proof.
  pose proof card_facts as H. cbv zeta in H.
  destruct H as [_ [_ [_ [_ [H1 [H2 H3]]]]]]. rewrite run_split.
  split; [exact H1|]. split; [|exact H3].
  intros E. rewrite H2 in E. discriminate E.
Qed.

(** *** What a user sees of the send-off *)

(** X17.  Until onRestart has been called, the pending timeouts are exactly
    what the screen shown calls for: on the first send-off screen the one
    that leads to the second screen, on the second screen the one that calls
    the onRestart of the latest render, and none before and on the final
    card.  On the send-off screens it is the timeout the next cleanup
    clears, and no interval of the timeline is live beside it. *)
Theorem sendoff_timeout_matches_screen (k : nat) (evs : list Event) :
  restartCalls (run (mount k) evs) = [] ->
  (status (timeline (run (mount k) evs)) = sendoff ->
   intervals (timeline (run (mount k) evs)) = [] /\
   exists i, timeouts (run (mount k) evs) = [(i, ToSendoff2)] /\
             sendCleanup (run (mount k) evs) = Some i) /\
  (status (timeline (run (mount k) evs)) = sendoff2 ->
   intervals (timeline (run (mount k) evs)) = [] /\
   exists i, timeouts (run (mount k) evs) =
               [(i, CallRestart (onRestartProp (run (mount k) evs)))] /\
             sendCleanup (run (mount k) evs) = Some i) /\
  (status (timeline (run (mount k) evs)) <> sendoff ->
   status (timeline (run (mount k) evs)) <> sendoff2 ->
   timeouts (run (mount k) evs) = []).
Proof.
  intros Hr. destruct (sendoff_wellFormed_reachable k evs) as [_ [_ H]].
  rewrite Hr in H.
  destruct (status (timeline (run (mount k) evs))); cbn [timerFor] in H;
    (split; [|split]); try discriminate; try congruence;
    try (intros; apply H).
  - intros _. destruct H as [Hi [i [Ht [Hc _]]]]. split; [exact Hi|].
    exists i. auto.
  - intros _. destruct H as [Hi [i [Ht [Hc _]]]]. split; [exact Hi|].
    exists i. auto.
Qed.

Lemma sendoff_timeout_matches_screen_witness :
  restartCalls (run (mount 0) (toTheCard ++ [ClickRestartButton])) = [] /\
  status (timeline (run (mount 0) (toTheCard ++ [ClickRestartButton]))) =
    sendoff /\
  intervals (timeline (run (mount 0) (toTheCard ++ [ClickRestartButton]))) = [] /\
  exists i, timeouts (run (mount 0) (toTheCard ++ [ClickRestartButton])) =
              [(i, ToSendoff2)] /\
            sendCleanup (run (mount 0) (toTheCard ++ [ClickRestartButton])) =
              Some i.
Proof.
  destruct restart_clicked as [H [_ Hst]].
  split; [exact H|]. split; [exact Hst|].
  exact (proj1 (sendoff_timeout_matches_screen 0
                  (toTheCard ++ [ClickRestartButton]) H) Hst).
Defined.

(** X18.  onRestart is called at most once, from the second send-off screen
    only, and the closure called is the one of the latest render; nothing
    is left pending after the call. *)
Theorem onRestart_once_and_latest (k : nat) (evs : list Event) :
  restartCalls (run (mount k) evs) = [] \/
  (restartCalls (run (mount k) evs) = [onRestartProp (run (mount k) evs)] /\
   status (timeline (run (mount k) evs)) = sendoff2 /\
   timeouts (run (mount k) evs) = []).
Proof.
  destruct (sendoff_wellFormed_reachable k evs) as [_ [_ H]].
  destruct (restartCalls (run (mount k) evs)) as [|c rest]; [left; reflexivity|].
  right. destruct H as [H1 [H2 [H3 H4]]]. subst. auto.
Qed.

(** X19.  From the final card, a click on Restart and the two timeouts in
    turn end in one call of onRestart, whatever number of parent renders
    comes in between; the closure called is the one of the last of them. *)
Theorem sendoff_ends_in_restart (k : nat) (evs : list Event) (a b : nat) :
  status (timeline (run (mount k) evs)) = finished ->
  restartCalls
    (run (mount k)
       (evs ++ ClickRestartButton :: repeat ParentRerender a ++
               TimeoutFire :: repeat ParentRerender b ++ [TimeoutFire])) =
  [(onRestartProp (run (mount k) evs) + a + b)%nat].
Proof.
  intros Hst. rewrite run_split.
  pose proof (sendoff_wellFormed_reachable k evs) as Hwf.
  set (s := run (mount k) evs) in *.
  cbn [run fold_left]. fold (run (step s ClickRestartButton)
    (repeat ParentRerender a ++ TimeoutFire :: repeat ParentRerender b ++ [TimeoutFire])).
  destruct (step_restart_click s Hwf Hst) as [W1 [R1 [S1 K1]]].
  rewrite run_split.
  destruct (run_rerenders a _ W1 R1) as [W2 [R2 [S2 K2]]].
  set (s2 := run (step s ClickRestartButton) (repeat ParentRerender a)) in *.
  cbn [run fold_left]. fold (run (step s2 TimeoutFire)
    (repeat ParentRerender b ++ [TimeoutFire])).
  destruct (step_fire_sendoff s2 W2 R2) as [W3 [R3 [S3 K3]]]; [congruence|].
  rewrite run_split.
  destruct (run_rerenders b _ W3 R3) as [W4 [R4 [S4 K4]]].
  set (s4 := run (step s2 TimeoutFire) (repeat ParentRerender b)) in *.
  cbn [run fold_left].
  rewrite (step_fire_sendoff2 s4 W4 R4); [|congruence].
  f_equal. lia.
Qed.

Lemma sendoff_ends_in_restart_witness :
  status (timeline (run (mount 0) toTheCard)) = finished /\
  restartCalls
    (run (mount 0)
       (toTheCard ++ ClickRestartButton :: repeat ParentRerender 2 ++
               TimeoutFire :: repeat ParentRerender 1 ++ [TimeoutFire])) =
  [(onRestartProp (run (mount 0) toTheCard) + 2 + 1)%nat].
Proof.
  pose proof card_finished as H.
  split; [exact H|].
  exact (sendoff_ends_in_restart 0 toTheCard 2 1 H).
Defined.

(** X20.  A parent render during a send-off screen starts the wait over:
    the pending timeout is cleared and a new one takes its place. *)
Theorem parent_render_restarts_timeout (k : nat) (evs : list Event)
    (i : nat) (a : TimerAction) :
  restartCalls (run (mount k) evs) = [] ->
  timeouts (run (mount k) evs) = [(i, a)] ->
  exists j a',
    timeouts (step (run (mount k) evs) ParentRerender) = [(j, a')] /\
    j <> i /\
    timerFor (status (timeline (run (mount k) evs)))
      (S (onRestartProp (run (mount k) evs))) = Some a'.
Proof.
  intros Hr Hto. pose proof (sendoff_wellFormed_reachable k evs) as Hwf.
  set (s := run (mount k) evs) in *.
  destruct Hwf as [Hd [Hset Hcase]]. rewrite Hr in Hcase.
  destruct (timerFor (status (timeline s)) (onRestartProp s)) as [a0|] eqn:Htf;
    [|destruct Hcase as [Hnil _]; congruence].
  destruct Hcase as [Hi [i0 [Hto' [Hcl Hlt]]]].
  rewrite Hto in Hto'. inversion Hto'; subst i0 a0. clear Hto'.
  unfold step. rewrite Hr.
  set (s1 := SendOff.mkState (timeline s) (S (onRestartProp s)) (timeouts s)
               (nextTimeout s) (sendCleanup s) (sendDeps s) (downloads s) []).
  rewrite commit_split. cbn [timeouts withTimeline].
  change (timeline s1) with (timeline s).
  assert (Hch : sendDepsChanged (status (timeline s)) s1 = true).
  { unfold sendDepsChanged, s1. cbn [sendDeps onRestartProp]. rewrite Hd.
    destruct (Status_eq_dec (status (timeline s)) (status (timeline s)));
      [|congruence].
    replace (Nat.eqb (onRestartProp s) (S (onRestartProp s))) with false;
      [reflexivity|].
    symmetry. apply Nat.eqb_neq. lia. }
  destruct (pass_runs (status (timeline s)) s1 Hch) as [Hd1 Ht1].
  { right. exists i, a. split; [exact Hto|exact Hcl]. }
  assert (Hsame : status (EndingScene.renderOnce (timeline s)) = status (timeline s)).
  { unfold EndingScene.renderOnce. rewrite Hset. reflexivity. }
  rewrite Hsame.
  destruct (pass_fields (status (timeline s)) s1) as [_ [Fk _]].
  assert (Hun : sendOffPass (status (timeline s))
                  (sendOffPass (status (timeline s)) s1) =
                sendOffPass (status (timeline s)) s1).
  { unfold sendOffPass at 1.
    rewrite sendDepsChanged_same; [reflexivity|]. rewrite Fk. exact Hd1. }
  rewrite Hun.
  change (onRestartProp s1) with (S (onRestartProp s)) in Ht1.
  change (nextTimeout s1) with (nextTimeout s) in Ht1.
  destruct (timerFor (status (timeline s)) (S (onRestartProp s))) as [a'|] eqn:Htf'.
  - destruct Ht1 as [Ht1 _]. exists (nextTimeout s), a'.
    split; [exact Ht1|]. split; [lia|reflexivity].
  - destruct (status (timeline s)); discriminate.
Qed.

Lemma parent_render_restarts_timeout_witness :
  restartCalls (run (mount 0) (toTheCard ++ [ClickRestartButton])) = [] /\
  timeouts (run (mount 0) (toTheCard ++ [ClickRestartButton])) = [(O, ToSendoff2)] /\
  exists j a',
    timeouts (step (run (mount 0) (toTheCard ++ [ClickRestartButton]))
                ParentRerender) = [(j, a')] /\
    j <> O /\
    timerFor (status (timeline (run (mount 0) (toTheCard ++ [ClickRestartButton]))))
      (S (onRestartProp (run (mount 0) (toTheCard ++ [ClickRestartButton])))) =
    Some a'.
Proof.
  destruct restart_clicked as [H1 [H2 _]].
  split; [exact H1|]. split; [exact H2|].
  exact (parent_render_restarts_timeout 0 (toTheCard ++ [ClickRestartButton])
           O ToSendoff2 H1 H2).
Defined.

(** X21.  A download of the card that completes only on the second
    send-off screen sets the status back to the first one: the pending call
    of onRestart is cancelled and the first screen gets its timeout
    again. *)
Theorem late_download_restarts_sendoff (k : nat) (evs : list Event) :
  restartCalls (run (mount k) evs) = [] ->
  downloads (run (mount k) evs) <> O ->
  status (timeline (run (mount k) evs)) = sendoff2 ->
  status (timeline (step (run (mount k) evs) (DownloadSettled true))) = sendoff /\
  restartCalls (step (run (mount k) evs) (DownloadSettled true)) = [] /\
  exists i,
    timeouts (step (run (mount k) evs) (DownloadSettled true)) = [(i, ToSendoff2)].
Proof.
  intros Hr Hdl Hst. pose proof (sendoff_wellFormed_reachable k evs) as Hwf.
  set (s := run (mount k) evs) in *.
  pose proof (sendoff_wellFormed_step s (DownloadSettled true) Hwf) as Hwf'.
  pose proof (wellFormed_stopped s Hwf Hr) as Hi.
  pose proof (wellFormed_pending s Hwf Hr) as Hp.
  unfold step in *. rewrite Hr in *.
  destruct (downloads s) as [|n] eqn:Hn; [congruence|]. cbv zeta in *.
  set (s1 := SendOff.mkState (timeline s) (onRestartProp s) (timeouts s)
               (nextTimeout s) (sendCleanup s) (sendDeps s) n []) in *.
  destruct (setStatus_wellFormed sendoff s1) as [_ Hs]; auto.
  { apply Hi; congruence. }
  destruct (commit_fields (setStatusTo sendoff s1)) as [_ [_ [_ Fr]]].
  split; [exact Hs|]. split; [exact Fr|].
  destruct Hwf' as [_ [_ Hcase]]. rewrite Fr in Hcase.
  cbn [restartCalls setStatusTo withTimeline s1] in Hcase.
  rewrite Hs in Hcase. cbn [timerFor] in Hcase.
  destruct Hcase as [_ [i [Ht _]]]. exists i. exact Ht.
Qed.

Lemma late_download_restarts_sendoff_witness :
  restartCalls
    (run (mount 0)
       (toTheCard ++ [ClickDownload; ClickRestartButton; TimeoutFire])) = [] /\
  downloads
    (run (mount 0)
       (toTheCard ++ [ClickDownload; ClickRestartButton; TimeoutFire])) <> O /\
  status (timeline
    (run (mount 0)
       (toTheCard ++ [ClickDownload; ClickRestartButton; TimeoutFire]))) =
  sendoff2 /\
  status (timeline
    (step (run (mount 0)
             (toTheCard ++ [ClickDownload; ClickRestartButton; TimeoutFire]))
       (DownloadSettled true))) = sendoff /\
  restartCalls
    (step (run (mount 0)
             (toTheCard ++ [ClickDownload; ClickRestartButton; TimeoutFire]))
       (DownloadSettled true)) = [] /\
  exists i,
    timeouts
      (step (run (mount 0)
               (toTheCard ++ [ClickDownload; ClickRestartButton; TimeoutFire]))
         (DownloadSettled true)) = [(i, ToSendoff2)].
Proof.
  destruct download_pending as [H1 [H2 H3]].
  split; [exact H1|]. split; [exact H2|]. split; [exact H3|].
  exact (late_download_restarts_sendoff 0
           (toTheCard ++ [ClickDownload; ClickRestartButton; TimeoutFire])
           H1 H2 H3).
Defined.

End SendOffFacts.

(* ------------------------------------------------------------------ *)
(** ** The splash screen *)

Module SplashScreenFacts.

Import SplashScreen.

Local Open Scope string_scope.
Local Open Scope nat_scope.
Local Open Scope list_scope.

(** *** The schedule *)

(** Clearing the timeouts the cleanup knows leaves none. *)
Lemma clear_all (ids : list nat) (l : list Timer) :
  (forall t, In t l -> In (fst t) ids) ->
  filter (fun t : Timer => negb (existsb (Nat.eqb (fst t)) ids)) l = [].
Proof.
  induction l as [|t l IH]; intros H; [reflexivity|].
  cbn [filter].
  assert (Ht : existsb (Nat.eqb (fst t)) ids = true).
  { apply existsb_exists. exists (fst t). split; [apply H; left; reflexivity|].
    apply Nat.eqb_refl. }
  rewrite Ht. cbn [negb]. apply IH. intros u Hu. apply H. right. exact Hu.
Qed.

(** The rest of a schedule fires from its head. *)
Lemma earliest_rest (k n : nat) (l : list Timer) :
  map snd l = skipn n (schedule k) ->
  earliest l = match l with [] => None | t :: rest => Some (t, rest) end.
Proof.
  intros H.
  do 6 (destruct n as [|n];
        [repeat (destruct l as [|[? [? ?]] l]; try discriminate H);
         cbn in H; inversion H; subst; reflexivity|]).
  cbn in H. rewrite skipn_nil in H. destruct l; [reflexivity|discriminate H].
Qed.

Lemma skipn_tail (A : Type) (n : nat) (l : list A) (x : A) (r : list A) :
  skipn n l = x :: r -> skipn (S n) l = r.
Proof.
  revert l. induction n as [|n IH]; intros l H.
  - cbn in H. subst l. reflexivity.
  - destruct l as [|y l]; [discriminate H|]. cbn [skipn] in H |- *.
    apply IH. exact H.
Qed.

(** Which timeout is the head of the rest of the schedule. *)
Lemma schedule_head (k n : nat) (d : Z) (a : TimerAction)
    (r : list (Z * TimerAction)) :
  skipn n (schedule k) = (d, a) :: r ->
  (n = 0 /\ a = SpinDone) \/ (n = 1 /\ a = ToScene 2) \/
  (n = 2 /\ a = ToScene 3) \/ (n = 3 /\ a = ToScene 4) \/
  (n = 4 /\ a = ToScene 5) \/ (n = 5 /\ a = Complete k /\ r = []).
Proof.
  intros H.
  do 6 (destruct n as [|n]; [cbn in H; inversion H; subst; tauto|]).
  cbn in H. rewrite skipn_nil in H. discriminate H.
Qed.

Lemma schedule_last (k n : nat) (x : Z * TimerAction) :
  skipn n (schedule k) = [x] -> n = 5.
Proof.
  intros H.
  do 6 (destruct n as [|n]; [cbn in H; first [discriminate H | reflexivity]|]).
  cbn in H. rewrite skipn_nil in H. discriminate H.
Qed.

Lemma timers_length (l : list Timer) (m : list (Z * TimerAction)) :
  map snd l = m -> List.length l = List.length m.
Proof. intros H. rewrite <- H. symmetry. apply length_map. Qed.

Lemma schedule_length (k n : nat) (l : list Timer) :
  map snd l = skipn n (schedule k) -> List.length l = 6 - n.
Proof.
  intros H. apply (f_equal (@List.length _)) in H.
  rewrite length_map, length_skipn in H. exact H.
Qed.

(** *** One render *)

Lemma mainDepsChanged_false (s : State) :
  mainDepsChanged s = false <-> mainDeps s = Some (onCompleteProp s, started s).
Proof.
  unfold mainDepsChanged. destruct (mainDeps s) as [[k b]|]; split; intros H;
    try discriminate H.
  - apply negb_false_iff, andb_prop in H as [H1 H2].
    apply Nat.eqb_eq in H1. apply Bool.eqb_prop in H2. congruence.
  - inversion H. rewrite Nat.eqb_refl, Bool.eqb_reflx. reflexivity.
Qed.

Lemma sceneDepsChanged_false (s : State) :
  sceneDepsChanged s = false <-> sceneDeps s = Some (scene s).
Proof.
  unfold sceneDepsChanged. destruct (sceneDeps s) as [n|]; split; intros H;
    try discriminate H.
  - apply negb_false_iff, Nat.eqb_eq in H. congruence.
  - inversion H. rewrite Nat.eqb_refl. reflexivity.
Qed.

Lemma winDepsChanged_false (s : State) :
  winDepsChanged s = false <-> winDeps s = Some (spinFinished s).
Proof.
  unfold winDepsChanged. destruct (winDeps s) as [b|]; split; intros H;
    try discriminate H.
  - apply negb_false_iff, Bool.eqb_prop in H. congruence.
  - inversion H. rewrite Bool.eqb_reflx. reflexivity.
Qed.

Lemma splash_settled (s : State) :
  mainDeps s = Some (onCompleteProp s, started s) ->
  sceneDeps s = Some (scene s) ->
  winDeps s = Some (spinFinished s) ->
  commit s = s.
Proof.
  intros H1 H2 H3. unfold commit, mainPass, scenePass, winPass.
  rewrite (proj2 (mainDepsChanged_false s) H1).
  rewrite (proj2 (sceneDepsChanged_false s) H2).
  rewrite (proj2 (winDepsChanged_false s) H3). reflexivity.
Qed.

(** The main effect after a change of its dependencies: the whole schedule
    again after the start, nothing before. *)
Lemma mainPass_runs (s : State) :
  mainDepsChanged s = true ->
  (forall t, In t (timers s) -> In (fst t) (mainCleanup s)) ->
  mainOK (mainPass s) /\
  map snd (timers (mainPass s)) =
    (if started s then schedule (onCompleteProp s) else []).
Proof.
  intros Hc H. unfold mainPass. rewrite Hc.
  unfold clearTimeouts, mainEffect, mainOK.
  cbn [setTimers started timers mainCleanup].
  rewrite (clear_all _ _ H).
  destruct (started s) eqn:Hst; cbn.
  - rewrite Hst. split; [|reflexivity].
    split; [reflexivity|]. split; [|split; [exists 0; reflexivity|discriminate]].
    intros t Ht. repeat (destruct Ht as [<-|Ht]; [cbn; tauto|]). destruct Ht.
  - rewrite Hst. split; [|reflexivity].
    split; [reflexivity|]. split; [intros t []|].
    split; [exists 6; reflexivity|reflexivity].
Qed.

Lemma mainPass_ok (s : State) :
  (forall t, In t (timers s) -> In (fst t) (mainCleanup s)) ->
  (mainDepsChanged s = false -> mainOK s /\ lastCall s) ->
  mainOK (mainPass s) /\ lastCall (mainPass s).
Proof.
  intros H Hun. destruct (mainDepsChanged s) eqn:Hc.
  - destruct (mainPass_runs s Hc H) as [Hok Ht]. split; [exact Hok|].
    intros d k E. rewrite Ht in E. destruct (started s); discriminate E.
  - unfold mainPass. rewrite Hc. apply Hun. reflexivity.
Qed.

(** The main effect touches nothing but its timeouts. *)
Lemma mainPass_frame (s : State) :
  scene (mainPass s) = scene s /\ countdown (mainPass s) = countdown s /\
  spinFinished (mainPass s) = spinFinished s /\
  started (mainPass s) = started s /\
  onCompleteProp (mainPass s) = onCompleteProp s /\
  intervals (mainPass s) = intervals s /\
  sceneCleanup (mainPass s) = sceneCleanup s /\
  sceneDeps (mainPass s) = sceneDeps s /\ winDeps (mainPass s) = winDeps s /\
  log (mainPass s) = log s /\ unmounted (mainPass s) = unmounted s /\
  winPlaying (mainPass s) = winPlaying s.
Proof.
  unfold mainPass. destruct (mainDepsChanged s); [|repeat split].
  unfold mainEffect, clearTimeouts. cbn [started setTimers].
  destruct (started s) eqn:E; cbn; repeat split; exact E.
Qed.

(** The scene effect after the cleanup of its last run. *)
Lemma scenePass_ok (s : State) :
  intervals s = [] \/ (exists i, intervals s = [i] /\ sceneCleanup s = Some i) ->
  (sceneDepsChanged s = false -> sceneOK s) ->
  sceneOK (scenePass s).
Proof.
  intros Hi Hun. unfold scenePass. destruct (sceneDepsChanged s) eqn:Hc;
    [|apply Hun; reflexivity].
  assert (Hclr : intervals (runSceneCleanup s) = []).
  { unfold runSceneCleanup. destruct Hi as [Hi | [i [Hi Hcl]]].
    - destruct (sceneCleanup s); [|exact Hi].
      unfold clearInterval. cbn [setIntervals intervals]. rewrite Hi. reflexivity.
    - rewrite Hcl. unfold clearInterval. cbn [setIntervals intervals].
      rewrite Hi. cbn [filter]. rewrite Nat.eqb_refl. reflexivity. }
  assert (Hsc : scene (runSceneCleanup s) = scene s).
  { unfold runSceneCleanup. destruct (sceneCleanup s); reflexivity. }
  unfold sceneOK, sceneEffect. rewrite Hsc.
  destruct (scene s) as [|[|[|[|[|n]]]]] eqn:E; cbn; rewrite ?Hsc, ?Hclr;
    repeat split; try congruence; try lia; intros _; eauto.
Qed.

(** The scene effect touches nothing but its interval and the sounds. *)
Lemma scenePass_frame (s : State) :
  scene (scenePass s) = scene s /\ countdown (scenePass s) = countdown s /\
  spinFinished (scenePass s) = spinFinished s /\
  started (scenePass s) = started s /\
  onCompleteProp (scenePass s) = onCompleteProp s /\
  timers (scenePass s) = timers s /\
  mainCleanup (scenePass s) = mainCleanup s /\
  mainDeps (scenePass s) = mainDeps s /\ winDeps (scenePass s) = winDeps s /\
  completions (scenePass s) = completions s /\
  unmounted (scenePass s) = unmounted s /\
  winPlaying (scenePass s) = winPlaying s.
Proof.
  unfold scenePass. destruct (sceneDepsChanged s); [|repeat split].
  unfold sceneEffect, runSceneCleanup, completions.
  destruct (sceneCleanup s) as [j|]; cbn [scene clearInterval setIntervals];
    destruct (scene s) as [|[|[|[|[|m]]]]] eqn:E; cbn; rewrite ?E;
    repeat split.
Qed.

Lemma winPass_frame (s : State) :
  scene (winPass s) = scene s /\ countdown (winPass s) = countdown s /\
  spinFinished (winPass s) = spinFinished s /\
  started (winPass s) = started s /\
  onCompleteProp (winPass s) = onCompleteProp s /\
  timers (winPass s) = timers s /\
  mainCleanup (winPass s) = mainCleanup s /\
  mainDeps (winPass s) = mainDeps s /\
  intervals (winPass s) = intervals s /\
  sceneCleanup (winPass s) = sceneCleanup s /\
  sceneDeps (winPass s) = sceneDeps s /\
  completions (winPass s) = completions s /\
  unmounted (winPass s) = unmounted s.
Proof.
  unfold winPass. destruct (winDepsChanged s); [|repeat split].
  unfold winEffect, completions.
  destruct (spinFinished s) eqn:E; cbn; rewrite ?E; repeat split.
Qed.

Lemma winPass_ok (s : State) : winDeps (winPass s) = Some (spinFinished (winPass s)).
Proof.
  unfold winPass. destruct (winDepsChanged s) eqn:Hc.
  - unfold winEffect. destruct (spinFinished s) eqn:E; cbn; rewrite ?E; reflexivity.
  - apply winDepsChanged_false, Hc.
Qed.

(** What a render needs to find to leave the component steady. *)
Lemma splash_steady_commit (s : State) :
  (forall t, In t (timers s) -> In (fst t) (mainCleanup s)) ->
  (mainDepsChanged s = false -> mainOK s /\ lastCall s) ->
  intervals s = [] \/ (exists i, intervals s = [i] /\ sceneCleanup s = Some i) ->
  (sceneDepsChanged s = false -> sceneOK s) ->
  countdown s <= 5 -> completions s = [] ->
  steady (commit s).
Proof.
  intros HT Hm Hi Hs Hc Hl. unfold commit.
  destruct (mainPass_ok s HT Hm) as [M1 L1].
  destruct (mainPass_frame s)
    as (F1 & F2 & F3 & F4 & F5 & F6 & F7 & F8 & F9 & F10 & F11 & F12).
  set (s1 := mainPass s) in *.
  assert (S1 : sceneOK (scenePass s1)).
  { apply scenePass_ok.
    - rewrite F6, F7. exact Hi.
    - intros E. unfold sceneOK. rewrite F8, F1, F6, F7.
      apply Hs. unfold sceneDepsChanged in E |- *. rewrite F8, F1 in E. exact E. }
  destruct (scenePass_frame s1)
    as (G1 & G2 & G3 & G4 & G5 & G6 & G7 & G8 & G9 & G10 & G11 & G12).
  set (s2 := scenePass s1) in *.
  destruct (winPass_frame s2)
    as (W1 & W2 & W3 & W4 & W5 & W6 & W7 & W8 & W9 & W10 & W11 & W12 & W13).
  unfold steady. split; [|split; [|split; [|split; [|split]]]].
  - unfold mainOK in *. rewrite W8, W5, W4, W6, W7, G8, G5, G4, G6, G7.
    exact M1.
  - unfold sceneOK in *. rewrite W11, W1, W9, W10. exact S1.
  - apply winPass_ok.
  - unfold lastCall in *. rewrite W6, W1, G6, G1. exact L1.
  - rewrite W2, G2, F2. exact Hc.
  - rewrite W12, G10. unfold completions in *. rewrite F10. exact Hl.
Qed.

Lemma commit_frame (s : State) :
  scene (commit s) = scene s /\ countdown (commit s) = countdown s /\
  spinFinished (commit s) = spinFinished s /\
  started (commit s) = started s /\
  onCompleteProp (commit s) = onCompleteProp s /\
  unmounted (commit s) = unmounted s /\
  completions (commit s) = completions s /\
  timers (commit s) = timers (mainPass s).
Proof.
  unfold commit.
  destruct (mainPass_frame s)
    as (F1 & F2 & F3 & F4 & F5 & F6 & F7 & F8 & F9 & F10 & F11 & F12).
  destruct (scenePass_frame (mainPass s))
    as (G1 & G2 & G3 & G4 & G5 & G6 & G7 & G8 & G9 & G10 & G11 & G12).
  destruct (winPass_frame (scenePass (mainPass s)))
    as (W1 & W2 & W3 & W4 & W5 & W6 & W7 & W8 & W9 & W10 & W11 & W12 & W13).
  repeat split; try congruence.
  rewrite W12, G10. unfold completions. rewrite F10. reflexivity.
Qed.

Lemma sceneOK_shape (s : State) :
  sceneOK s ->
  intervals s = [] \/ (exists i, intervals s = [i] /\ sceneCleanup s = Some i).
Proof.
  intros [_ [H4 Hn]]. destruct (Nat.eq_dec (scene s) 4) as [E|E]; auto.
Qed.

(** *** The invariant *)

Ltac fields :=
  cbn [scene countdown spinFinished started onCompleteProp unmounted timers
       intervals nextId winPlaying mainCleanup mainDeps sceneCleanup sceneDeps
       winDeps log setScene setCountdown setSpinFinished setStarted
       setOnComplete setUnmounted setTimers setIntervals setWinPlaying
       setMainCleanup setMainDeps setSceneCleanup setSceneDeps setWinDeps
       emit playAudio].

Ltac fields_in H :=
  cbn [scene countdown spinFinished started onCompleteProp unmounted timers
       intervals nextId winPlaying mainCleanup mainDeps sceneCleanup sceneDeps
       winDeps log setScene setCountdown setSpinFinished setStarted
       setOnComplete setUnmounted setTimers setIntervals setWinPlaying
       setMainCleanup setMainDeps setSceneCleanup setSceneDeps setWinDeps
       emit playAudio] in H.

Lemma splash_wellFormed_mount (k : nat) : wellFormed (mount k).
Proof.
  unfold wellFormed, mount.
  destruct (commit_frame (mkState 1 5 false false k false [] [] 0 0
                            [] None None None None []))
    as (_ & _ & _ & _ & _ & U & _).
  rewrite U. cbn [unmounted].
  apply splash_steady_commit; cbn; try discriminate; auto.
Qed.

Lemma splash_steady_step (s : State) (e : Event) :
  unmounted s = false -> steady s -> wellFormed (step s e).
Proof.
  intros Hum H. pose proof H as H0.
  destruct H as ((D1 & T1 & (n & T2) & T3) & S1 & D3 & L & C & Lg).
  pose proof (sceneOK_shape s S1) as Hshape.
  destruct e; unfold step; rewrite ?Hum.
  - (* ClickStart *)
    destruct (started s) eqn:Hst;
      [unfold wellFormed; rewrite Hum; exact H0|].
    unfold wellFormed.
    match goal with |- context [commit ?x] =>
      destruct (commit_frame x) as (_ & _ & _ & _ & _ & U & _); rewrite U
    end.
    cbn [unmounted setStarted playAudio emit]. rewrite Hum.
    apply splash_steady_commit.
    + cbn [timers mainCleanup setStarted playAudio emit].
      rewrite (T3 eq_refl). intros t [].
    + intros E. exfalso. apply mainDepsChanged_false in E.
      cbn [mainDeps onCompleteProp started setStarted playAudio emit] in E.
      rewrite D1 in E. discriminate E.
    + exact Hshape.
    + intros _. exact S1.
    + exact C.
    + exact Lg.
  - (* TimeoutFire *)
    rewrite (earliest_rest _ _ _ T2).
    destruct (timers s) as [|[id [d a]] rest] eqn:Ht;
      [unfold wellFormed; rewrite Hum; exact H0|].
    cbn [map snd] in T2. symmetry in T2.
    pose proof (skipn_tail _ _ _ _ _ T2) as Hrest. symmetry in Hrest.
    assert (HT : forall t, In t rest -> In (fst t) (mainCleanup s)).
    { intros t Hin. apply T1. right. exact Hin. }
    assert (Hstd : started s = true).
    { destruct (started s); [reflexivity|]. specialize (T3 eq_refl).
      discriminate T3. }
    cbn [snd].
    destruct (schedule_head _ _ _ _ _ T2)
      as [[Hn Ha]|[[Hn Ha]|[[Hn Ha]|[[Hn Ha]|[[Hn Ha]|[Hn [Ha Hr]]]]]]];
      subst a; unfold fire.
    6: destruct rest as [|t' rest']; [|discriminate Hr].
    1-5: unfold wellFormed;
      match goal with |- context [commit ?x] =>
        destruct (commit_frame x) as (_ & _ & _ & _ & _ & U & _); rewrite U
      end;
      cbn [unmounted setSpinFinished setScene setTimers]; rewrite Hum;
      apply splash_steady_commit;
      [ exact HT
      | intros _; split;
        [ unfold mainOK; fields; split; [exact D1|]; split; [exact HT|];
          split; [exists (S n); exact Hrest|]; intros E;
          rewrite Hstd in E; discriminate E
        | unfold lastCall; fields; intros d' k' E;
          rewrite Hrest in E; apply schedule_last in E;
          first [reflexivity | lia] ]
      | exact Hshape
      | intros E; apply sceneDepsChanged_false in E; fields_in E;
        first [ exact S1
              | destruct S1 as [D2 S1']; rewrite D2 in E; injection E as E';
                rewrite <- E'; split; [exact D2|exact S1'] ]
      | exact C
      | exact Lg ].
    (* the call of onComplete *)
    assert (Hsc : scene s = 5).
    { apply (L d (onCompleteProp s)). rewrite Ht. reflexivity. }
    assert (Hiv : intervals s = []).
    { destruct S1 as [_ [_ Hne]]. apply Hne. lia. }
    unfold wellFormed, unmount. cbn [unmounted setUnmounted].
    unfold completed, runSceneCleanup, clearTimeouts, clearInterval. fields.
    destruct (sceneCleanup s) as [j|]; fields; rewrite ?Hiv; cbn [filter];
      (split; [reflexivity|]); (split; [reflexivity|]);
      (split; [exact Hsc|]); (split; [exact C|]);
      unfold completions in Lg |- *; fields; cbn [filter isComplete];
      rewrite Lg; reflexivity.
  - (* IntervalTick *)
    destruct (intervals s) as [|i ids] eqn:Hi;
      [unfold wellFormed; rewrite Hum; exact H0|].
    assert (Hone : ids = []).
    { destruct Hshape as [E|[j [E _]]]; [discriminate E|]. inversion E.
      reflexivity. }
    subst ids. cbn [fold_left].
    rewrite splash_settled; [|exact D1|apply S1|exact D3].
    unfold wellFormed. cbn [unmounted setCountdown]. rewrite Hum.
    unfold steady. split; [exact (proj1 H0)|]. split; [exact S1|].
    split; [exact D3|]. split; [exact L|]. split; [|exact Lg].
    cbn [countdown setCountdown].
    destruct (Nat.leb (countdown s) 1); lia.
  - (* ParentRerender *)
    unfold wellFormed.
    match goal with |- context [commit ?x] =>
      destruct (commit_frame x) as (_ & _ & _ & _ & _ & U & _); rewrite U
    end.
    cbn [unmounted setOnComplete]. rewrite Hum.
    apply splash_steady_commit.
    + exact T1.
    + intros E. exfalso. apply mainDepsChanged_false in E.
      cbn [mainDeps onCompleteProp started setOnComplete] in E.
      rewrite D1 in E. inversion E. lia.
    + exact Hshape.
    + intros _. exact S1.
    + exact C.
    + exact Lg.
  - (* WinEnded *)
    unfold wellFormed.
    destruct (winPlaying s); cbn [unmounted playAudio emit setWinPlaying];
      rewrite Hum; exact H0.
Qed.

Lemma completed_step (s : State) (e : Event) :
  unmounted s = true -> completed s -> wellFormed (step s e).
Proof.
  intros Hum H.
  destruct e; unfold step;
    try (rewrite Hum; cbv beta iota; unfold wellFormed; rewrite Hum; exact H).
  destruct (winPlaying s); unfold wellFormed;
    cbn [unmounted playAudio emit setWinPlaying]; rewrite Hum; exact H.
Qed.

Lemma splash_wellFormed_step (s : State) (e : Event) :
  wellFormed s -> wellFormed (step s e).
Proof.
  intros H. unfold wellFormed in H. destruct (unmounted s) eqn:Hum.
  - apply completed_step; assumption.
  - apply splash_steady_step; assumption.
Qed.

Lemma splash_wellFormed_run (evs : list Event) :
  forall s, wellFormed s -> wellFormed (run s evs).
Proof.
  induction evs as [|e evs IH]; intros s H; [exact H|].
  cbn [run fold_left]. apply (IH (step s e)), splash_wellFormed_step, H.
Qed.

Lemma splash_wellFormed_reachable (k : nat) (evs : list Event) :
  wellFormed (run (mount k) evs).
Proof. apply splash_wellFormed_run, splash_wellFormed_mount. Qed.

(** *** The sounds *)

Lemma sounds_play (u : string) (s : State) :
  sounds (playAudio u s) =
  sounds s ++ (if String.eqb u "/error.mp3" then [] else [u]).
Proof.
  unfold sounds. fields. cbn [flat_map]. rewrite rev_app_distr.
  destruct (String.eqb u "/error.mp3"); reflexivity.
Qed.

Lemma sounds_scenePass (s : State) :
  sounds (scenePass s) =
  sounds s ++ (if sceneDepsChanged s then sceneSound (scene s) else []).
Proof.
  unfold scenePass. destruct (sceneDepsChanged s);
    [|rewrite app_nil_r; reflexivity].
  unfold sceneEffect, runSceneCleanup.
  destruct (sceneCleanup s) as [j|]; cbn [scene clearInterval setIntervals];
    destruct (scene s) as [|[|[|[|[|m]]]]] eqn:E; unfold sounds; cbn;
    rewrite ?app_nil_r; reflexivity.
Qed.

Lemma sounds_winPass (s : State) :
  sounds (winPass s) =
  sounds s ++ (if winDepsChanged s && spinFinished s then ["/win.mp3"] else []).
Proof.
  unfold winPass. destruct (winDepsChanged s);
    [|rewrite app_nil_r; reflexivity].
  unfold winEffect. destruct (spinFinished s) eqn:E; unfold sounds; cbn;
    rewrite ?E, ?app_nil_r; reflexivity.
Qed.

Lemma sounds_commit (s : State) :
  sounds (commit s) =
  sounds s ++ (if sceneDepsChanged s then sceneSound (scene s) else []) ++
  (if winDepsChanged s && spinFinished s then ["/win.mp3"] else []).
Proof.
  unfold commit.
  destruct (mainPass_frame s)
    as (F1 & F2 & F3 & F4 & F5 & F6 & F7 & F8 & F9 & F10 & F11 & F12).
  destruct (scenePass_frame (mainPass s))
    as (G1 & G2 & G3 & G4 & G5 & G6 & G7 & G8 & G9 & G10 & G11 & G12).
  rewrite sounds_winPass, sounds_scenePass.
  unfold winDepsChanged, sceneDepsChanged.
  rewrite G9, G3, F9, F3, F8, F1. unfold sounds at 1. rewrite F10.
  rewrite <- app_assoc. reflexivity.
Qed.

Lemma fired_commit (s : State) :
  mainDeps s = Some (onCompleteProp s, started s) ->
  fired (commit s) = fired s.
Proof.
  intros H. destruct (commit_frame s) as (_ & _ & _ & F4 & _ & _ & _ & F8).
  unfold fired. rewrite F4, F8. unfold mainPass.
  rewrite (proj2 (mainDepsChanged_false s) H). reflexivity.
Qed.

(** Without a parent render in between, a step keeps the run on the
    schedule. *)
Lemma onTrack_step (s : State) (e : Event) :
  wellFormed s -> onTrack s ->
  match e with ParentRerender => False | _ => True end ->
  onTrack (step s e).
Proof.
  intros Hwf (Q1 & Q2 & Q3) He. unfold wellFormed in Hwf.
  destruct (unmounted s) eqn:Hum.
  { (* after the call *)
    destruct e; unfold step; rewrite ?Hum; cbv beta iota;
      try (split; [exact Q1|split; [exact Q2|exact Q3]]).
    destruct (winPlaying s); [split; [exact Q1|split; [exact Q2|exact Q3]]|].
    unfold onTrack. rewrite sounds_play. cbn [String.eqb Ascii.eqb Bool.eqb].
    rewrite app_nil_r. split; [exact Q1|split; [exact Q2|exact Q3]]. }
  pose proof Hwf as H0.
  destruct Hwf as ((D1 & T1 & (n & T2) & T3) & S1 & D3 & L & C & Lg).
  destruct e; unfold step; rewrite ?Hum; cbv beta iota.
  - (* ClickStart *)
    destruct (started s) eqn:Hst;
      [split; [exact Q1|split; [exact Q2|rewrite Hst; exact Q3]]|].
    set (x := setStarted true (playAudio "/spin.mp3" s)).
    assert (Hx : x = setStarted true (playAudio "/spin.mp3" s)) by reflexivity.
    destruct (commit_frame x) as (F1 & _ & F3 & F4 & _ & _ & _ & F8).
    assert (Hf : fired (commit x) = 0).
    { unfold fired. rewrite F4, F8.
      destruct (mainPass_runs x) as [_ Hm].
      - apply not_false_iff_true. intros E. apply mainDepsChanged_false in E.
        subst x. fields_in E. rewrite D1 in E. discriminate E.
      - subst x. fields. rewrite (T3 eq_refl). intros t [].
      - rewrite (timers_length _ _ Hm). subst x. reflexivity. }
    unfold fired in Q1, Q2. try rewrite Hst in Q1. try rewrite Hst in Q2.
    cbn in Q1, Q2.
    unfold onTrack. rewrite Hf, F1, F3, F4, sounds_commit.
    subst x. fields.
    unfold sceneDepsChanged, winDepsChanged. fields.
    rewrite (proj1 S1), D3, Nat.eqb_refl, Bool.eqb_reflx.
    cbn [negb andb app]. rewrite app_nil_r.
    change (sounds (setStarted true (playAudio "/spin.mp3" s)))
      with (sounds (playAudio "/spin.mp3" s)).
    rewrite sounds_play, Q3. cbn. auto.
  - (* TimeoutFire *)
    rewrite (earliest_rest _ _ _ T2).
    destruct (timers s) as [|[id [d a]] rest] eqn:Ht;
      [split; [exact Q1|split; [exact Q2|exact Q3]]|].
    cbn [map snd] in T2. symmetry in T2.
    pose proof (skipn_tail _ _ _ _ _ T2) as Hrest. symmetry in Hrest.
    pose proof (schedule_length _ _ _ Hrest) as Hlen.
    assert (Hstd : started s = true).
    { destruct (started s); [reflexivity|]. specialize (T3 eq_refl).
      discriminate T3. }
    unfold fired in Q1, Q2, Q3. rewrite Hstd, Ht in Q1, Q2, Q3.
    cbn [List.length] in Q1, Q2, Q3. rewrite Hlen in Q1, Q2, Q3.
    cbn [snd].
    destruct (schedule_head _ _ _ _ _ T2)
      as [[Hn Ha]|[[Hn Ha]|[[Hn Ha]|[[Hn Ha]|[[Hn Ha]|[Hn [Ha Hr]]]]]]];
      subst a n; cbn in Hlen, Q1, Q2, Q3; unfold fire.
    1-5: match goal with |- onTrack (commit ?x) =>
        destruct (commit_frame x) as (F1 & _ & F3 & F4 & _ & _ & _ & _);
        unfold onTrack;
        rewrite (fired_commit x D1), F1, F3, F4, sounds_commit
      end;
      unfold fired, sceneDepsChanged, winDepsChanged; fields;
      rewrite Hstd, Hlen, (proj1 S1), D3, Q1, Q2;
      change (sounds (setSpinFinished true (setTimers rest s))) with (sounds s)
        || change (sounds (setScene 2 (setTimers rest s))) with (sounds s)
        || change (sounds (setScene 3 (setTimers rest s))) with (sounds s)
        || change (sounds (setScene 4 (setTimers rest s))) with (sounds s)
        || change (sounds (setScene 5 (setTimers rest s))) with (sounds s);
      rewrite Q3; cbn; auto.
    (* the call of onComplete *)
    destruct rest as [|t' rest']; [|discriminate Hr].
    unfold onTrack, unmount, fired, runSceneCleanup, clearTimeouts,
      clearInterval, sounds. fields.
    destruct (sceneCleanup s) as [j|]; fields; rewrite Hstd, Q1, Q2;
      cbn [filter List.length flat_map app];
      unfold sounds in Q3; rewrite Q3; cbn; auto.
  - (* IntervalTick *)
    destruct (intervals s) as [|i ids] eqn:Hi;
      [split; [exact Q1|split; [exact Q2|exact Q3]]|].
    assert (Hsettled : forall x, mainDeps x = mainDeps s ->
              onCompleteProp x = onCompleteProp s -> started x = started s ->
              sceneDeps x = sceneDeps s -> scene x = scene s ->
              winDeps x = winDeps s -> spinFinished x = spinFinished s ->
              commit x = x).
    { intros x E1 E2 E3 E4 E5 E6 E7. apply splash_settled.
      - rewrite E1, E2, E3. exact D1.
      - rewrite E4, E5. apply S1.
      - rewrite E6, E7. exact D3. }
    assert (Hfold : forall l x,
              let y := fold_left
                (fun s' (_ : nat) =>
                   setCountdown
                     (fun prev => if Nat.leb prev 1 then 0 else prev - 1) s')
                l x in
              mainDeps y = mainDeps x /\ onCompleteProp y = onCompleteProp x /\
              started y = started x /\ sceneDeps y = sceneDeps x /\
              scene y = scene x /\ winDeps y = winDeps x /\
              spinFinished y = spinFinished x /\ timers y = timers x /\
              log y = log x).
    { induction l as [|a l IH]; intros x; cbn [fold_left]; [repeat split|].
      apply (IH (setCountdown _ x)). }
    destruct (Hfold (i :: ids) s) as (E1 & E2 & E3 & E4 & E5 & E6 & E7 & E8 & E9).
    cbv zeta in *. rewrite (Hsettled _ E1 E2 E3 E4 E5 E6 E7).
    unfold onTrack, fired, sounds. rewrite E5, E7, E3, E8, E9.
    split; [exact Q1|split; [exact Q2|exact Q3]].
  - destruct He.
  - (* WinEnded *)
    destruct (winPlaying s); [split; [exact Q1|split; [exact Q2|exact Q3]]|].
    unfold onTrack. rewrite sounds_play. cbn [String.eqb Ascii.eqb Bool.eqb].
    rewrite app_nil_r. split; [exact Q1|split; [exact Q2|exact Q3]].
Qed.

Lemma onTrack_run (evs : list Event) :
  forall s, wellFormed s -> onTrack s -> noParentRender evs = true ->
  onTrack (run s evs).
Proof.
  induction evs as [|e evs IH]; intros s Hwf Ht Hn; [exact Ht|].
  cbn [run fold_left]. cbn [noParentRender forallb] in Hn.
  apply andb_prop in Hn as [He Hn].
  apply (IH (step s e)).
  - apply splash_wellFormed_step, Hwf.
  - apply onTrack_step; [exact Hwf|exact Ht|].
    destruct e; try exact I. discriminate He.
  - exact Hn.
Qed.

Lemma onTrack_mount (k : nat) : onTrack (mount k).
Proof.
  unfold mount.
  match goal with |- onTrack (commit ?x) =>
    destruct (commit_frame x) as (F1 & _ & F3 & F4 & _ & _ & _ & _);
    unfold onTrack, fired; rewrite F1, F3, F4, sounds_commit
  end.
  cbn. auto.
Qed.

Lemma countdown_commit (s : State) : countdown (commit s) = countdown s.
Proof. apply commit_frame. Qed.

(** *** What a user sees of the splash screen *)

(** X22.  onComplete is called at most once, and never before the scene has
    been set to 5: the closure called is the one of the latest render, and
    after the call no timeout and no interval is left. *)
Theorem onComplete_once_after_last_scene (k : nat) (evs : list Event) :
  completions (run (mount k) evs) = [] \/
  (completions (run (mount k) evs) =
     [CallOnComplete (onCompleteProp (run (mount k) evs))] /\
   scene (run (mount k) evs) = 5 /\
   timers (run (mount k) evs) = [] /\
   intervals (run (mount k) evs) = []).
Proof.
  pose proof (splash_wellFormed_reachable k evs) as H. unfold wellFormed in H.
  destruct (unmounted (run (mount k) evs)).
  - right. destruct H as (H1 & H2 & H3 & _ & H5). auto.
  - left. apply H.
Qed.

(** X23.  The countdown starts at 5 and never exceeds it, never goes up
    and never below 0: a step leaves it as it is or, on a tick of the
    interval in scene 4, takes 1 off. *)
Theorem countdown_runs_down (k : nat) (evs : list Event) (e : Event) :
  countdown (run (mount k) evs) <= 5 /\
  (countdown (step (run (mount k) evs) e) = countdown (run (mount k) evs) \/
   (e = IntervalTick /\ scene (run (mount k) evs) = 4 /\
    S (countdown (step (run (mount k) evs) e)) =
    countdown (run (mount k) evs))).
Proof.
  pose proof (splash_wellFormed_reachable k evs) as H. unfold wellFormed in H.
  set (s := run (mount k) evs) in *. clearbody s.
  assert (Hc : countdown s <= 5).
  { destruct (unmounted s); [apply H|apply H]. }
  split; [exact Hc|].
  unfold step.
  destruct e.
  - left. destruct (unmounted s); [reflexivity|].
    destruct (started s); [reflexivity|]. rewrite countdown_commit; reflexivity.
  - left. destruct (unmounted s); [reflexivity|].
    destruct (earliest (timers s)) as [[[id [d a]] rest]|]; [|reflexivity].
    cbn [snd]. destruct a; unfold fire;
      try (rewrite countdown_commit; reflexivity).
    unfold unmount, runSceneCleanup, clearTimeouts, clearInterval. fields.
    destruct (sceneCleanup s); reflexivity.
  - destruct (unmounted s) eqn:Hum; [left; reflexivity|].
    destruct (intervals s) as [|i ids] eqn:Hi; [left; reflexivity|].
    destruct H as (_ & S1 & _).
    assert (Hsc : scene s = 4).
    { destruct (Nat.eq_dec (scene s) 4) as [E|E]; [exact E|].
      destruct S1 as [_ [_ Hne]]. rewrite (Hne E) in Hi. discriminate Hi. }
    assert (Hone : ids = []).
    { destruct S1 as [_ [H4 _]]. destruct (H4 Hsc) as [j [E _]].
      rewrite Hi in E. inversion E. reflexivity. }
    subst ids. cbn [fold_left]. rewrite countdown_commit. fields.
    destruct (countdown s) as [|[|c]]; cbn; [left; reflexivity| |];
      right; repeat split; try exact Hsc; lia.
  - left. destruct (unmounted s); [reflexivity|]. rewrite countdown_commit; reflexivity.
  - left. destruct (winPlaying s); reflexivity.
Qed.

(** X24.  A parent render after the start sets the whole schedule again,
    for the new onComplete, whatever part of it had already fired; the scene
    stays where it was.  So the splash screen then completes 20 s after
    that render. *)
Theorem parent_render_restarts_schedule (k : nat) (evs : list Event) :
  started (run (mount k) evs) = true ->
  unmounted (run (mount k) evs) = false ->
  map snd (timers (step (run (mount k) evs) ParentRerender)) =
    schedule (S (onCompleteProp (run (mount k) evs))) /\
  scene (step (run (mount k) evs) ParentRerender) =
    scene (run (mount k) evs).
Proof.
  intros Hst Hum. pose proof (splash_wellFormed_reachable k evs) as H.
  unfold wellFormed in H. rewrite Hum in H.
  set (s := run (mount k) evs) in *.
  destruct H as ((D1 & T1 & _) & _).
  unfold step. rewrite Hum.
  destruct (commit_frame (setOnComplete (S (onCompleteProp s)) s))
    as (F1 & _ & _ & _ & _ & _ & _ & F8).
  rewrite F1, F8. split; [|reflexivity].
  destruct (mainPass_runs (setOnComplete (S (onCompleteProp s)) s)) as [_ Hm].
  - apply not_false_iff_true. intros E. apply mainDepsChanged_false in E.
    fields_in E. rewrite D1 in E. inversion E. lia.
  - exact T1.
  - rewrite Hm. fields. rewrite Hst. reflexivity.
Qed.

Lemma parent_render_restarts_schedule_witness :
  map snd (timers (step (run (mount 0) [ClickStart; TimeoutFire; TimeoutFire])
                     ParentRerender)) =
    schedule (S (onCompleteProp (run (mount 0)
                                   [ClickStart; TimeoutFire; TimeoutFire]))) /\
  scene (step (run (mount 0) [ClickStart; TimeoutFire; TimeoutFire])
           ParentRerender) =
    scene (run (mount 0) [ClickStart; TimeoutFire; TimeoutFire]).
Proof.
  apply (parent_render_restarts_schedule 0
           [ClickStart; TimeoutFire; TimeoutFire]); reflexivity.
Defined.

(** X25.  Without a parent render in between the run keeps to the
    schedule: the scene is the one the number of timeouts fired leads to,
    the spin is finished once the first has fired, and the sounds started
    are an initial part of spin, win, glitch, cat, countdown, each started
    once. *)
Theorem keeps_to_schedule (k : nat) (evs : list Event) :
  noParentRender evs = true ->
  scene (run (mount k) evs) = sceneAt (fired (run (mount k) evs)) /\
  spinFinished (run (mount k) evs) = Nat.ltb 0 (fired (run (mount k) evs)) /\
  sounds (run (mount k) evs) =
    if started (run (mount k) evs)
    then firstn (S (Nat.min (fired (run (mount k) evs)) 4)) soundtrack
    else [].
Proof.
  intros Hn.
  exact (onTrack_run evs (mount k) (splash_wellFormed_mount k) (onTrack_mount k) Hn).
Qed.

Lemma keeps_to_schedule_witness :
  sounds (run (mount 0) [ClickStart; TimeoutFire; IntervalTick; TimeoutFire]) =
    firstn 3 soundtrack.
Proof.
  exact (proj2 (proj2 (keeps_to_schedule 0
           [ClickStart; TimeoutFire; IntervalTick; TimeoutFire] eq_refl))).
Defined.

End SplashScreenFacts.

(* ------------------------------------------------------------------ *)
(** ** The flow of the application *)

Module AppFacts.

Import App.

Local Open Scope string_scope.
Local Open Scope nat_scope.
Local Open Scope list_scope.

Ltac fields :=
  cbn [flags renders pendingPlays listener startDeps listenDeps sleighTimers
       nextTimer sleighCleanup sleighDeps box log
       setFlags setRenders setPendingPlays setListener setStartDeps
       setListenDeps setSleighTimers setSleighCleanup setSleighDeps setBox
       emit playMusic
       showSplash musicStarted deliveryStarted boxDropped extraGifts isMobile
       setShowSplash setMusicStarted setDeliveryStarted setBoxDropped
       setExtraGifts setIsMobile].

Ltac fields_in H :=
  cbn [flags renders pendingPlays listener startDeps listenDeps sleighTimers
       nextTimer sleighCleanup sleighDeps box log
       setFlags setRenders setPendingPlays setListener setStartDeps
       setListenDeps setSleighTimers setSleighCleanup setSleighDeps setBox
       emit playMusic
       showSplash musicStarted deliveryStarted boxDropped extraGifts isMobile
       setShowSplash setMusicStarted setDeliveryStarted setBoxDropped
       setExtraGifts setIsMobile] in H.

(** *** The main gift box *)

Lemma box_props_step (m : GiftBox.Mounted) (e : BoxEvent) :
  fst (GiftBox.step m (toGiftBox e)) = fst m.
Proof.
  destruct m as [p s]. destruct e; cbn [toGiftBox GiftBox.step fst].
  - reflexivity.
  - destruct (GiftBox.rendersNull p); reflexivity.
  - destruct (GiftBox.rendersNull p); reflexivity.
  - destruct (GiftBox.shakeTimers s); reflexivity.
Qed.

(** The opening effect sets [hasPlayedRef] only on an open box. *)
Lemma played_commit (p : GiftBox.Props) (s : GiftBox.State) :
  GiftBox.hasPlayedRef (GiftBox.commit p s) = true ->
  GiftBox.hasPlayedRef s = true \/ GiftBox.isOpen s = true.
Proof.
  destruct (GiftBoxFacts.commit_cases p s) as [[_ Hp]|[Ha _]].
  - rewrite Hp. auto.
  - intros Hc. right.
    destruct (GiftBox.isOpen s) eqn:Ho; [reflexivity|]. exfalso.
    assert (Hq : GiftBox.hasPlayedRef (GiftBox.commit p s) =
                 GiftBox.hasPlayedRef s).
    { unfold GiftBox.commit.
      set (s1 := match GiftBox.audioDeps s with
                 | Some u => if String.eqb u (GiftBox.soundUrl p) then s
                             else GiftBox.setAudioDeps (Some (GiftBox.soundUrl p))
                                    (GiftBox.audioEffect p s)
                 | None => GiftBox.setAudioDeps (Some (GiftBox.soundUrl p))
                             (GiftBox.audioEffect p s)
                 end).
      assert (H1 : GiftBox.isOpen s1 = false /\
                   GiftBox.hasPlayedRef s1 = GiftBox.hasPlayedRef s).
      { subst s1. destruct (GiftBox.audioDeps s) as [u|];
          [destruct (String.eqb u (GiftBox.soundUrl p))|];
          split; first [exact Ho | reflexivity]. }
      destruct H1 as [Hio Hh].
      assert (H2 : GiftBox.openEffect p s1 = s1).
      { unfold GiftBox.openEffect. rewrite Hio.
        destruct (GiftBox.variant p); reflexivity. }
      cbv zeta. rewrite H2.
      destruct (GiftBox.openDeps s1) as [d'|];
        [destruct (GiftBox.OpenDeps_eq_dec d'
                     (GiftBox.isOpen s1, GiftBox.onOpen p, GiftBox.variant p))|];
        cbn [GiftBox.setOpenDeps GiftBox.hasPlayedRef]; exact Hh. }
    congruence.
Qed.

Lemma played_open_step (m : GiftBox.Mounted) (e : GiftBox.Event) :
  (GiftBox.hasPlayedRef (snd m) = true -> GiftBox.isOpen (snd m) = true) ->
  GiftBox.hasPlayedRef (snd (GiftBox.step m e)) = true ->
  GiftBox.isOpen (snd (GiftBox.step m e)) = true.
Proof.
  intros Hinv Hp. rewrite GiftBoxUseFacts.isOpen_step.
  assert (Hmono : GiftBox.isOpen (snd m) = true ->
                  match e with
                  | GiftBox.Click =>
                      GiftBox.isOpen (snd m) ||
                      (GiftBox.isDropped (fst m) &&
                       if GiftBox.Variant_eq_dec (GiftBox.variant (fst m))
                            GiftBox.open then true else false)
                  | _ => GiftBox.isOpen (snd m)
                  end = true).
  { intros H. destruct e; rewrite ?H; reflexivity. }
  rewrite <- (GiftBoxUseFacts.isOpen_step m e).
  destruct m as [p s]. cbn [fst snd] in *.
  destruct e as [p'| | | |]; cbn [GiftBox.step snd] in Hp |- *.
  - destruct (played_commit _ _ Hp) as [H|H];
      [apply Hinv in H|]; destruct (GiftBoxUseFacts.commit_keeps p' s) as [-> _];
      exact H.
  - destruct (GiftBoxUseFacts.commit_keeps p (GiftBox.handleClick p s)) as [-> _].
    destruct (played_commit _ _ Hp) as [H|H]; [|exact H].
    destruct (GiftBoxFacts.handleClick_calls p s) as [_ Hh].
    rewrite Hh in H. apply Hinv in H.
    unfold GiftBox.handleClick.
    destruct (negb (GiftBox.isDropped p)); [exact H|].
    destruct (GiftBox.variant p); [reflexivity|].
    unfold GiftBox.triggerShake, GiftBox.play.
    cbn [GiftBox.setIsShaking GiftBox.audioRef].
    destruct (GiftBox.audioRef s); exact H.
  - destruct (GiftBox.rendersNull p); cbn [snd] in Hp |- *; [auto|].
    match goal with |- GiftBox.isOpen (GiftBox.commit _ ?x) = _ =>
      destruct (GiftBoxUseFacts.commit_keeps p x) as [-> _];
      destruct (played_commit _ _ Hp) as [H|H]; [|exact H]
    end.
    destruct (negb (GiftBox.isOpen s)); apply Hinv; exact H.
  - destruct (GiftBox.rendersNull p); cbn [snd] in Hp |- *; [auto|].
    match goal with |- GiftBox.isOpen (GiftBox.commit _ ?x) = _ =>
      destruct (GiftBoxUseFacts.commit_keeps p x) as [-> _];
      destruct (played_commit _ _ Hp) as [H|H]; [|exact H]
    end.
    apply Hinv; exact H.
  - destruct (GiftBox.shakeTimers s); cbn [snd] in Hp |- *; [auto|].
    match goal with |- GiftBox.isOpen (GiftBox.commit _ ?x) = _ =>
      destruct (GiftBoxUseFacts.commit_keeps p x) as [-> _];
      destruct (played_commit _ _ Hp) as [H|H]; [|exact H]
    end.
    apply Hinv; exact H.
Qed.

Lemma calls_commit (p : GiftBox.Props) (s : GiftBox.State) :
  GiftBox.onOpenCalls s <= GiftBox.onOpenCalls (GiftBox.commit p s).
Proof.
  destruct (GiftBoxFacts.commit_cases p s) as [[Hl _]|[_ [_ [_ [_ H]]]]].
  - unfold GiftBox.onOpenCalls. rewrite Hl. lia.
  - exact H.
Qed.

Lemma calls_step (m : GiftBox.Mounted) (e : GiftBox.Event) :
  GiftBox.onOpenCalls (snd m) <= GiftBox.onOpenCalls (snd (GiftBox.step m e)).
Proof.
  destruct m as [p s]. cbn [snd].
  destruct e as [p'| | | |]; cbn [GiftBox.step snd].
  - apply calls_commit.
  - destruct (GiftBoxFacts.handleClick_calls p s) as [Hc _].
    rewrite <- Hc. apply calls_commit.
  - destruct (GiftBox.rendersNull p); cbn [snd]; [lia|].
    match goal with |- _ <= GiftBox.onOpenCalls (GiftBox.commit _ ?x) =>
      apply (Nat.le_trans _ (GiftBox.onOpenCalls x)); [|apply calls_commit]
    end.
    destruct (negb (GiftBox.isOpen s)); unfold GiftBox.onOpenCalls; cbn; lia.
  - destruct (GiftBox.rendersNull p); cbn [snd]; [lia|].
    match goal with |- _ <= GiftBox.onOpenCalls (GiftBox.commit _ ?x) =>
      apply (Nat.le_trans _ (GiftBox.onOpenCalls x)); [|apply calls_commit]
    end.
    unfold GiftBox.onOpenCalls; cbn; lia.
  - destruct (GiftBox.shakeTimers s); cbn [snd]; [lia|].
    match goal with |- _ <= GiftBox.onOpenCalls (GiftBox.commit _ ?x) =>
      apply (Nat.le_trans _ (GiftBox.onOpenCalls x)); [|apply calls_commit]
    end.
    unfold GiftBox.onOpenCalls; cbn; lia.
Qed.

(** *** The passes of a render *)

Lemma sleighPass_frame (s : State) :
  flags (sleighPass s) = flags s /\ box (sleighPass s) = box s /\
  log (sleighPass s) = log s /\ pendingPlays (sleighPass s) = pendingPlays s /\
  listener (sleighPass s) = listener s /\
  listenDeps (sleighPass s) = listenDeps s /\
  startDeps (sleighPass s) = startDeps s /\ renders (sleighPass s) = renders s.
Proof.
  unfold sleighPass. cbv zeta.
  match goal with |- context [if ?c then _ else _] => destruct c end;
    [|repeat split].
  destruct (sleighCleanup s); fields;
    destruct (deliveryStarted (flags s)); fields; repeat split.
Qed.

Lemma sleighPass_timers (s : State) :
  (sleighTimers s <> [] -> deliveryStarted (flags s) = true) ->
  sleighTimers (sleighPass s) <> [] -> deliveryStarted (flags s) = true.
Proof.
  intros H. unfold sleighPass. cbv zeta.
  match goal with |- context [if ?c then _ else _] => destruct c end;
    [|exact H].
  destruct (deliveryStarted (flags s)) eqn:Hd; [reflexivity|].
  destruct (sleighCleanup s); fields; rewrite ?Hd; fields; intros Hne;
    exfalso; (assert (Hs : sleighTimers s <> []);
              [intros E; rewrite E in Hne; apply Hne; reflexivity|]);
    specialize (H Hs); discriminate H.
Qed.

Lemma startPass_frame (s : State) :
  flags (startPass s) = flags s /\ box (startPass s) = box s /\
  sleighTimers (startPass s) = sleighTimers s /\
  listener (startPass s) = listener s /\
  listenDeps (startPass s) = listenDeps s /\
  renders (startPass s) = renders s /\
  victimCalls (startPass s) = victimCalls s /\
  visitCalls (startPass s) = visitCalls s /\
  startDeps (startPass s) = Some (showSplash (flags s)).
Proof.
  unfold startPass. cbv zeta. destruct (startDeps s) as [b|] eqn:E.
  - destruct (Bool.eqb b (showSplash (flags s))) eqn:Eb; cbn [negb].
    + apply Bool.eqb_prop in Eb. subst b. repeat split. exact E.
    + destruct (showSplash (flags s)); fields; repeat split.
  - destruct (showSplash (flags s)); fields; repeat split.
Qed.

Lemma startPass_plays (s : State) :
  (pendingPlays s <> [] -> showSplash (flags s) = false) ->
  pendingPlays (startPass s) <> [] -> showSplash (flags s) = false.
Proof.
  intros H. unfold startPass. cbv zeta.
  destruct (showSplash (flags s)) eqn:Hs; [|reflexivity].
  match goal with |- context [if ?c then _ else _] => destruct c end;
    fields; exact H.
Qed.

(** A render calls [play()] only when [showSplash] has changed. *)
Lemma startPass_quiet (s : State) :
  startDeps s = Some (showSplash (flags s)) -> startPass s = s.
Proof.
  intros H. unfold startPass. rewrite H, Bool.eqb_reflx. reflexivity.
Qed.

Lemma listenPass_frame (s : State) :
  flags (listenPass s) = flags s /\ box (listenPass s) = box s /\
  sleighTimers (listenPass s) = sleighTimers s /\
  pendingPlays (listenPass s) = pendingPlays s /\
  log (listenPass s) = log s /\ startDeps (listenPass s) = startDeps s /\
  renders (listenPass s) = renders s.
Proof.
  unfold listenPass. cbv zeta.
  match goal with |- context [if ?c then _ else _] => destruct c end;
    repeat split.
Qed.

Lemma listenPass_listener (s : State) :
  match listenDeps s with
  | Some (a, b) => listener s = (if negb a && negb b then Some (a, b) else None)
  | None => listener s = None
  end ->
  listenDeps (listenPass s) =
    Some (showSplash (flags s), musicStarted (flags s)) /\
  listener (listenPass s) =
    (if negb (showSplash (flags s)) && negb (musicStarted (flags s))
     then Some (showSplash (flags s), musicStarted (flags s)) else None).
Proof.
  intros H. unfold listenPass. cbv zeta.
  destruct (listenDeps s) as [[a b]|] eqn:E; [|split; reflexivity].
  cbn [fst snd].
  destruct (Bool.eqb a (showSplash (flags s))) eqn:Ea;
    [destruct (Bool.eqb b (musicStarted (flags s))) eqn:Eb|];
    cbn [andb negb]; try (split; reflexivity).
  apply Bool.eqb_prop in Ea, Eb. subst a b. split; [exact E|exact H].
Qed.

Lemma onOpenCalled_frame (n : nat) :
  forall s,
  flags (onOpenCalled n s) =
    (if Nat.eqb n 0 then flags s else setExtraGifts true (flags s)) /\
  box (onOpenCalled n s) = box s /\
  sleighTimers (onOpenCalled n s) = sleighTimers s /\
  pendingPlays (onOpenCalled n s) = pendingPlays s /\
  listener (onOpenCalled n s) = listener s /\
  listenDeps (onOpenCalled n s) = listenDeps s /\
  startDeps (onOpenCalled n s) = startDeps s /\
  renders (onOpenCalled n s) = renders s /\
  victimCalls (onOpenCalled n s) = victimCalls s + n /\
  visitCalls (onOpenCalled n s) = visitCalls s /\
  playCalls (onOpenCalled n s) = playCalls s.
Proof.
  unfold onOpenCalled.
  induction n as [|n IH]; intros s; cbn [repeat fold_left].
  - cbn [Nat.eqb]. repeat split. lia.
  - destruct (IH (emit IncrementVictim
                    (setFlags (setExtraGifts true (flags s)) s)))
      as (H1 & H2 & H3 & H4 & H5 & H6 & H7 & H8 & H9 & H10 & H11).
    rewrite H1, H2, H3, H4, H5, H6, H7, H8, H9, H10, H11.
    cbn [Nat.eqb]. fields.
    repeat split;
      [destruct (Nat.eqb n 0); reflexivity
      | unfold victimCalls; fields; cbn [filter isVictim List.length]; lia ].
Qed.

(** *** What the flow keeps *)

(** [core] reads the flags only through the first four. *)
Lemma core_ext (s s' : State) :
  showSplash (flags s') = showSplash (flags s) ->
  musicStarted (flags s') = musicStarted (flags s) ->
  deliveryStarted (flags s') = deliveryStarted (flags s) ->
  boxDropped (flags s') = boxDropped (flags s) ->
  (pendingPlays s' <> [] -> showSplash (flags s) = false) ->
  (sleighTimers s' <> [] -> deliveryStarted (flags s) = true) ->
  match listenDeps s' with
  | Some (a, b) =>
      listener s' = (if negb a && negb b then Some (a, b) else None) /\
      (a = false -> showSplash (flags s) = false)
  | None => listener s' = None
  end ->
  box s' = box s -> visitCalls s' = visitCalls s ->
  core s -> core s'.
Proof.
  intros E1 E2 E3 E4 P T L B V
    (C1 & C2 & C3 & C4 & C5 & C6 & C7 & C8 & C9 & C10 & C11 & C12 & C13).
  unfold core. cbv zeta. rewrite E1, E2, E3, E4, B, V.
  repeat (split; [assumption|]). assumption.
Qed.

(** A state update that keeps the order of the flags and takes none of
    them back. *)
Lemma core_flags (f' : Flags) (s : State) :
  core s ->
  deliveryStarted f' = musicStarted f' ->
  (musicStarted f' = true -> showSplash f' = false) ->
  (boxDropped f' = true -> deliveryStarted f' = true) ->
  (showSplash (flags s) = false -> showSplash f' = false) ->
  (deliveryStarted (flags s) = true -> deliveryStarted f' = true) ->
  (boxDropped (flags s) = true -> boxDropped f' = true) ->
  core (setFlags f' s).
Proof.
  intros (C1 & C2 & C3 & C4 & C5 & C6 & C7 & C8 & C9 & C10 & C11 & C12 & C13)
    H1 H2 H3 H4 H5 H6.
  unfold core. cbv zeta. fields.
  split; [exact H1|]. split; [exact H2|]. split; [exact H3|].
  split; [intros E; apply H4, C4, E|].
  split; [intros E; apply H5, C5, E|].
  split.
  { destruct (listenDeps s) as [[a b]|]; [|exact C6].
    split; [apply C6|]. intros E. apply H4, C6, E. }
  split; [exact C7|]. split; [exact C8|].
  split; [intros E; apply H6, C9, E|].
  split; [intros E; apply H6, C10, E|].
  split; [exact C11|]. split; [exact C12|exact C13].
Qed.

Lemma core_listener (s : State) :
  core s ->
  match listenDeps s with
  | Some (a, b) =>
      listener s = (if negb a && negb b then Some (a, b) else None) /\
      (a = false -> showSplash (flags s) = false)
  | None => listener s = None
  end.
Proof. intros H. apply H. Qed.

Lemma core_sleighPass (s : State) : core s -> core (sleighPass s).
Proof.
  intros H. destruct (sleighPass_frame s) as (F1 & F2 & F3 & F4 & F5 & F6 & F7 & F8).
  apply (core_ext s); rewrite ?F1; try reflexivity; try exact F2.
  - rewrite F4. apply H.
  - apply sleighPass_timers, H.
  - rewrite F6, F5. apply (core_listener s H).
  - unfold visitCalls. rewrite F3. reflexivity.
  - exact H.
Qed.

Lemma core_boxPass (s : State) : core s -> core (boxPass s).
Proof.
  intros (C1 & C2 & C3 & C4 & C5 & C6 & C7 & C8 & C9 & C10 & C11 & C12 & C13).
  unfold core, boxPass. cbv zeta. fields.
  repeat (split; [assumption|]).
  destruct (box s) as [p b] eqn:Hb. cbn [GiftBox.step fst snd] in *.
  split; [reflexivity|]. split; [discriminate|].
  split; [intros E; exact E|].
  destruct (GiftBoxUseFacts.commit_keeps
              (GiftBox.mainBox (boxDropped (flags s)) (renders s)) b)
    as [Hio _].
  split; [rewrite Hio; exact C10|].
  split; [apply GiftBoxFacts.callGuarded_commit, C11|].
  split; [|exact C13].
  intros Hp. rewrite Hio.
  destruct (played_commit _ _ Hp) as [H|H]; [apply C12, H|exact H].
Qed.

Lemma core_startPass (s : State) : core s -> core (startPass s).
Proof.
  intros H.
  destruct (startPass_frame s) as (F1 & F2 & F3 & F4 & F5 & F6 & F7 & F8 & F9).
  apply (core_ext s); rewrite ?F1; try reflexivity; try assumption.
  - apply startPass_plays, H.
  - rewrite F3. apply H.
  - rewrite F5, F4. apply (core_listener s H).
Qed.

Lemma core_listenPass (s : State) : core s -> core (listenPass s).
Proof.
  intros H.
  destruct (listenPass_frame s) as (F1 & F2 & F3 & F4 & F5 & F6 & F7).
  assert (Hl : match listenDeps s with
               | Some (a, b) =>
                   listener s = (if negb a && negb b then Some (a, b) else None)
               | None => listener s = None
               end).
  { pose proof (core_listener s H) as L.
    destruct (listenDeps s) as [[a b]|]; [apply L|exact L]. }
  destruct (listenPass_listener s Hl) as [L1 L2].
  apply (core_ext s); rewrite ?F1; try reflexivity; try assumption.
  - rewrite F4. apply H.
  - rewrite F3. apply H.
  - rewrite L1. split; [exact L2|]. intros E; exact E.
  - unfold visitCalls. rewrite F5. reflexivity.
Qed.

Lemma core_onOpenCalled (n : nat) (s : State) :
  core s -> core (onOpenCalled n s).
Proof.
  intros H.
  destruct (onOpenCalled_frame n s)
    as (F1 & F2 & F3 & F4 & F5 & F6 & F7 & F8 & F9 & F10 & F11).
  apply (core_ext s); rewrite ?F1;
    try (destruct (Nat.eqb n 0); reflexivity); try assumption.
  - rewrite F4. apply H.
  - rewrite F3. apply H.
  - rewrite F6, F5. apply (core_listener s H).
Qed.

(** Something happening to the main box. *)
Lemma core_box_step (s : State) (e : BoxEvent) :
  core s -> core (setBox (GiftBox.step (box s) (toGiftBox e)) s).
Proof.
  intros (C1 & C2 & C3 & C4 & C5 & C6 & C7 & C8 & C9 & C10 & C11 & C12 & C13).
  unfold core. cbv zeta. fields.
  repeat (split; [assumption|]).
  rewrite box_props_step.
  repeat (split; [assumption|]).
  split.
  { rewrite GiftBoxUseFacts.isOpen_step.
    destruct e; cbn [toGiftBox]; try exact C10.
    intros E. apply orb_prop in E as [E|E]; [exact (C10 E)|].
    apply andb_prop in E as [E _]. exact (C9 E). }
  split; [apply GiftBoxFacts.callGuarded_step, C11|].
  split; [|exact C13].
  apply played_open_step, C12.
Qed.

Lemma core_renderOnce (s : State) : core s -> core (renderOnce s).
Proof.
  intros H. unfold renderOnce. cbv zeta.
  apply core_onOpenCalled, core_listenPass, core_startPass, core_boxPass,
    core_sleighPass.
  exact H.
Qed.

(** A render changes the state at most by showing the extra gifts. *)
Lemma flags_renderOnce (s : State) :
  flags (renderOnce s) = flags s \/
  flags (renderOnce s) = setExtraGifts true (flags s).
Proof.
  unfold renderOnce. cbv zeta.
  match goal with |- context [onOpenCalled ?n ?x] =>
    destruct (onOpenCalled_frame n x) as (F1 & _); rewrite F1;
    destruct (Nat.eqb n 0)
  end;
  [left|right];
  match goal with |- context [listenPass ?x] =>
    destruct (listenPass_frame x) as (G1 & _); rewrite G1
  end;
  match goal with |- context [startPass ?x] =>
    destruct (startPass_frame x) as (G2 & _); rewrite G2
  end;
  unfold boxPass; fields;
  match goal with |- context [sleighPass ?x] =>
    destruct (sleighPass_frame x) as (G3 & _); rewrite G3
  end; reflexivity.
Qed.

Lemma core_commit (s : State) : core s -> core (commit s).
Proof.
  intros H. unfold commit. cbv zeta.
  destruct (flagsChanged (flags (renderOnce s)) (flags s));
    repeat apply core_renderOnce; exact H.
Qed.

Lemma flagsChanged_false (a b : Flags) : flagsChanged a b = false -> a = b.
Proof.
  unfold flagsChanged. destruct (Flags_eq_dec a b); [auto|discriminate].
Qed.

(** The calls of [onOpen] made in a step of the box are counted. *)
Lemma counted_onOpenCalled (s x : State) (m : GiftBox.Mounted) :
  counted s ->
  flags x = flags s -> victimCalls x = victimCalls s -> box x = m ->
  GiftBox.onOpenCalls (snd (box s)) <= GiftBox.onOpenCalls (snd m) ->
  counted (onOpenCalled
             (GiftBox.onOpenCalls (snd m) - GiftBox.onOpenCalls (snd (box s))) x).
Proof.
  intros [V E] Hf Hv Hb Hle.
  match goal with |- counted (onOpenCalled ?n x) =>
    destruct (onOpenCalled_frame n x)
      as (F1 & F2 & _ & _ & _ & _ & _ & _ & F9 & _);
    remember n as k eqn:Hk
  end.
  unfold counted. rewrite F1, F2, F9, Hb, Hv, Hf, V.
  split; [lia|].
  destruct (Nat.eqb k 0) eqn:E0.
  - apply Nat.eqb_eq in E0. rewrite E.
    replace (GiftBox.onOpenCalls (snd m))
      with (GiftBox.onOpenCalls (snd (box s))) by lia.
    reflexivity.
  - apply Nat.eqb_neq in E0. fields. symmetry. apply Nat.ltb_lt. lia.
Qed.

Lemma counted_renderOnce (s : State) : counted s -> counted (renderOnce s).
Proof.
  intros H. unfold renderOnce. cbv zeta.
  set (s1 := setRenders (S (renders s)) s).
  set (s2 := sleighPass s1).
  destruct (sleighPass_frame s1) as (A1 & A2 & A3 & _).
  fold s2 in A1, A2, A3.
  set (s3 := boxPass s2).
  destruct (startPass_frame s3) as (B1 & B2 & _ & _ & _ & _ & B7 & _).
  set (s4 := startPass s3) in *.
  destruct (listenPass_frame s4) as (D1 & D2 & _ & _ & D5 & _).
  set (s5 := listenPass s4) in *.
  assert (Hbox : box s5 = GiftBox.step (box s)
                   (GiftBox.Render
                      (GiftBox.mainBox (boxDropped (flags s2)) (renders s2)))).
  { rewrite D2, B2. unfold s3, boxPass. fields. rewrite A2. reflexivity. }
  rewrite Hbox.
  apply counted_onOpenCalled.
  - exact H.
  - rewrite D1, B1. unfold s3, boxPass. fields. exact A1.
  - unfold victimCalls at 1. rewrite D5. fold (victimCalls s4). rewrite B7.
    unfold victimCalls, s3, boxPass. fields. rewrite A3. reflexivity.
  - exact Hbox.
  - apply calls_step.
Qed.

Lemma settled_renderOnce (s : State) : core s -> settled (renderOnce s).
Proof.
  intros H. unfold renderOnce. cbv zeta.
  set (s3 := boxPass (sleighPass (setRenders (S (renders s)) s))).
  assert (H3 : core s3).
  { apply core_boxPass, core_sleighPass. exact H. }
  destruct (startPass_frame s3) as (B1 & _ & _ & _ & _ & _ & _ & _ & B9).
  pose proof (core_startPass s3 H3) as H4.
  set (s4 := startPass s3) in *.
  destruct (listenPass_frame s4) as (D1 & _ & _ & _ & _ & D6 & _).
  assert (Hl : match listenDeps s4 with
               | Some (a, b) =>
                   listener s4 = (if negb a && negb b then Some (a, b) else None)
               | None => listener s4 = None
               end).
  { pose proof (core_listener s4 H4) as L.
    destruct (listenDeps s4) as [[a b]|]; [apply L|exact L]. }
  destruct (listenPass_listener s4 Hl) as [L1 _].
  set (s5 := listenPass s4) in *.
  match goal with |- settled (onOpenCalled ?n s5) =>
    destruct (onOpenCalled_frame n s5)
      as (F1 & _ & _ & _ & _ & F6 & F7 & _)
  end.
  unfold settled. rewrite F1, F6, F7, L1, D6, B9, D1, B1.
  match goal with |- context [Nat.eqb ?n 0] => destruct (Nat.eqb n 0) end;
    split; reflexivity.
Qed.

(** Between events: the three together. *)
Lemma flow_commit (s : State) :
  core s -> counted s -> core (commit s) /\ counted (commit s) /\ settled (commit s).
Proof.
  intros H C. split; [apply core_commit, H|].
  unfold commit. cbv zeta.
  destruct (flagsChanged (flags (renderOnce s)) (flags s)).
  - split; [apply counted_renderOnce, counted_renderOnce, C|].
    apply settled_renderOnce, core_renderOnce, H.
  - split; [apply counted_renderOnce, C|apply settled_renderOnce, H].
Qed.

Lemma flow_update (f : Flags -> Flags) (s : State) :
  core (setFlags (f (flags s)) s) ->
  extraGifts (f (flags s)) = extraGifts (flags s) ->
  core s -> counted s -> settled s ->
  core (update f s) /\ counted (update f s) /\ settled (update f s).
Proof.
  intros Hc He H C S. unfold update.
  destruct (flagsChanged (f (flags s)) (flags s)); [|auto].
  apply flow_commit; [exact Hc|].
  unfold counted. fields. rewrite He. exact C.
Qed.

Lemma flow_mount (narrow : bool) :
  core (mount narrow) /\ counted (mount narrow) /\ settled (mount narrow).
Proof.
  unfold mount. cbv zeta.
  match goal with |- context [update _ ?x] =>
    assert (H : core x /\ counted x /\ settled x)
  end.
  { unfold core, counted, settled, GiftBox.callGuarded. cbn.
    repeat split; try discriminate; try reflexivity; try lia;
      intros; congruence. }
  destruct H as (H & C & S).
  apply flow_update; try assumption; try reflexivity.
Qed.

Lemma flow_step (s : State) (e : Event) :
  core s /\ counted s /\ settled s ->
  core (step s e) /\ counted (step s e) /\ settled (step s e).
Proof.
  intros (H & C & S). pose proof H as H0.
  destruct H as (C1 & C2 & C3 & C4 & C5 & C6 & C7 & C8 & C9 & C10 & C11 & C12 & C13).
  destruct e; unfold step.
  - (* SplashComplete *)
    apply flow_update; try assumption; try reflexivity.
    apply core_flags; fields; auto.
  - (* PlaySettled *)
    destruct (pendingPlays s) as [|o rest] eqn:Hp; [auto|].
    assert (Hs : showSplash (flags s) = false) by (apply C4; discriminate).
    cbv zeta.
    assert (H1 : core (setPendingPlays rest s)).
    { revert H0. apply core_ext; try reflexivity; fields; auto. }
    destruct ok.
    + apply flow_update; try assumption; try reflexivity.
      apply core_flags; fields; auto.
    + split; [|split; [exact C|exact S]].
      revert H1. apply core_ext; try reflexivity; fields; auto.
  - (* WindowClick *)
    destruct (listener s) as [[a b]|] eqn:Hl; [|auto].
    destruct (negb a && negb b) eqn:Hab; [|auto].
    assert (Hs : showSplash (flags s) = false).
    { destruct S as [_ S2]. rewrite S2 in C6. destruct C6 as [L1 L2].
      try rewrite Hl in L1.
      destruct (negb (showSplash (flags s)) && negb (musicStarted (flags s)))
        eqn:E; [|discriminate L1].
      apply andb_prop in E as [E _]. apply negb_true_iff in E. exact E. }
    split; [|split; [exact C|exact S]].
    apply (core_ext s); try reflexivity; fields; auto.
    apply (core_listener s H0).
  - (* SleighTimeout *)
    destruct (sleighTimers s) as [|t rest] eqn:Ht; [auto|].
    assert (Hd : deliveryStarted (flags s) = true) by (apply C5; discriminate).
    assert (H1 : core (setSleighTimers rest s)).
    { revert H0. apply core_ext; try reflexivity; fields; auto. }
    apply flow_update; try assumption; try reflexivity.
    apply core_flags; fields; auto.
  - (* Box *)
    cbv zeta.
    set (m := GiftBox.step (box s) (toGiftBox e)).
    assert (H1 : core (setBox m s)) by apply (core_box_step s e H0).
    match goal with |- context [onOpenCalled ?n ?x] =>
      set (s' := onOpenCalled n x)
    end.
    assert (H2 : core s') by (apply core_onOpenCalled, H1).
    assert (C2' : counted s').
    { unfold s'. apply counted_onOpenCalled; try reflexivity; try exact C.
      apply calls_step. }
    destruct (flagsChanged (flags s') (flags (setBox m s))) eqn:Hc.
    + apply flow_commit; assumption.
    + split; [exact H2|]. split; [exact C2'|].
      apply flagsChanged_false in Hc. fields_in Hc.
      unfold s' in *.
      match goal with |- settled (onOpenCalled ?n ?x) =>
        destruct (onOpenCalled_frame n x) as (_ & _ & _ & _ & _ & F6 & F7 & _)
      end.
      unfold settled. rewrite F6, F7, Hc. exact S.
  - (* Resize *)
    apply flow_update; try assumption; try reflexivity.
  - (* StatsChange *)
    apply flow_commit; assumption.
Qed.

Lemma flow_run (evs : list Event) :
  forall s, core s /\ counted s /\ settled s ->
  core (run s evs) /\ counted (run s evs) /\ settled (run s evs).
Proof.
  induction evs as [|e evs IH]; intros s H; [exact H|].
  cbn [run fold_left]. apply (IH (step s e)), flow_step, H.
Qed.

Lemma flow_reachable (narrow : bool) (evs : list Event) :
  core (run (mount narrow) evs) /\ counted (run (mount narrow) evs) /\
  settled (run (mount narrow) evs).
Proof. apply flow_run, flow_mount. Qed.

(** *** The music *)

Lemma plays_startPass (s : State) :
  playCalls (startPass s) =
  playCalls s +
  (if match startDeps s with
      | None => true
      | Some b => negb (Bool.eqb b (showSplash (flags s)))
      end && negb (showSplash (flags s))
   then 1 else 0).
Proof.
  unfold startPass. cbv zeta.
  match goal with |- context [if ?c then _ else _] => destruct c end;
    cbn [andb]; [|lia].
  destruct (showSplash (flags s)); unfold playCalls; cbn [negb]; fields;
    cbn [filter isPlay List.length]; lia.
Qed.

Lemma plays_renderOnce (s : State) :
  playCalls (renderOnce s) =
  playCalls s +
  (if match startDeps s with
      | None => true
      | Some b => negb (Bool.eqb b (showSplash (flags s)))
      end && negb (showSplash (flags s))
   then 1 else 0).
Proof.
  unfold renderOnce. cbv zeta.
  set (s1 := setRenders (S (renders s)) s).
  destruct (sleighPass_frame s1) as (A1 & _ & A3 & _ & _ & _ & A7 & _).
  set (s2 := sleighPass s1) in *.
  set (s3 := boxPass s2).
  pose proof (plays_startPass s3) as P.
  set (s4 := startPass s3) in *.
  destruct (listenPass_frame s4) as (_ & _ & _ & _ & D5 & _).
  set (s5 := listenPass s4) in *.
  match goal with |- context [onOpenCalled ?n s5] =>
    destruct (onOpenCalled_frame n s5)
      as (_ & _ & _ & _ & _ & _ & _ & _ & _ & _ & F11)
  end.
  rewrite F11. unfold playCalls at 1. rewrite D5. fold (playCalls s4).
  rewrite P. unfold s3, boxPass, playCalls. fields. rewrite A1, A3, A7.
  reflexivity.
Qed.

Lemma plays_commit (s : State) :
  core s ->
  playCalls (commit s) =
  playCalls s +
  (if match startDeps s with
      | None => true
      | Some b => negb (Bool.eqb b (showSplash (flags s)))
      end && negb (showSplash (flags s))
   then 1 else 0).
Proof.
  intros H. unfold commit. cbv zeta.
  destruct (flagsChanged (flags (renderOnce s)) (flags s));
    [|apply plays_renderOnce].
  rewrite plays_renderOnce.
  destruct (settled_renderOnce s H) as [S1 _]. rewrite S1, Bool.eqb_reflx.
  cbn [negb andb]. rewrite Nat.add_0_r. apply plays_renderOnce.
Qed.

Lemma plays_settled_commit (s : State) :
  core s -> startDeps s = Some (showSplash (flags s)) ->
  playCalls (commit s) = playCalls s.
Proof.
  intros H E. rewrite (plays_commit s H), E, Bool.eqb_reflx.
  cbn [negb andb]. lia.
Qed.

(** A state update that leaves [showSplash] alone asks for no music. *)
Lemma plays_update (f : Flags -> Flags) (s : State) :
  core (setFlags (f (flags s)) s) -> settled s ->
  showSplash (f (flags s)) = showSplash (flags s) ->
  playCalls (update f s) = playCalls s.
Proof.
  intros H [S1 _] E. unfold update.
  destruct (flagsChanged (f (flags s)) (flags s)); [|reflexivity].
  rewrite plays_settled_commit; [reflexivity|exact H|].
  fields. rewrite E. exact S1.
Qed.

(** *** What a user sees of the flow *)

(** X26.  The stages come in order: the ending scene is on the screen only
    once the box has dropped, the box drops only once the delivery has
    started, the delivery starts together with the music, and the music
    only once the splash screen is gone. *)
Theorem flow_in_order (narrow : bool) (evs : list Event) :
  (endingMounted (run (mount narrow) evs) = true ->
   boxDropped (flags (run (mount narrow) evs)) = true) /\
  (boxDropped (flags (run (mount narrow) evs)) = true ->
   deliveryStarted (flags (run (mount narrow) evs)) = true) /\
  deliveryStarted (flags (run (mount narrow) evs)) =
    musicStarted (flags (run (mount narrow) evs)) /\
  (musicStarted (flags (run (mount narrow) evs)) = true ->
   overlayShown (run (mount narrow) evs) = true).
Proof.
  destruct (flow_reachable narrow evs) as (H & [_ C] & _).
  destruct H as (C1 & C2 & C3 & _ & _ & _ & _ & _ & _ & C10 & [G _] & C12 & _).
  set (s := run (mount narrow) evs) in *. clearbody s.
  split; [|split; [exact C3|split; [exact C1|]]].
  - unfold endingMounted. intros E. rewrite E in C. symmetry in C.
    apply Nat.ltb_lt in C. apply C10, C12.
    destruct (GiftBox.hasPlayedRef (snd (box s))); [reflexivity|].
    specialize (G eq_refl). lia.
  - intros E. unfold overlayShown. rewrite (C2 E). reflexivity.
Qed.

Lemma flow_in_order_witness :
  endingMounted
    (run (mount false)
       [SplashComplete; PlaySettled true; SleighTimeout; Box BoxClick]) = true /\
  boxDropped (flags
    (run (mount false)
       [SplashComplete; PlaySettled true; SleighTimeout; Box BoxClick])) = true.
Proof.
  assert (H : endingMounted
                (run (mount false)
                   [SplashComplete; PlaySettled true; SleighTimeout;
                    Box BoxClick]) = true) by reflexivity.
  split; [exact H|].
  exact (proj1 (flow_in_order false
                  [SplashComplete; PlaySettled true; SleighTimeout;
                   Box BoxClick]) H).
Defined.

(** X27.  The visit is counted exactly once, on mount, and the victim at
    most once: exactly once when the extra gifts are on the screen, not at
    all before. *)
Theorem visit_and_victim_counted_once (narrow : bool) (evs : list Event) :
  visitCalls (run (mount narrow) evs) = 1 /\
  victimCalls (run (mount narrow) evs) =
    (if extraGifts (flags (run (mount narrow) evs)) then 1 else 0).
Proof.
  destruct (flow_reachable narrow evs) as (H & [V C] & _).
  destruct H as (_ & _ & _ & _ & _ & _ & _ & _ & _ & _ & [_ G] & _ & C13).
  split; [exact C13|]. rewrite V, C.
  destruct (GiftBox.onOpenCalls (snd (box (run (mount narrow) evs))))
    as [|[|n]]; [reflexivity|reflexivity|lia].
Qed.

Lemma flags_commit (s : State) :
  flags (commit s) = flags s \/
  flags (commit s) = setExtraGifts true (flags s).
Proof.
  unfold commit. cbv zeta.
  destruct (flagsChanged (flags (renderOnce s)) (flags s)).
  - destruct (flags_renderOnce (renderOnce s)) as [E|E]; rewrite E;
      destruct (flags_renderOnce s) as [E'|E']; rewrite E'; auto.
  - apply flags_renderOnce.
Qed.

Lemma flags_update (f : Flags -> Flags) (s : State) :
  flags (update f s) = flags s \/ flags (update f s) = f (flags s) \/
  flags (update f s) = setExtraGifts true (f (flags s)).
Proof.
  unfold update. destruct (flagsChanged (f (flags s)) (flags s)); [|auto].
  destruct (flags_commit (setFlags (f (flags s)) s)) as [E|E]; rewrite E; auto.
Qed.

(** X28.  No stage is ever taken back: whatever happens, in whatever
    state, the splash screen does not come back, and the music, the
    delivery, the dropped box and the extra gifts stay. *)
Theorem stages_never_taken_back (s : State) (e : Event) :
  (showSplash (flags s) = false -> showSplash (flags (step s e)) = false) /\
  (musicStarted (flags s) = true -> musicStarted (flags (step s e)) = true) /\
  (deliveryStarted (flags s) = true ->
   deliveryStarted (flags (step s e)) = true) /\
  (boxDropped (flags s) = true -> boxDropped (flags (step s e)) = true) /\
  (extraGifts (flags s) = true -> extraGifts (flags (step s e)) = true).
Proof.
  assert (Hup : forall f x,
            flags x = flags s ->
            (showSplash (flags s) = false -> showSplash (f (flags s)) = false) ->
            (musicStarted (flags s) = true -> musicStarted (f (flags s)) = true) ->
            (deliveryStarted (flags s) = true ->
             deliveryStarted (f (flags s)) = true) ->
            (boxDropped (flags s) = true -> boxDropped (f (flags s)) = true) ->
            (extraGifts (flags s) = true -> extraGifts (f (flags s)) = true) ->
            (showSplash (flags s) = false ->
             showSplash (flags (update f x)) = false) /\
            (musicStarted (flags s) = true ->
             musicStarted (flags (update f x)) = true) /\
            (deliveryStarted (flags s) = true ->
             deliveryStarted (flags (update f x)) = true) /\
            (boxDropped (flags s) = true ->
             boxDropped (flags (update f x)) = true) /\
            (extraGifts (flags s) = true ->
             extraGifts (flags (update f x)) = true)).
  { intros f x Hx H1 H2 H3 H4 H5.
    destruct (flags_update f x) as [E|[E|E]]; rewrite E, ?Hx; fields; auto. }
  assert (Hco : forall x,
            (flags x = flags s \/ flags x = setExtraGifts true (flags s)) ->
            (showSplash (flags s) = false ->
             showSplash (flags (commit x)) = false) /\
            (musicStarted (flags s) = true ->
             musicStarted (flags (commit x)) = true) /\
            (deliveryStarted (flags s) = true ->
             deliveryStarted (flags (commit x)) = true) /\
            (boxDropped (flags s) = true ->
             boxDropped (flags (commit x)) = true) /\
            (extraGifts (flags s) = true ->
             extraGifts (flags (commit x)) = true)).
  { intros x Hx.
    destruct (flags_commit x) as [E|E]; rewrite E;
      destruct Hx as [Hx|Hx]; rewrite Hx; fields; auto. }
  destruct e; unfold step.
  - apply Hup; fields; auto.
  - destruct (pendingPlays s); [auto|]. cbv zeta.
    destruct ok; [apply Hup; fields; auto|fields; auto].
  - destruct (listener s) as [[a b]|]; [|auto].
    destruct (negb a && negb b); fields; auto.
  - destruct (sleighTimers s); [auto|]. apply Hup; fields; auto.
  - cbv zeta.
    match goal with |- context [onOpenCalled ?n ?x] =>
      destruct (onOpenCalled_frame n x) as (F1 & _);
      set (s' := onOpenCalled n x) in *
    end.
    fields_in F1.
    assert (Hs' : flags s' = flags s \/ flags s' = setExtraGifts true (flags s)).
    { rewrite F1.
      match goal with |- context [Nat.eqb ?n 0] => destruct (Nat.eqb n 0) end;
        auto. }
    match goal with |- context [if ?c then _ else _] => destruct c end.
    + apply Hco, Hs'.
    + destruct Hs' as [E|E]; rewrite E; fields; auto.
  - apply Hup; fields; auto.
  - apply Hco. auto.
Qed.

Lemma stages_never_taken_back_witness :
  boxDropped (flags
    (step (run (mount false) [SplashComplete; PlaySettled true; SleighTimeout])
       StatsChange)) = true.
Proof.
  apply (stages_never_taken_back
           (run (mount false) [SplashComplete; PlaySettled true; SleighTimeout])
           StatsChange).
  reflexivity.
Defined.

(** X29.  The music is asked for exactly when the splash screen goes and on
    every click made while the splash screen is gone and the music has not
    started: no other event calls play(), and once the music has started no
    click does. *)
Theorem music_requests (narrow : bool) (evs : list Event) (e : Event) :
  playCalls (step (run (mount narrow) evs) e) =
  playCalls (run (mount narrow) evs) +
  (if requestsMusic (run (mount narrow) evs) e then 1 else 0).
Proof.
  destruct (flow_reachable narrow evs) as (H & C & S).
  set (s := run (mount narrow) evs) in *. clearbody s.
  pose proof H as H0.
  destruct H as (C1 & C2 & C3 & C4 & C5 & C6 & C7 & C8 & C9 & C10 & C11 & C12 & C13).
  destruct e; unfold step; cbn [requestsMusic].
  - (* SplashComplete *)
    unfold update.
    destruct (showSplash (flags s)) eqn:Hs.
    + assert (Hc : flagsChanged (setShowSplash false (flags s)) (flags s) = true).
      { unfold flagsChanged.
        destruct (Flags_eq_dec (setShowSplash false (flags s)) (flags s)) as [E|E];
          [|reflexivity].
        apply (f_equal showSplash) in E. fields_in E. congruence. }
      rewrite Hc, plays_commit.
      * fields. destruct S as [S1 _]. rewrite S1, Hs. reflexivity.
      * apply core_flags; fields; auto.
    + assert (Hc : setShowSplash false (flags s) = flags s).
      { destruct (flags s); fields_in Hs; subst; reflexivity. }
      rewrite Hc. unfold flagsChanged.
      destruct (Flags_eq_dec (flags s) (flags s)); [lia|congruence].
  - (* PlaySettled *)
    destruct (pendingPlays s) as [|o rest] eqn:Hp; [lia|]. cbv zeta.
    assert (Hs : showSplash (flags s) = false) by (apply C4; discriminate).
    assert (H1 : core (setPendingPlays rest s)).
    { revert H0. apply core_ext; try reflexivity; fields; auto. }
    destruct ok.
    + rewrite plays_update;
      [unfold playCalls; fields; lia| |exact S|reflexivity].
      apply core_flags; fields; auto.
    + unfold playCalls. fields. cbn [filter isPlay List.length]. lia.
  - (* WindowClick *)
    destruct S as [S1 S2]. rewrite S2 in C6. destruct C6 as [L1 _].
    rewrite L1.
    destruct (negb (showSplash (flags s)) && negb (musicStarted (flags s)))
      eqn:E; [|lia].
    rewrite E. unfold playCalls. fields. cbn [filter isPlay List.length]. lia.
  - (* SleighTimeout *)
    destruct (sleighTimers s) as [|t rest] eqn:Ht; [lia|].
    assert (Hd : deliveryStarted (flags s) = true) by (apply C5; discriminate).
    assert (H1 : core (setSleighTimers rest s)).
    { revert H0. apply core_ext; try reflexivity; fields; auto. }
    rewrite plays_update;
      [unfold playCalls; fields; lia| |exact S|reflexivity].
    apply core_flags; fields; auto.
  - (* Box *)
    cbv zeta.
    set (m := GiftBox.step (box s) (toGiftBox e)).
    assert (H1 : core (setBox m s)) by apply (core_box_step s e H0).
    match goal with |- context [onOpenCalled ?n ?x] =>
      destruct (onOpenCalled_frame n x)
        as (F1 & _ & _ & _ & _ & _ & F7 & _ & _ & _ & F11);
      pose proof (core_onOpenCalled n x H1) as H2;
      set (s' := onOpenCalled n x) in *
    end.
    match goal with |- context [if ?c then _ else _] => destruct c end.
    + rewrite plays_settled_commit; [rewrite F11; unfold playCalls; fields; lia
                                    |exact H2|].
      rewrite F7, F1. fields. destruct S as [S1 _]. rewrite S1.
      match goal with |- context [Nat.eqb ?n 0] => destruct (Nat.eqb n 0) end;
        reflexivity.
    + rewrite F11. unfold playCalls. fields. lia.
  - (* Resize *)
    rewrite plays_update; [lia| |exact S|reflexivity].
    apply core_flags; fields; auto.
  - (* StatsChange *)
    rewrite plays_settled_commit; [lia|exact H0|apply S].
Qed.

End AppFacts.
